(** * Field transformation and binding layer of [integrations/serializers.py]

    A shallow embedding of the serializer fields ([BaseSerializableField],
    [IntegerField]), of [BindableListSerializer] and of
    [BindableModelSerializer], together with the properties their
    specification states about them.

    Python values are modelled by the inductive type [pyval]; a Python
    call that may raise is a function into [result].  The parts of Django
    REST framework and of the [decimal] module that the source calls are
    modelled alongside, each under the name the source uses. *)

From Stdlib Require Import ZArith NArith List String Ascii Bool Lia Permutation.
From Stdlib Require SpecFloat.
Import ListNotations.

Set Warnings "-register-all".

Local Open Scope string_scope.
Local Open Scope list_scope.
Local Open Scope Z_scope.

(* ===================================================================== *)
(** * Python values, exceptions and results *)
(* ===================================================================== *)

Module Py.

(** A finite [decimal.Decimal]: sign, coefficient and exponent, the
    number [(-1)^sign * coeff * 10^exp].  Python keeps the coefficient as
    a string of digits; its length is [ndigits] below. *)
Record Decimal : Set := mkDec { dsign : bool; dcoeff : N; dexp : Z }.

(** The [decimal.Decimal]s that are no finite numbers: the infinities,
    and the NaNs, quiet or signaling, with the diagnostic digits they
    carry (0 for none). *)
Inductive special : Set :=
| Inf (sign : bool)
| Nan (sign : bool) (signaling : bool) (payload : N).

(** The values that travel through the serializers: JSON-like data,
    [Decimal]s produced by the transforms and the framework's [empty]
    sentinel.  A [float] is an IEEE 754 double ([SpecFloat] at 53 bits
    and [emax] 1024); a [Decimal] is finite ([PDec]) or special
    ([PSpecial]); a string is a sequence of characters below code point
    256; a [dict] is an association list in insertion order with unique
    keys (see [dict_set]). *)
Inductive pyval : Type :=
| PNone
| PEmpty
| PBool (b : bool)
| PInt (z : Z)
| PFloat (f : SpecFloat.spec_float)
| PDec (d : Decimal)
| PSpecial (s : special)
| PStr (s : string)
| PList (l : list pyval)
| PDict (m : list (string * pyval)).

Definition dict : Type := list (string * pyval).

(** Signals of the [decimal] module that are trapped (raised) by default. *)
Inductive signal : Set := InvalidOperation | DivisionByZero | Overflow.

(** The detail of a [ValidationError]: the framework normalises it to a
    list or to a mapping. *)
Inductive detail : Type :=
| DetailList (l : list pyval)
| DetailDict (m : dict).

Inductive exn : Type :=
| ValidationError (d : detail)
| DjangoValidationError (messages : list string)
| SkipField
| TypeError (msg : string)
| ValueError
| OverflowError
| AttributeError
| UnboundLocalError
| DecimalException (s : signal).

Inductive result (A : Type) : Type :=
| Ok (a : A)
| Raise (e : exn).
Arguments Ok {A} a.
Arguments Raise {A} e.

Definition bind {A B} (r : result A) (k : A -> result B) : result B :=
  match r with
  | Ok a => k a
  | Raise e => Raise e
  end.

Definition detail_val (d : detail) : pyval :=
  match d with
  | DetailList l => PList l
  | DetailDict m => PDict m
  end.

(** Truth value of an object, as [if x:], [any] and [not x] test it. *)
Definition truthy (v : pyval) : bool :=
  match v with
  | PNone => false
  | PEmpty => true
  | PBool b => b
  | PInt z => negb (z =? 0)
  | PFloat f => match f with SpecFloat.S754_zero _ => false | _ => true end
  | PDec d => negb (dcoeff d =? 0)%N
  | PSpecial _ => true
  | PStr s => negb (String.eqb s "")
  | PList l => match l with [] => false | _ => true end
  | PDict m => match m with [] => false | _ => true end
  end.

(** [type(x).__name__] *)
Definition type_name (v : pyval) : string :=
  match v with
  | PNone => "NoneType"
  | PEmpty => "type"
  | PBool _ => "bool"
  | PInt _ => "int"
  | PFloat _ => "float"
  | PDec _ | PSpecial _ => "Decimal"
  | PStr _ => "str"
  | PList _ => "list"
  | PDict _ => "dict"
  end.

(** ** Dictionaries *)

(** [d.get(k)] on the association list; [None] here is "no such key". *)
Fixpoint dict_lookup (k : string) (d : dict) : option pyval :=
  match d with
  | [] => None
  | (k', v) :: d' => if String.eqb k k' then Some v else dict_lookup k d'
  end.

(** [d.get(k, default)] *)
Definition dict_get (k : string) (default : pyval) (d : dict) : pyval :=
  match dict_lookup k d with
  | Some v => v
  | None => default
  end.

(** [d[k] = v]: an existing key keeps its position, a new key goes last. *)
Fixpoint dict_set (k : string) (v : pyval) (d : dict) : dict :=
  match d with
  | [] => [(k, v)]
  | (k', v') :: d' =>
      if String.eqb k k' then (k, v) :: d' else (k', v') :: dict_set k v d'
  end.

(** [d.update(other)] *)
Definition dict_update (d other : dict) : dict :=
  fold_left (fun acc kv => dict_set (fst kv) (snd kv) acc) other d.

(** ** Strings *)

(** [s.split(sep)] for a one-character separator: the pieces between
    the separators, empty pieces included. *)
Fixpoint split_aux (sep : ascii) (s : string) (cur : string) : list string :=
  match s with
  | EmptyString => [cur]
  | String c s' =>
      if Ascii.eqb c sep
      then cur :: split_aux sep s' ""
      else split_aux sep s' (String.append cur (String c ""))
  end.

Definition split (sep : ascii) (s : string) : list string :=
  split_aux sep s "".

End Py.

Export Py.

Declare Scope py_scope.
Delimit Scope py_scope with py.
Notation "x <- c ;; k" := (bind c (fun x => k))
  (at level 61, c at next level, right associativity) : py_scope.
Local Open Scope py_scope.

(* ===================================================================== *)
(** * The [decimal] module: contexts and correctly rounded arithmetic *)
(* ===================================================================== *)

(** The arithmetic of [Decimal]s under a context, as the [decimal]
    module specifies it (its reference implementation is [_pydecimal]):
    for finite numbers the exact result is formed first and [fix_] then
    rounds it to the context precision (ROUND_HALF_EVEN, the default
    rounding) and checks the exponent limits; the special values follow
    the rules for NaNs and infinities.  Of the signals only the default
    traps raise, and numbers are as large as they need to be: the limits
    that the C implementation puts on precision and exponents are left
    out. *)

Module Dec.

(** The arithmetic context: [prec] significant digits, exponent limits. *)
Record Context : Set := mkContext { prec : positive; Emax : Z; Emin : Z }.

(** The context every thread starts with. *)
Definition DefaultContext : Context :=
  {| prec := 28; Emax := 999999; Emin := -999999 |}.

Definition Etiny (ctx : Context) : Z := Emin ctx - Zpos (prec ctx) + 1.
Definition Etop (ctx : Context) : Z := Emax ctx - Zpos (prec ctx) + 1.

(** [ctx.prec = precision] inside [localcontext()] *)
Definition with_prec (ctx : Context) (precision : option positive) : Context :=
  match precision with
  | Some p => {| prec := p; Emax := Emax ctx; Emin := Emin ctx |}
  | None => ctx
  end.

(** Number of decimal digits of a coefficient, [len(str(c))]; 1 for 0. *)
Fixpoint ndigits_aux (fuel : nat) (c : Z) : Z :=
  match fuel with
  | O => 1
  | S f => if c <? 10 then 1 else 1 + ndigits_aux f (c / 10)
  end.

Definition ndigitsZ (c : Z) : Z := ndigits_aux (S (Z.to_nat (Z.log2 c))) c.

Definition ndigits (c : N) : Z := ndigitsZ (Z.of_N c).

Definition cz (d : Decimal) : Z := Z.of_N (dcoeff d).

(** [d.adjusted()]: the exponent of the most significant digit. *)
Definition adjusted (d : Decimal) : Z := dexp d + ndigits (dcoeff d) - 1.

(** Drop the [n] low digits of [c], rounding half to even. *)
Definition round_half_even (c n : Z) : Z :=
  let p := 10 ^ n in
  let hi := c / p in
  let lo := c mod p in
  if (2 * lo >? p) || ((2 * lo =? p) && Z.odd hi) then hi + 1 else hi.

(** [Decimal._fix]: round to the context precision, keep the exponent
    within the limits ([clamp] is 0). *)
Definition fix_ (ctx : Context) (d : Decimal) : result Decimal :=
  let P := Zpos (prec ctx) in
  if (dcoeff d =? 0)%N then
    Ok (mkDec (dsign d) 0 (Z.min (Z.max (dexp d) (Etiny ctx)) (Emax ctx)))
  else
    let exp_min0 := ndigits (dcoeff d) + dexp d - P in
    if exp_min0 >? Etop ctx then Raise (DecimalException Overflow)
    else
      let exp_min := Z.max exp_min0 (Etiny ctx) in
      if dexp d <? exp_min then
        let r := round_half_even (cz d) (exp_min - dexp d) in
        let '(coeff, e) :=
          if ndigitsZ r >? P then (r / 10, exp_min + 1) else (r, exp_min) in
        if e >? Etop ctx then Raise (DecimalException Overflow)
        else Ok (mkDec (dsign d) (Z.to_N coeff) e)
      else Ok d.

(** [Decimal(n)] for an [int]: exact, no context involved. *)
Definition of_int (z : Z) : Decimal := mkDec (z <? 0) (Z.abs_N z) 0.

(** [int(d)]: truncation towards zero. *)
Definition to_int (d : Decimal) : Z :=
  let m := if 0 <=? dexp d then cz d * 10 ^ dexp d
           else cz d / 10 ^ (- dexp d) in
  if dsign d then - m else m.

(** [a * b] *)
Definition mul (ctx : Context) (a b : Decimal) : result Decimal :=
  fix_ ctx (mkDec (xorb (dsign a) (dsign b)) (dcoeff a * dcoeff b)
                  (dexp a + dexp b)).

(** Exact quotients are brought as close to the ideal exponent as their
    trailing zeros allow. *)
Fixpoint strip_zeros (fuel : nat) (coeff e : Z) : Z * Z :=
  match fuel with
  | O => (coeff, e)
  | S f => if coeff mod 10 =? 0 then strip_zeros f (coeff / 10) (e + 1)
           else (coeff, e)
  end.

(** [a / b] *)
Definition div (ctx : Context) (a b : Decimal) : result Decimal :=
  let sign := xorb (dsign a) (dsign b) in
  if (dcoeff b =? 0)%N then
    if (dcoeff a =? 0)%N then Raise (DecimalException InvalidOperation)
    else Raise (DecimalException DivisionByZero)
  else if (dcoeff a =? 0)%N then fix_ ctx (mkDec sign 0 (dexp a - dexp b))
  else
    let shift := ndigits (dcoeff b) - ndigits (dcoeff a) + Zpos (prec ctx) + 1 in
    let e := dexp a - dexp b - shift in
    let '(q, r) :=
      if 0 <=? shift then Z.div_eucl (cz a * 10 ^ shift) (cz b)
      else Z.div_eucl (cz a) (cz b * 10 ^ (- shift)) in
    if r =? 0 then
      let '(q', e') := strip_zeros (Z.to_nat (dexp a - dexp b - e)) q e in
      fix_ ctx (mkDec sign (Z.to_N q') e')
    else
      fix_ ctx (mkDec sign (Z.to_N (if q mod 5 =? 0 then q + 1 else q)) e).

Definition signed (d : Decimal) : Z := if dsign d then - cz d else cz d.

(** [a + b]: the exact sum at the smaller exponent, then [fix_]; a zero
    sum is negative only when both operands are. *)
Definition add (ctx : Context) (a b : Decimal) : result Decimal :=
  let e := Z.min (dexp a) (dexp b) in
  let s := signed a * 10 ^ (dexp a - e) + signed b * 10 ^ (dexp b - e) in
  let sign := if s =? 0 then dsign a && dsign b else s <? 0 in
  fix_ ctx (mkDec sign (Z.abs_N s) e).

Definition neg (d : Decimal) : Decimal :=
  mkDec (negb (dsign d)) (dcoeff d) (dexp d).

(** [a - b] *)
Definition sub (ctx : Context) (a b : Decimal) : result Decimal :=
  add ctx a (neg b).

(** ** Numeric strings *)

Definition digit_of (c : ascii) : option N :=
  let n := N_of_ascii c in
  if ((48 <=? n) && (n <=? 57))%N then Some (n - 48)%N else None.

(** The longest prefix of digits: its value (continuing [acc]), its
    length (added to [cnt]) and the rest of the string. *)
Fixpoint span_digits (s : string) (acc : N) (cnt : Z) : N * Z * string :=
  match s with
  | EmptyString => (acc, cnt, s)
  | String c s' =>
      match digit_of c with
      | Some d => span_digits s' (10 * acc + d)%N (cnt + 1)
      | None => (acc, cnt, s)
      end
  end.

Definition take_sign (s : string) : bool * string :=
  match s with
  | String "-" s' => (true, s')
  | String "+" s' => (false, s')
  | _ => (false, s)
  end.

(** The exponent part, ["E"] sign digits, or nothing. *)
Definition parse_exponent (s : string) : option Z :=
  match s with
  | EmptyString => Some 0
  | String c s' =>
      if Ascii.eqb c "e" || Ascii.eqb c "E" then
        let '(neg, s'') := take_sign s' in
        match span_digits s'' 0%N 0 with
        | (v, cnt, EmptyString) =>
            if 0 <? cnt then Some (if neg then - Z.of_N v else Z.of_N v)
            else None
        | _ => None
        end
      else None
  end.

(** The white space that [str.strip] removes, among the characters
    below code point 256. *)
Definition is_space (c : ascii) : bool :=
  let n := N_of_ascii c in
  (((9 <=? n) && (n <=? 13)) || ((28 <=? n) && (n <=? 32))
   || (n =? 133) || (n =? 160))%N.

Fixpoint lstrip (s : string) : string :=
  match s with
  | String c s' => if is_space c then lstrip s' else s
  | EmptyString => s
  end.

(** Drop trailing white space: [None] stands for "only white space from
    here on". *)
Fixpoint rstrip_aux (s : string) : option string :=
  match s with
  | EmptyString => None
  | String c s' =>
      match rstrip_aux s' with
      | Some t => Some (String c t)
      | None => if is_space c then None else Some (String c EmptyString)
      end
  end.

Definition strip (s : string) : string :=
  match rstrip_aux (lstrip s) with
  | Some t => t
  | None => EmptyString
  end.

Fixpoint drop_underscores (s : string) : string :=
  match s with
  | EmptyString => s
  | String c s' =>
      if Ascii.eqb c "_" then drop_underscores s'
      else String c (drop_underscores s')
  end.

(** [Decimal(s)] for the strings that denote a finite number,
    [sign] digits [. digits] [E [sign] digits]. *)
Definition finite_of_string (neg : bool) (s1 : string) : option Decimal :=
  let '(ip, icnt, s2) := span_digits s1 0%N 0 in
  let '(c, fcnt, s3) :=
    match s2 with
    | String "." s' => span_digits s' ip 0
    | _ => (ip, 0, s2)
    end in
  if 0 <? icnt + fcnt then
    match parse_exponent s3 with
    | Some e => Some (mkDec neg c (e - fcnt))
    | None => None
    end
  else None.

Definition lower (c : ascii) : ascii :=
  let n := N_of_ascii c in
  if ((65 <=? n) && (n <=? 90))%N then ascii_of_N (n + 32) else c.

Fixpoint lowercase (s : string) : string :=
  match s with
  | EmptyString => s
  | String c s' => String (lower c) (lowercase s')
  end.

(** The diagnostic digits that end the literal of a NaN. *)
Definition payload_of (s : string) : option N :=
  match span_digits s 0%N 0 with
  | (v, _, EmptyString) => Some v
  | _ => None
  end.

(** The literals of the special values, letter case ignored:
    [Inf], [Infinity], [NaN] digits, [sNaN] digits. *)
Definition special_of_string (neg : bool) (s : string) : option special :=
  match lowercase s with
  | "inf" | "infinity" => Some (Inf neg)
  | String "n" (String "a" (String "n" digits)) =>
      option_map (Nan neg false) (payload_of digits)
  | String "s" (String "n" (String "a" (String "n" digits))) =>
      option_map (Nan neg true) (payload_of digits)
  | _ => None
  end.

(** A [Decimal]: a finite number or a special value. *)
Inductive number : Set :=
| Finite (d : Decimal)
| Special (s : special).

(** [Decimal(s)] for a string: white space around it is stripped and
    underscores are dropped; what is neither a numeric string nor the
    literal of a special value is a conversion syntax error. *)
Definition of_string (s : string) : result number :=
  let '(neg, s1) := take_sign (drop_underscores (strip s)) in
  match finite_of_string neg s1 with
  | Some d => Ok (Finite d)
  | None =>
      match special_of_string neg s1 with
      | Some sp => Ok (Special sp)
      | None => Raise (DecimalException InvalidOperation)
      end
  end.

(** ** Floats *)

Fixpoint trailing_zero_bits (m : positive) : Z :=
  match m with
  | xO m' => 1 + trailing_zero_bits m'
  | _ => 0
  end.

(** [Decimal(f)] for a float: the exact value of the double,
    [n * 5^k * 10^(-k)] for the ratio [n / 2^k] in lowest terms. *)
Definition of_float (f : SpecFloat.spec_float) : number :=
  match f with
  | SpecFloat.S754_nan => Special (Nan false false 0)
  | SpecFloat.S754_infinity sign => Special (Inf sign)
  | SpecFloat.S754_zero sign => Finite (mkDec sign 0 0)
  | SpecFloat.S754_finite sign m e =>
      if 0 <=? e then Finite (mkDec sign (Z.to_N (Zpos m * 2 ^ e)) 0)
      else
        let t := Z.min (trailing_zero_bits m) (- e) in
        let k := - e - t in
        Finite (mkDec sign (Z.to_N (Zpos m / 2 ^ t * 5 ^ k)) (- k))
  end.

(** ** Arithmetic with special values *)

Definition invalid_operation {A} : result A :=
  Raise (DecimalException InvalidOperation).

Definition sign_of (a : number) : bool :=
  match a with
  | Finite d => dsign d
  | Special (Inf sign) => sign
  | Special (Nan sign _ _) => sign
  end.

Definition is_zero (a : number) : bool :=
  match a with
  | Finite d => (dcoeff d =? 0)%N
  | Special _ => false
  end.

Definition is_infinite (a : number) : bool :=
  match a with
  | Special (Inf _) => true
  | _ => false
  end.

(** [Decimal._fix_nan]: the diagnostic digits are cut to the precision. *)
Definition fix_nan (ctx : Context) (sign signaling : bool) (payload : N)
    : special :=
  Nan sign signaling (Z.to_N (Z.of_N payload mod 10 ^ Zpos (prec ctx))).

(** [Decimal._check_nans]: a signaling NaN among the operands is an
    invalid operation, a quiet one is the result; [None] when neither
    operand is a NaN. *)
Definition check_nans (ctx : Context) (a b : number)
    : option (result number) :=
  match a, b with
  | Special (Nan _ true _), _ => Some invalid_operation
  | _, Special (Nan _ true _) => Some invalid_operation
  | Special (Nan sign false payload), _ =>
      Some (Ok (Special (fix_nan ctx sign false payload)))
  | _, Special (Nan sign false payload) =>
      Some (Ok (Special (fix_nan ctx sign false payload)))
  | _, _ => None
  end.

(** [a * b] *)
Definition number_mul (ctx : Context) (a b : number) : result number :=
  match a, b with
  | Finite x, Finite y => d <- mul ctx x y ;; Ok (Finite d)
  | _, _ =>
      match check_nans ctx a b with
      | Some r => r
      | None =>
          if is_zero a || is_zero b then invalid_operation
          else Ok (Special (Inf (xorb (sign_of a) (sign_of b))))
      end
  end.

(** [a / b]; a finite number over an infinity is a zero at the lowest
    exponent. *)
Definition number_div (ctx : Context) (a b : number) : result number :=
  match a, b with
  | Finite x, Finite y => d <- div ctx x y ;; Ok (Finite d)
  | _, _ =>
      match check_nans ctx a b with
      | Some r => r
      | None =>
          let sign := xorb (sign_of a) (sign_of b) in
          if is_infinite a && is_infinite b then invalid_operation
          else if is_infinite a then Ok (Special (Inf sign))
          else Ok (Finite (mkDec sign 0 (Etiny ctx)))
      end
  end.

(** [a + b] *)
Definition number_add (ctx : Context) (a b : number) : result number :=
  match a, b with
  | Finite x, Finite y => d <- add ctx x y ;; Ok (Finite d)
  | _, _ =>
      match check_nans ctx a b with
      | Some r => r
      | None =>
          if is_infinite a then
            if is_infinite b && negb (Bool.eqb (sign_of a) (sign_of b))
            then invalid_operation
            else Ok a
          else Ok b
      end
  end.

Definition number_neg (a : number) : number :=
  match a with
  | Finite d => Finite (neg d)
  | Special (Inf sign) => Special (Inf (negb sign))
  | Special (Nan sign signaling payload) =>
      Special (Nan (negb sign) signaling payload)
  end.

(** [a - b]: the NaNs are looked at first, then [a + (-b)]. *)
Definition number_sub (ctx : Context) (a b : number) : result number :=
  match a, b with
  | Finite x, Finite y => d <- sub ctx x y ;; Ok (Finite d)
  | _, _ =>
      match check_nans ctx a b with
      | Some r => r
      | None => number_add ctx a (number_neg b)
      end
  end.

(** [int(a)] *)
Definition number_to_int (a : number) : result Z :=
  match a with
  | Finite d => Ok (to_int d)
  | Special (Nan _ _ _) => Raise ValueError
  | Special (Inf _) => Raise OverflowError
  end.

End Dec.

(* ===================================================================== *)
(** * Python operators on values *)
(* ===================================================================== *)

Module PyOps.

Import Dec.

(** [bool] is a subclass of [int]. *)
Definition as_int (v : pyval) : option Z :=
  match v with
  | PInt z => Some z
  | PBool b => Some (if b then 1 else 0)
  | _ => None
  end.

(** The coefficient that a sequence of digits stands for; what is no
    integer from 0 to 9 is refused. *)
Fixpoint sequence_digits (items : list pyval) (acc : N) : result N :=
  match items with
  | [] => Ok acc
  | item :: items' =>
      match as_int item with
      | Some z =>
          if (0 <=? z) && (z <=? 9)
          then sequence_digits items' (10 * acc + Z.to_N z)%N
          else Raise ValueError
      | None => Raise ValueError
      end
  end.

(** [Decimal(value)] for a list: the triple of a sign (0 or 1), a list
    of digits and an exponent, where the exponents ["F"], ["n"] and
    ["N"] stand for an infinity, a NaN and a signaling NaN.  Every
    malformed triple is a [ValueError], as in the implementation of the
    module that Python loads by default. *)
Definition of_sequence (value : list pyval) : result number :=
  match value with
  | [sign; digits; exponent] =>
      match match as_int sign with
            | Some 0 => Some false
            | Some 1 => Some true
            | _ => None
            end,
            digits with
      | Some sign, PList items =>
          coeff <- sequence_digits items 0%N ;;
          match exponent with
          | PStr "F" => Ok (Special (Inf sign))
          | PStr "n" => Ok (Special (Nan sign false coeff))
          | PStr "N" => Ok (Special (Nan sign true coeff))
          | _ =>
              match as_int exponent with
              | Some e => Ok (Finite (mkDec sign coeff e))
              | None => Raise ValueError
              end
          end
      | _, _ => Raise ValueError
      end
  | _ => Raise ValueError
  end.

(** [Decimal(x)]: exact, whatever the context. *)
Definition Decimal_of (v : pyval) : result number :=
  match v with
  | PInt z => Ok (Finite (of_int z))
  | PBool b => Ok (Finite (of_int (if b then 1 else 0)))
  | PFloat f => Ok (of_float f)
  | PDec d => Ok (Finite d)
  | PSpecial s => Ok (Special s)
  | PStr s => of_string s
  | PList value => of_sequence value
  | PNone | PEmpty | PDict _ =>
      Raise (TypeError "conversion to Decimal is not supported")
  end.

(** A [Decimal] as a value. *)
Definition of_number (a : number) : pyval :=
  match a with
  | Finite d => PDec d
  | Special s => PSpecial s
  end.

(** The operands a [Decimal] operator accepts on its other side:
    [Decimal]s and integers, no floats. *)
Definition convert_other (v : pyval) : option number :=
  match v with
  | PDec d => Some (Finite d)
  | PSpecial s => Some (Special s)
  | _ => option_map (fun z => Finite (of_int z)) (as_int v)
  end.

Definition unsupported {A} : result A :=
  Raise (TypeError "unsupported operand type(s)").

(** [d * v] and [d / v] for a [Decimal] [d] *)
Definition dec_times (ctx : Context) (d : number) (v : pyval) : result number :=
  match convert_other v with
  | Some k => number_mul ctx d k
  | None => unsupported
  end.

Definition dec_over (ctx : Context) (d : number) (v : pyval) : result number :=
  match convert_other v with
  | Some k => number_div ctx d k
  | None => unsupported
  end.

(** [float(n)] for an integer: the nearest double, ties to even. *)
Definition float_of_int (z : Z) : result SpecFloat.spec_float :=
  match SpecFloat.binary_normalize 53 1024 z 0 false with
  | SpecFloat.S754_infinity _ => Raise OverflowError
  | f => Ok f
  end.

(** The operands a [float] operator accepts: floats and integers. *)
Definition float_operand (v : pyval) : option (result SpecFloat.spec_float) :=
  match v with
  | PFloat f => Some (Ok f)
  | _ => option_map float_of_int (as_int v)
  end.

Definition is_float (v : pyval) : bool :=
  match v with PFloat _ => true | _ => false end.

(** An operator of [float], applied when one of the operands is one. *)
Definition float_op
    (op : SpecFloat.spec_float -> SpecFloat.spec_float -> SpecFloat.spec_float)
    (a b : pyval) : result pyval :=
  match float_operand a, float_operand b with
  | Some x, Some y => x <- x ;; y <- y ;; Ok (PFloat (op x y))
  | _, _ => unsupported
  end.

(** [a + b] *)
Definition py_add (ctx : Context) (a b : pyval) : result pyval :=
  match as_int a, as_int b with
  | Some x, Some y => Ok (PInt (x + y))
  | _, _ =>
      match a, b with
      | PStr s, PStr t => Ok (PStr (String.append s t))
      | PList l, PList m => Ok (PList (l ++ m))
      | _, _ =>
          if is_float a || is_float b
          then float_op (SpecFloat.SFadd 53 1024) a b
          else
            match convert_other a, convert_other b with
            | Some x, Some y => d <- number_add ctx x y ;; Ok (of_number d)
            | _, _ => unsupported
            end
      end
  end.

(** [a - b] *)
Definition py_sub (ctx : Context) (a b : pyval) : result pyval :=
  match as_int a, as_int b with
  | Some x, Some y => Ok (PInt (x - y))
  | _, _ =>
      if is_float a || is_float b
      then float_op (SpecFloat.SFsub 53 1024) a b
      else
        match convert_other a, convert_other b with
        | Some x, Some y => d <- number_sub ctx x y ;; Ok (of_number d)
        | _, _ => unsupported
        end
  end.

End PyOps.

(* ===================================================================== *)
(** * IntegerField: the transforms *)
(* ===================================================================== *)

Module IntegerField.

Import Dec PyOps.

(** [IntegerField.multiply(operand, value, reverse, precision)].  [ctx] is
    the context current when the call is made; [localcontext()] works on
    a copy of it. *)
Definition multiply (ctx : Context) (operand value : pyval)
    (reverse : bool) (precision : option positive) : result pyval :=
  let ctx := with_prec ctx precision in
  operand <- Decimal_of operand ;;
  if reverse then
    q <- dec_over ctx operand value ;; Ok (of_number q)
  else
    m <- dec_times ctx operand value ;;
    n <- number_to_int m ;;
    Ok (PInt n).

(** [IntegerField.add(operand, value, reverse)] *)
Definition add (ctx : Context) (operand value : pyval) (reverse : bool)
    : result pyval :=
  if negb reverse then py_add ctx operand value else py_sub ctx operand value.

(** [IntegerField.subtract(operand, value, reverse)] *)
Definition subtract (ctx : Context) (operand value : pyval) (reverse : bool)
    : result pyval :=
  if negb reverse then py_sub ctx operand value else py_add ctx operand value.

End IntegerField.

(* ===================================================================== *)
(** * BaseSerializableField *)
(* ===================================================================== *)

Module Field.

Import Dec PyOps.

(** The keyword arguments a transform is called with; [None] is "not
    passed". *)
Record call_kw : Set :=
  mkKw { kw_reverse : option bool; kw_precision : option (option positive) }.

Definition no_kw : call_kw := mkKw None None.

(** What [listen_for_transformations] can put into the pipeline: a
    callable attribute of the class of the field.  For [IntegerField]
    these are its three static methods ([divide] is listed but not
    defined by the class); for any class, every other callable attribute
    counts as well ([bind], [fail], ...), given here by what a call of
    it with the operand, the parameter and the keyword arguments does. *)
Inductive transform : Type :=
| Multiply
| Add
| Subtract
| Attribute (f : pyval -> pyval -> call_kw -> result pyval).

Definition unexpected_precision {A} : result A :=
  Raise (TypeError "got an unexpected keyword argument 'precision'").

(** Calling one of the static methods; [add] and [subtract] have no
    [precision] parameter. *)
Definition call_method (ctx : Context) (t : transform)
    (operand value : pyval) (kw : call_kw) : result pyval :=
  let reverse := match kw_reverse kw with Some r => r | None => false end in
  match t with
  | Multiply =>
      IntegerField.multiply ctx operand value reverse
        (match kw_precision kw with Some p => p | None => None end)
  | Add =>
      match kw_precision kw with
      | Some _ => unexpected_precision
      | None => IntegerField.add ctx operand value reverse
      end
  | Subtract =>
      match kw_precision kw with
      | Some _ => unexpected_precision
      | None => IntegerField.subtract ctx operand value reverse
      end
  | Attribute f => f operand value kw
  end.

(** What an export override is made of: one of the transforms, or any
    other two-argument function. *)
Inductive callable : Type :=
| Method (t : transform)
| Function (f : pyval -> pyval -> result pyval).

(** The call [transform_override(result, param)] *)
Definition call (ctx : Context) (c : callable) (operand value : pyval)
    : result pyval :=
  match c with
  | Method t => call_method ctx t operand value no_kw
  | Function f => f operand value
  end.

(** The object given as [export], seen through what the class does
    with it: [callable(o)], its truth value, and the (transform, operand)
    pairs that iterating over it gives, [None] when it cannot be
    iterated.  The three are independent: an object can be callable and
    iterable at once. *)
Record export_obj : Type := mkExport {
  is_callable : bool;
  export_truthy : bool;
  export_pairs : option (list (callable * pyval))
}.

(** A list or a tuple of pairs: not callable, false when empty. *)
Definition Pairs (l : list (callable * pyval)) : export_obj :=
  mkExport false (match l with [] => false | _ => true end) (Some l).

(** A function: callable, true, and not iterable. *)
Definition Callable (f : pyval -> result pyval) : export_obj :=
  mkExport true true None.

(** The framework class mixed in with [BaseSerializableField]: its
    constructor (given the names of the keyword arguments passed on) and
    its two conversions. *)
Record Framework : Type := mkFramework {
  fw_init : list string -> result unit;
  fw_to_internal_value : pyval -> result pyval;
  fw_to_representation : pyval -> result pyval
}.

(** The attributes of a constructed field. *)
Record t : Type := mkField {
  key : option string;
  precision : option positive;
  export_formatter : option (pyval -> result pyval);
  export_override : option export_obj;
  import_methods : list (transform * pyval);
  base : Framework
}.

(** ** Import *)

(** [result.get(step)]: only a mapping has [get]. *)
Definition get_step (result : pyval) (step : string) : Py.result pyval :=
  match result with
  | PDict d => Ok (dict_get step PNone d)
  | _ => Raise AttributeError
  end.

(** [for step in key.split('.'): result = result.get(step)] *)
Fixpoint walk (steps : list string) (result : pyval) : Py.result pyval :=
  match steps with
  | [] => Ok result
  | step :: steps' => r <- get_step result step ;; walk steps' r
  end.

(** [for transform_method, param in self.import_methods: ...] with the
    keyword arguments [kw] *)
Fixpoint run_methods (ctx : Context) (kw : call_kw)
    (methods : list (transform * pyval)) (result : pyval) : Py.result pyval :=
  match methods with
  | [] => Ok result
  | (transform_method, param) :: rest =>
      r <- call_method ctx transform_method result param kw ;;
      run_methods ctx kw rest r
  end.

(** [BaseSerializableField.to_internal_value] *)
Definition to_internal_value (ctx : Context) (self : t) (data : pyval)
    : result pyval :=
  r1 <- match key self, data with
        | Some k, PDict _ => walk (split "." k) data
        | _, _ => Ok data
        end ;;
  r2 <- run_methods ctx (mkKw None (Some (precision self)))
          (import_methods self) r1 ;;
  fw_to_internal_value (base self) r2.

(** ** Export *)

(** [for transform_override, param in self.export_override: ...] *)
Fixpoint run_override (ctx : Context) (l : list (callable * pyval))
    (result : pyval) : Py.result pyval :=
  match l with
  | [] => Ok result
  | (transform_override, param) :: rest =>
      r <- call ctx transform_override result param ;;
      run_override ctx rest r
  end.

Definition not_iterable {A} : result A :=
  Raise (TypeError "object is not iterable").

(** [BaseSerializableField.to_representation] *)
Definition to_representation (ctx : Context) (self : t) (obj : pyval)
    : result pyval :=
  r0 <- fw_to_representation (base self) obj ;;
  r1 <- match export_override self with
        | Some o =>
            if export_truthy o then
              match export_pairs o with
              | Some l => run_override ctx l r0
              | None => not_iterable
              end
            else run_methods ctx (mkKw (Some true) None) (import_methods self) r0
        | None =>
            run_methods ctx (mkKw (Some true) None) (import_methods self) r0
        end ;;
  match export_formatter self with
  | Some formatter => formatter r1
  | None => Ok r1
  end.

(** ** Construction *)

(** The keyword arguments of the constructor: the ones the class reads
    itself, and the others by name ([multiply=100], [required=False]).
    The names [key], [precision], [export_formatter] and [export] do not
    occur among the others, and are taken to name no transformation. *)
Record Kwargs : Type := mkKwargs {
  kwargs_precision : option positive;
  kwargs_export_formatter : option (pyval -> result pyval);
  kwargs_export : option export_obj;
  kwargs_other : list (string * pyval)
}.

(** The class of the field, as [listen_for_transformations] sees it:
    [getattr(self.__class__, name)] where [name] is an attribute of the
    class and callable, [None] otherwise. *)
Definition class_attrs : Type := string -> option transform.

Definition has_key (name : string) (kw : list (string * pyval)) : bool :=
  match dict_lookup name kw with Some _ => true | None => false end.

Fixpoint dict_pop (name : string) (kw : list (string * pyval))
    : list (string * pyval) :=
  match kw with
  | [] => []
  | (k, v) :: kw' =>
      if String.eqb name k then kw' else (k, v) :: dict_pop name kw'
  end.

(** [listen_for_transformations]: the loop over the names, in the order
    [names] in which the set intersection is enumerated. *)
Fixpoint listen (cls : class_attrs) (names : list string)
    (methods : list (transform * pyval)) (kw : list (string * pyval))
    : list (transform * pyval) * list (string * pyval) :=
  match names with
  | [] => (methods, kw)
  | import_method :: names' =>
      match cls import_method, dict_lookup import_method kw with
      | Some method, Some params =>
          listen cls names' (methods ++ [(method, params)])
                 (dict_pop import_method kw)
      | _, _ => listen cls names' methods kw
      end
  end.

(** [set(transformation_list).intersection(kwargs.keys())], enumerated
    in the order the runtime picks: [set_iter] permutes the names in a
    way the language leaves open. *)
Definition listen_for_transformations
    (set_iter : list string -> list string) (cls : class_attrs)
    (transformation_list : list string) (kw : list (string * pyval))
    : list (transform * pyval) * list (string * pyval) :=
  listen cls
    (set_iter (filter (fun n => has_key n kw) (nodup string_dec transformation_list)))
    [] kw.

(** [BaseSerializableField.__init__(key, transformations, **kwargs)] for
    a class with the callable attributes [cls] and the mixed-in framework
    class [fw]; [transformations] is a list of names or [None]. *)
Definition init (set_iter : list string -> list string) (cls : class_attrs)
    (fw : Framework) (key : option string)
    (transformations : option (list string)) (kwargs : Kwargs) : result t :=
  let '(methods, other) :=
    match transformations with
    | Some l => listen_for_transformations set_iter cls l (kwargs_other kwargs)
    | None => ([], kwargs_other kwargs)
    end in
  _ <- match kwargs_export kwargs with
       | Some o =>
           if is_callable o then Ok tt
           else Raise (TypeError "export must be a callable")
       | None => Ok tt
       end ;;
  _ <- fw_init fw (map fst other
                   ++ match kwargs_export kwargs with
                      | Some _ => ["export"]
                      | None => []
                      end) ;;
  Ok {| key := key;
        precision := kwargs_precision kwargs;
        export_formatter := kwargs_export_formatter kwargs;
        export_override := kwargs_export kwargs;
        import_methods := methods;
        base := fw |}.

End Field.

Module IntegerFieldInit.

(** [IntegerField.__init__]: the transformations the field listens for. *)
Definition transformations : list string :=
  ["multiply"; "divide"; "add"; "subtract"].

(** The class [IntegerField] at the names it listens for: [multiply],
    [add] and [subtract] are its static methods, [divide] is commented
    out and no attribute of the framework class either.  The constructor
    looks up no other name. *)
Definition class_method : Field.class_attrs :=
  fun name =>
    if String.eqb name "multiply" then Some Field.Multiply
    else if String.eqb name "add" then Some Field.Add
    else if String.eqb name "subtract" then Some Field.Subtract
    else None.

(** [IntegerField.__init__(key, **kwargs)].  It passes [transformations]
    on by keyword, so a [transformations] keyword of the caller makes
    the call of the base constructor fail. *)
Definition init (set_iter : list string -> list string) (fw : Field.Framework)
    (key : option string) (kwargs : Field.Kwargs) : result Field.t :=
  if Field.has_key "transformations" (Field.kwargs_other kwargs)
  then Raise (TypeError "got multiple values for keyword argument 'transformations'")
  else Field.init set_iter class_method fw key (Some transformations) kwargs.

End IntegerFieldInit.

(* ===================================================================== *)
(** * BindableListSerializer *)
(* ===================================================================== *)

(** The data of the model are JSON-like values, never HTML form input, so
    [is_html_input] is false throughout.  Next to the value it returns or
    the exception it raises, an import reports the arguments its child was
    run on, in order: this is what "attempted" refers to. *)

Module BindableListSerializer.

Record t : Type := mkList {
  child_run_validation : pyval -> result pyval;
  allow_empty : bool;
  msg_not_a_list : string -> string;   (* error_messages['not_a_list'] *)
  msg_empty : string;                  (* error_messages['empty'] *)
  NON_FIELD_ERRORS_KEY : string        (* api_settings.NON_FIELD_ERRORS_KEY *)
}.

(** The locals of the loop, and the items the child was run on. *)
Record state : Type := mkState {
  ret : list pyval;
  errors : list pyval;
  attempted : list pyval
}.

Inductive step_result : Type :=
| Next (st : state)
| Stop (e : exn) (st : state).

(** One iteration of [for item in data]. *)
Definition item_step (self : t) (st : state) (item : pyval) : step_result :=
  let tried := attempted st ++ [item] in
  match child_run_validation self item with
  | Raise (ValidationError d) =>
      Next (mkState (ret st) (errors st ++ [detail_val d]) tried)
  | Raise e => Stop e (mkState (ret st) (errors st) tried)
  | Ok validated =>
      Next (mkState (ret st ++ [validated]) (errors st ++ [PDict []]) tried)
  end.

Fixpoint run_items (self : t) (st : state) (data : list pyval) : step_result :=
  match data with
  | [] => Next st
  | item :: data' =>
      match item_step self st item with
      | Next st' => run_items self st' data'
      | Stop e st' => Stop e st'
      end
  end.

Definition non_field_error (self : t) (message : string) : exn :=
  ValidationError (DetailDict [(NON_FIELD_ERRORS_KEY self, PList [PStr message])]).

(** [BindableListSerializer.to_internal_value], with the items attempted. *)
Definition to_internal_value_traced (self : t) (data : pyval)
    : result pyval * list pyval :=
  match data with
  | PList items =>
      if negb (allow_empty self) && (List.length items =? 0)%nat then
        (Raise (non_field_error self (msg_empty self)), [])
      else
        match run_items self (mkState [] [] []) items with
        | Stop e st => (Raise e, attempted st)
        | Next st =>
            if existsb truthy (errors st)
            then (Raise (ValidationError (DetailList (errors st))), attempted st)
            else (Ok (PList (ret st)), attempted st)
        end
  | _ =>
      (Raise (non_field_error self (msg_not_a_list self (type_name data))), [])
  end.

Definition to_internal_value (self : t) (data : pyval) : result pyval :=
  fst (to_internal_value_traced self data).

End BindableListSerializer.

(* ===================================================================== *)
(** * BindableModelSerializer *)
(* ===================================================================== *)

Module BindableModelSerializer.

(** A writable field as the record import sees it.  [key] is [None] both
    for a field whose key is [None] and for one without the attribute.
    Every writable field is a framework [Field], so the instance test
    guarding the walk along the key always holds. *)
Record BoundField : Type := mkBound {
  field_name : string;
  key : option string;
  source_attrs : list string;
  run_validation : pyval -> result pyval
}.

Record t : Type := mkRecord {
  writable_fields : list BoundField;
  (** [getattr(self, 'validate_' + name, None)] *)
  validate_method : string -> option (pyval -> result pyval);
  msg_invalid : string -> string;      (* error_messages['invalid'] *)
  NON_FIELD_ERRORS_KEY : string
}.

(** [Field.get_value] of the framework, on a mapping. *)
Definition get_value (field : BoundField) (dictionary : dict) : pyval :=
  dict_get (field_name field) PEmpty dictionary.

(** [set_value] of the framework: store [value] under the path [keys],
    creating the mappings on the way; with no keys, merge [value] (a
    mapping) into the dictionary. *)
Fixpoint set_value (dictionary : dict) (keys : list string) (value : pyval)
    : result dict :=
  match keys with
  | [] =>
      match value with
      | PDict m => Ok (dict_update dictionary m)
      | _ => Raise (TypeError "object is not a mapping")
      end
  | k :: keys' =>
      match keys' with
      | [] => Ok (dict_set k value dictionary)
      | _ =>
          match dict_get k (PDict []) dictionary with
          | PDict sub =>
              sub' <- set_value sub keys' value ;;
              Ok (dict_set k (PDict sub') dictionary)
          | _ => Raise (TypeError "object does not support item assignment")
          end
      end
  end.

(** [result.get(step, {})]: only a mapping has [get]. *)
Definition get_step (result : pyval) (step : string) : Py.result pyval :=
  match result with
  | PDict d => Ok (dict_get step (PDict []) d)
  | _ => Raise AttributeError
  end.

Fixpoint walk (steps : list string) (result : pyval) : Py.result pyval :=
  match steps with
  | [] => Ok result
  | step :: steps' => r <- get_step result step ;; walk steps' r
  end.

(** The primitive value extracted for a field with key [k]: walk the
    key, wrap what is no mapping under the field's name, look the field
    up. *)
Definition extract (field : BoundField) (k : string) (data : dict)
    : result pyval :=
  result <- walk (split "." k) (PDict data) ;;
  let result :=
    match result with
    | PDict d => d
    | _ => [(field_name field, result)]
    end in
  Ok (get_value field result).

(** The locals that live across iterations ([primitive_value] is unbound
    until a keyed field binds it), and the calls of [run_validation]
    made so far. *)
Record state : Type := mkState {
  ret : dict;
  errors : dict;
  primitive_value : option pyval;
  attempted : list (string * pyval)
}.

Inductive step_result : Type :=
| Next (st : state)
| Stop (e : exn) (st : state).

(** The body of the [try] statement, run on [primitive_value] [pv]. *)
Definition try_body (self : t) (field : BoundField) (pv : pyval)
    : result pyval :=
  validated_value <- run_validation field pv ;;
  match validate_method self (field_name field) with
  | Some validate_method => validate_method validated_value
  | None => Ok validated_value
  end.

(** The [try] statement of the loop body with its [except] and [else]
    clauses. *)
Definition validate (self : t) (field : BoundField) (pv : pyval) (st : state)
    : step_result :=
  let st := mkState (ret st) (errors st) (primitive_value st)
                    (attempted st ++ [(field_name field, pv)]) in
  match try_body self field pv with
  | Raise (ValidationError d) =>
      Next (mkState (ret st) (dict_set (field_name field) (detail_val d) (errors st))
                    (primitive_value st) (attempted st))
  | Raise (DjangoValidationError messages) =>
      Next (mkState (ret st)
                    (dict_set (field_name field) (PList (map PStr messages)) (errors st))
                    (primitive_value st) (attempted st))
  | Raise SkipField => Next st
  | Raise e => Stop e st
  | Ok validated_value =>
      match set_value (ret st) (source_attrs field) validated_value with
      | Ok ret' => Next (mkState ret' (errors st) (primitive_value st) (attempted st))
      | Raise e => Stop e st
      end
  end.

(** One iteration of [for field in fields]. *)
Definition field_step (self : t) (data : dict) (st : state) (field : BoundField)
    : step_result :=
  let bound :=
    match key field with
    | Some k =>
        pv <- extract field k data ;;
        Ok (mkState (ret st) (errors st) (Some pv) (attempted st))
    | None => Ok st
    end in
  match bound with
  | Raise e => Stop e st
  | Ok st =>
      match primitive_value st with
      | None => Stop UnboundLocalError st
      | Some pv => validate self field pv st
      end
  end.

Fixpoint run_fields (self : t) (data : dict) (st : state)
    (fields : list BoundField) : step_result :=
  match fields with
  | [] => Next st
  | field :: fields' =>
      match field_step self data st field with
      | Next st' => run_fields self data st' fields'
      | Stop e st' => Stop e st'
      end
  end.

Definition non_field_error (self : t) (message : string) : exn :=
  ValidationError (DetailDict [(NON_FIELD_ERRORS_KEY self, PList [PStr message])]).

Definition initial : state := mkState [] [] None [].

(** [BindableModelSerializer.to_internal_value], with the calls of
    [run_validation] made. *)
Definition to_internal_value_traced (self : t) (data : pyval)
    : result pyval * list (string * pyval) :=
  match data with
  | PDict d =>
      match run_fields self d initial (writable_fields self) with
      | Stop e st => (Raise e, attempted st)
      | Next st =>
          match errors st with
          | [] => (Ok (PDict (ret st)), attempted st)
          | _ => (Raise (ValidationError (DetailDict (errors st))), attempted st)
          end
      end
  | _ => (Raise (non_field_error self (msg_invalid self (type_name data))), [])
  end.

Definition to_internal_value (self : t) (data : pyval) : result pyval :=
  fst (to_internal_value_traced self data).

End BindableModelSerializer.

(* ===================================================================== *)
(** * Notions used to state the properties *)
(* ===================================================================== *)

Module Notions.

Import Dec PyOps.

(** The inverse of a pipeline step: the transform called with
    [reverse=True]. *)
Definition inv (ctx : Context) (step : Field.transform * pyval) (x : pyval)
    : result pyval :=
  Field.call_method ctx (fst step) x (snd step) (Field.mkKw (Some true) None).

(** [compose_inverted ctx [s1; ...; sn] x] is
    [inv s1 (inv s2 (... (inv sn x)))]: the last step of the list is
    undone first. *)
Definition compose_inverted (ctx : Context)
    (steps : list (Field.transform * pyval)) (x : pyval) : result pyval :=
  fold_right (fun step acc => y <- acc ;; inv ctx step y) (Ok x) steps.

Definition format (self : Field.t) (r : pyval) : result pyval :=
  match Field.export_formatter self with
  | Some formatter => formatter r
  | None => Ok r
  end.

(** Export as the pipeline inverted in reverse declared order. *)
Definition export_reverse_order (ctx : Context) (self : Field.t) (obj : pyval)
    : result pyval :=
  r0 <- Field.fw_to_representation (Field.base self) obj ;;
  r1 <- compose_inverted ctx (Field.import_methods self) r0 ;;
  format self r1.

(** Export as the pipeline inverted in declared order. *)
Definition export_declared_order (ctx : Context) (self : Field.t) (obj : pyval)
    : result pyval :=
  r0 <- Field.fw_to_representation (Field.base self) obj ;;
  r1 <- compose_inverted ctx (rev (Field.import_methods self)) r0 ;;
  format self r1.

(** Export through an override [l = [(t1, k1); ...; (tn, kn)]]:
    [tn (... (t1 x k1) ...) kn]. *)
Definition compose_override (ctx : Context)
    (l : list (Field.callable * pyval)) (x : pyval) : result pyval :=
  fold_right (fun step acc => y <- acc ;; Field.call ctx (fst step) y (snd step))
             (Ok x) (rev l).


(** List import: the child settles an item when it returns or raises a
    validation error; the error slot and the successes of the items. *)
Definition settles (self : BindableListSerializer.t) (item : pyval) : bool :=
  match BindableListSerializer.child_run_validation self item with
  | Ok _ | Raise (ValidationError _) => true
  | Raise _ => false
  end.

Definition slot (self : BindableListSerializer.t) (item : pyval) : pyval :=
  match BindableListSerializer.child_run_validation self item with
  | Raise (ValidationError d) => detail_val d
  | _ => PDict []
  end.

Definition successes (self : BindableListSerializer.t) (items : list pyval)
    : list pyval :=
  flat_map (fun item =>
              match BindableListSerializer.child_run_validation self item with
              | Ok validated => [validated]
              | Raise _ => []
              end) items.

(** Record import: the value extracted for the most recent keyed field
    among [fields], if there is one and its key could be walked. *)
Fixpoint most_recent_keyed (fields : list BindableModelSerializer.BoundField)
    : option (BindableModelSerializer.BoundField * string) :=
  match fields with
  | [] => None
  | field :: fields' =>
      match most_recent_keyed fields' with
      | Some found => Some found
      | None =>
          match BindableModelSerializer.key field with
          | Some k => Some (field, k)
          | None => None
          end
      end
  end.

Definition carried_value (data : dict)
    (fields : list BindableModelSerializer.BoundField) : option pyval :=
  match most_recent_keyed fields with
  | Some (field, k) =>
      match BindableModelSerializer.extract field k data with
      | Ok pv => Some pv
      | Raise _ => None
      end
  | None => None
  end.

(** What the clauses of the [try] statement in the loop body make of
    the outcome [r] of validating [field] on the value [pv] in the state
    [st]: an error entry under the field's name, nothing for a skipped
    field, the value stored under the source attributes, or the
    exception let through. *)
Definition settle (field : BindableModelSerializer.BoundField) (pv : pyval)
    (st : BindableModelSerializer.state) (r : result pyval)
    : BindableModelSerializer.step_result :=
  let name := BindableModelSerializer.field_name field in
  let ret := BindableModelSerializer.ret st in
  let errors := BindableModelSerializer.errors st in
  let primitive := BindableModelSerializer.primitive_value st in
  let attempted := BindableModelSerializer.attempted st ++ [(name, pv)] in
  match r with
  | Ok validated =>
      match BindableModelSerializer.set_value ret
              (BindableModelSerializer.source_attrs field) validated with
      | Ok ret' =>
          BindableModelSerializer.Next
            (BindableModelSerializer.mkState ret' errors primitive attempted)
      | Raise e =>
          BindableModelSerializer.Stop e
            (BindableModelSerializer.mkState ret errors primitive attempted)
      end
  | Raise (ValidationError d) =>
      BindableModelSerializer.Next
        (BindableModelSerializer.mkState ret (dict_set name (detail_val d) errors)
           primitive attempted)
  | Raise (DjangoValidationError messages) =>
      BindableModelSerializer.Next
        (BindableModelSerializer.mkState ret
           (dict_set name (PList (map PStr messages)) errors)
           primitive attempted)
  | Raise SkipField =>
      BindableModelSerializer.Next
        (BindableModelSerializer.mkState ret errors primitive attempted)
  | Raise e =>
      BindableModelSerializer.Stop e
        (BindableModelSerializer.mkState ret errors primitive attempted)
  end.

(** The record's own hook [validate_<name>], applied to a validated
    value when the record defines one. *)
Definition hooked (self : BindableModelSerializer.t)
    (field : BindableModelSerializer.BoundField) (r : result pyval)
    : result pyval :=
  validated <- r ;;
  match BindableModelSerializer.validate_method self
          (BindableModelSerializer.field_name field) with
  | Some hook => hook validated
  | None => Ok validated
  end.

(** A keyed field whose key can be walked: the value extracted for it
    and what the [try] body makes of that value. *)
Definition keyed_outcome (self : BindableModelSerializer.t) (data : dict)
    (field : BindableModelSerializer.BoundField)
    : option (pyval * result pyval) :=
  match BindableModelSerializer.key field with
  | Some k =>
      match BindableModelSerializer.extract field k data with
      | Ok pv => Some (pv, BindableModelSerializer.try_body self field pv)
      | Raise _ => None
      end
  | None => None
  end.

(** The field has a key that can be walked, is stored under a single
    name, and its validation returns, fails or skips. *)
Definition well_behaved (self : BindableModelSerializer.t) (data : dict)
    (field : BindableModelSerializer.BoundField) : bool :=
  match keyed_outcome self data field,
        BindableModelSerializer.source_attrs field with
  | Some (_, r), [_] =>
      match r with
      | Ok _ | Raise (ValidationError _) | Raise (DjangoValidationError _)
      | Raise SkipField => true
      | Raise _ => false
      end
  | _, _ => false
  end.

Definition failed (self : BindableModelSerializer.t) (data : dict)
    (field : BindableModelSerializer.BoundField) : bool :=
  match keyed_outcome self data field with
  | Some (_, Raise (ValidationError _))
  | Some (_, Raise (DjangoValidationError _)) => true
  | _ => false
  end.

Definition is_mapping (v : pyval) : bool :=
  match v with PDict _ => true | _ => false end.

Definition is_list (v : pyval) : bool :=
  match v with PList _ => true | _ => false end.

(** The coefficient [c] at the exponent [e] is the integer [a]:
    [c * 10^e = a], written without negative powers. *)
Definition represents (c e a : Z) : Prop :=
  c * 10 ^ Z.max e 0 = a * 10 ^ Z.max (- e) 0.

(** The exact value of [d] times [k] is the integer [v]. *)
Definition product_is (d k : Decimal) (v : Z) : Prop :=
  represents (signed d * signed k) (dexp d + dexp k) v.

(** [y] is [x] rounded to nearest: [y] has the exponent of [x] or a
    higher one, and differs from [x] by at most half a unit of its own
    last place. *)
Definition nearest (x y : Decimal) : Prop :=
  dexp x <= dexp y
  /\ 2 * Z.abs (cz y * 10 ^ (dexp y - dexp x) - cz x)
     <= 10 ^ (dexp y - dexp x).

(** The exact product of two decimals. *)
Definition exact_product (d k : Decimal) : Decimal :=
  mkDec (xorb (dsign d) (dsign k)) (dcoeff d * dcoeff k) (dexp d + dexp k).

(** [z] is [m] cut off at the decimal point: same sign, and
    [|z| <= |m| < |z| + 1]. *)
Definition truncates (m : Decimal) (z : Z) : Prop :=
  (if dsign m then z <= 0 else 0 <= z)
  /\ Z.abs z * 10 ^ Z.max (- dexp m) 0 <= cz m * 10 ^ Z.max (dexp m) 0
     < (Z.abs z + 1) * 10 ^ Z.max (- dexp m) 0.

(** [q] is the quotient of [a] by [b] to within one unit of its last
    place: [|q * b - a| <= |b| * 10^(dexp q)], written without negative
    powers. *)
Definition within_ulp (a b q : Decimal) : Prop :=
  let g := dexp q + dexp b - dexp a in
  Z.abs (cz q * cz b * 10 ^ Z.max g 0 - cz a * 10 ^ Z.max (- g) 0)
  <= cz b * 10 ^ Z.max g 0.

(** The quotient [q] of [v] by the factor [k] is exact: [q * k = v]. *)
Definition quotient_exact (q : Decimal) (k : pyval) (v : Z) : Prop :=
  match convert_other k with
  | Some (Finite d) => product_is q d v
  | _ => False
  end.

(** A positive integer that a context can hold exactly: at most [prec]
    significant digits, and below [10^(Emax+1)]. *)
Definition fits (ctx : Context) (a : Z) : Prop :=
  (exists w t, 0 <= t /\ 0 < w < 10 ^ Zpos (prec ctx) /\ a = w * 10 ^ t)
  /\ a < 10 ^ (Emax ctx + 1).

(** The exponent limits of a context leave room for the integers: this
    holds for every context the [decimal] module lets one build. *)
Definition integer_range (ctx : Context) : Prop :=
  Emin ctx <= 0 <= Emax ctx.

(** ** Concrete fields and bindings used in the examples *)

(** A framework class that converts nothing and accepts any keyword. *)
Definition plain : Field.Framework :=
  Field.mkFramework (fun _ => Ok tt) (fun v => Ok v) (fun v => Ok v).

Definition field_with (key : option string)
    (methods : list (Field.transform * pyval)) : Field.t :=
  Field.mkField key None None None methods plain.

(** [{"a": {"b": {"c": 5}}}] *)
Definition nested : pyval :=
  PDict [("a", PDict [("b", PDict [("c", PInt 5)])])].

(** A bound field that accepts integers and refuses the rest. *)
Definition int_field (name : string) (key : option string)
    : BindableModelSerializer.BoundField :=
  BindableModelSerializer.mkBound name key [name]
    (fun v => match v with
              | PInt _ => Ok v
              | _ => Raise (ValidationError
                              (DetailList [PStr "A valid integer is required."]))
              end).

Definition record_of (fields : list BindableModelSerializer.BoundField)
    : BindableModelSerializer.t :=
  BindableModelSerializer.mkRecord fields (fun _ => None)
    (fun datatype => String.append "Invalid data. Expected a dictionary, but got "
                                   datatype)
    "non_field_errors".

Definition list_of (child : pyval -> result pyval) (allow_empty : bool)
    : BindableListSerializer.t :=
  BindableListSerializer.mkList child allow_empty
    (fun input_type => String.append "Expected a list of items but got type "
                                     input_type)
    "This list may not be empty." "non_field_errors".

(** A child that accepts a mapping whose ["age"] is an integer. *)
Definition age_child (item : pyval) : result pyval :=
  match item with
  | PDict d =>
      match dict_get "age" PEmpty d with
      | PInt n => Ok (PDict [("age", PInt n)])
      | _ => Raise (ValidationError
                      (DetailDict [("age", PList [PStr "A valid integer is required."])]))
      end
  | _ => Raise (ValidationError
                  (DetailDict [("non_field_errors", PList [PStr "Invalid data."])]))
  end.

End Notions.

(* ===================================================================== *)
(** * Binding, construction of the other classes, and "many" mode *)
(* ===================================================================== *)

Module CharFieldInit.

Definition not_iterable {A} : result A :=
  Raise (TypeError "object is not iterable").

Definition unhashable {A} : result A :=
  Raise (TypeError "unhashable type").

(** The strings among the members of [set(items)]; a list, a mapping
    or a signaling NaN among the items cannot be hashed.  Members that
    are no strings equal no keyword and are left out. *)
Fixpoint hashed_names (items : list pyval) : result (list string) :=
  match items with
  | [] => Ok []
  | item :: items' =>
      match item with
      | PList _ | PDict _ | PSpecial (Nan _ true _) => unhashable
      | PStr name => names <- hashed_names items' ;; Ok (name :: names)
      | _ => hashed_names items'
      end
  end.

Fixpoint characters (s : string) : list string :=
  match s with
  | EmptyString => []
  | String c s' => String c EmptyString :: characters s'
  end.

(** The object bound to the parameter [transformations] of the base
    constructor, as that constructor uses it: [None], or the names that
    [set(transformations)] holds. *)
Definition transformations_of (v : pyval) : result (option (list string)) :=
  match v with
  | PNone => Ok None
  | PList items => names <- hashed_names items ;; Ok (Some names)
  | PStr s => Ok (Some (characters s))
  | PDict m => Ok (Some (map fst m))
  | _ => not_iterable
  end.

(** [CharField.__init__(key, **kwargs)]: [trim_whitespace] is forced to
    [False] and the base constructor is called with [key] and the
    keywords.  The class names no transformations itself, but a
    [transformations] keyword of the caller binds the parameter of the
    base constructor.  [cls] gives the callable attributes of the
    class. *)
Definition init (set_iter : list string -> list string)
    (cls : Field.class_attrs) (fw : Field.Framework)
    (key : option string) (kwargs : Field.Kwargs) : result Field.t :=
  let other :=
    dict_set "trim_whitespace" (PBool false) (Field.kwargs_other kwargs) in
  transformations <- transformations_of (dict_get "transformations" PNone other) ;;
  Field.init set_iter cls fw key transformations
    (Field.mkKwargs (Field.kwargs_precision kwargs)
                    (Field.kwargs_export_formatter kwargs)
                    (Field.kwargs_export kwargs)
                    (Field.dict_pop "transformations" other)).

End CharFieldInit.

Module Binding.

(** The classes of the module.  [IntegerField], [CharField] and
    [BindableModelSerializer] define [bind]; the others inherit the
    framework's. *)
Inductive field_class : Set :=
| IntegerFieldC
| CharFieldC
| BooleanFieldC
| SerializerMethodFieldC
| ListFieldC
| DateTimeFieldC
| BindableListSerializerC
| BindableModelSerializerC.

Definition overrides_bind (c : field_class) : bool :=
  match c with
  | IntegerFieldC | CharFieldC | BindableModelSerializerC => true
  | _ => false
  end.

(** A field after [bind]: what the record import sees of it, and the
    [original_field_name] attribute when [bind] has set it. *)
Record bound : Type := mkBinding {
  field : BindableModelSerializer.BoundField;
  original_field_name : option string
}.

(** [bind(field_name, parent)].  The framework's [bind] stores
    [field_name] and computes [source_attrs] (given here); the classes
    that define [bind] then put a non-empty [key] that differs from the
    name in the place of [field_name]. *)
Definition bind (c : field_class) (key : option string)
    (source_attrs : list string) (run_validation : pyval -> result pyval)
    (field_name : string) : bound :=
  let rebound :=
    match key with
    | Some k =>
        if overrides_bind c && negb (String.eqb k "")
           && negb (String.eqb k field_name)
        then Some k else None
    | None => None
    end in
  match rebound with
  | Some k =>
      mkBinding (BindableModelSerializer.mkBound k key source_attrs run_validation)
                (Some field_name)
  | None =>
      mkBinding (BindableModelSerializer.mkBound field_name key source_attrs
                   run_validation)
                None
  end.

End Binding.

Module ManyInit.

(** The constructor of [BindableListSerializer] and of
    [BindableModelSerializer], [__init__(self, key=None, **kwargs)]: the
    key is bound from the arguments and the other keyword arguments are
    passed on to the constructor of the framework class, [fw_init],
    which may refuse them.  The result is the key and the keyword
    arguments passed on. *)
Definition bindable_init (fw_init : dict -> result unit) (args : list pyval)
    (kwargs : dict) : result (pyval * dict) :=
  bound <- match args with
           | [] => Ok (dict_get "key" PNone kwargs, Field.dict_pop "key" kwargs)
           | [k] =>
               if Field.has_key "key" kwargs
               then Raise (TypeError "got multiple values for argument 'key'")
               else Ok (k, kwargs)
           | _ => Raise (TypeError "takes from 1 to 2 positional arguments")
           end ;;
  _ <- fw_init (snd bound) ;;
  Ok bound.

(** [BindableModelSerializer.many_init], called with the positional
    arguments [args] and the keyword arguments [kwargs], for the
    framework's tuple [LIST_SERIALIZER_KWARGS].  [child_class] is the
    call of [cls] with the keyword arguments; [list_class] is the call of the class found
    through [Meta.list_serializer_class], [BindableListSerializer] by
    default, with the positional arguments, the child and the other
    keyword arguments. *)
Definition many_init {C L : Type} (LIST_SERIALIZER_KWARGS : list string)
    (child_class : dict -> result C)
    (list_class : list pyval -> C -> dict -> result L)
    (args : list pyval) (kwargs : dict) : result L :=
  let allow_empty := dict_get "allow_empty" PNone kwargs in
  let kwargs := Field.dict_pop "allow_empty" kwargs in
  child_serializer <- child_class kwargs ;;
  let list_kwargs :=
    match allow_empty with
    | PNone => []
    | _ => [("allow_empty", allow_empty)]
    end in
  let list_kwargs :=
    dict_update list_kwargs
      (filter (fun kv => existsb (String.eqb (fst kv)) LIST_SERIALIZER_KWARGS)
              kwargs) in
  list_class args child_serializer list_kwargs.

(** What [many_init] builds from the two classes of the module: the
    child and the list serializer around it. *)
Record built : Type := mkBuilt {
  child_key : pyval;
  child_kwargs : dict;
  list_key : pyval;
  list_kwargs : dict
}.

(** A call of [BindableModelSerializer] with keyword arguments that
    runs its constructor.  (The framework's [__new__] hands a call with
    a true [many] keyword over to [many_init] instead.) *)
Definition model_serializer (fw_init : dict -> result unit) (kwargs : dict)
    : result (pyval * dict) :=
  bindable_init fw_init [] kwargs.

(** The same for [BindableListSerializer], called with positional
    arguments, the child and keyword arguments; the constructor of the
    framework class is given the child as well. *)
Definition list_serializer (fw_init : pyval * dict -> dict -> result unit)
    (args : list pyval) (child : pyval * dict) (kwargs : dict) : result built :=
  lst <- bindable_init (fw_init child) args kwargs ;;
  Ok (mkBuilt (fst child) (snd child) (fst lst) (snd lst)).

(** [many_init] on [BindableModelSerializer] itself, with no [Meta]. *)
Definition default_many_init (LIST_SERIALIZER_KWARGS : list string)
    (fw_child : dict -> result unit)
    (fw_list : pyval * dict -> dict -> result unit)
    (args : list pyval) (kwargs : dict) : result built :=
  many_init LIST_SERIALIZER_KWARGS (model_serializer fw_child)
    (list_serializer fw_list) args kwargs.

End ManyInit.

(* ===================================================================== *)
(** * Further notions *)
(* ===================================================================== *)

Module Paths.

(** [v] is the value found in [data] along the path [steps], every
    segment present. *)
Inductive at_path : list string -> pyval -> pyval -> Prop :=
| at_here (v : pyval) : at_path [] v v
| at_step (step : string) (steps : list string) (d : dict) (x v : pyval) :
    dict_lookup step d = Some x ->
    at_path steps x v ->
    at_path (step :: steps) (PDict d) v.

Definition is_dict (v : pyval) : bool :=
  match v with PDict _ => true | _ => false end.

End Paths.

Module MoreNotions.

Import Dec PyOps.

Definition is_offset (t : Field.transform) : bool :=
  match t with
  | Field.Add | Field.Subtract => true
  | Field.Multiply | Field.Attribute _ => false
  end.

(** What a pipeline of integer offsets adds on import, if it is one. *)
Fixpoint net_offset (steps : list (Field.transform * pyval)) : option Z :=
  match steps with
  | [] => Some 0
  | (Field.Add, PInt k) :: rest => option_map (Z.add k) (net_offset rest)
  | (Field.Subtract, PInt k) :: rest =>
      option_map (fun n => n - k) (net_offset rest)
  | _ => None
  end.

(** The framework constructor refuses every call that passes [name]. *)
Definition rejects (fw : Field.Framework) (name : string) : Prop :=
  forall names, In name names -> exists e, Field.fw_init fw names = Raise e.

(** A framework class whose constructor knows the keywords [allowed]
    and refuses all others; it converts nothing. *)
Definition strict (allowed : list string) : Field.Framework :=
  Field.mkFramework
    (fun names =>
       if forallb (fun n => existsb (String.eqb n) allowed) names
       then Ok tt
       else Raise (TypeError "got an unexpected keyword argument"))
    (fun v => Ok v) (fun v => Ok v).

(** The step that the keyword [name] stands for in a class with the
    callable attributes [cls], if it is given and names one. *)
Definition step_of (cls : Field.class_attrs) (name : string)
    (kw : list (string * pyval)) : list (Field.transform * pyval) :=
  match cls name, dict_lookup name kw with
  | Some method, Some params => [(method, params)]
  | _, _ => []
  end.

(** What the [try] body of the record import makes of a field is a
    validated value, an error for the error map, or nothing. *)
Definition error_of (r : result pyval) : option pyval :=
  match r with
  | Raise (ValidationError d) => Some (detail_val d)
  | Raise (DjangoValidationError messages) => Some (PList (map PStr messages))
  | _ => None
  end.

Definition value_of (r : result pyval) : option pyval :=
  match r with
  | Ok v => Some v
  | Raise _ => None
  end.

(** The entries a well-behaved field adds to the error map and to the
    returned mapping. *)
Definition error_entry (self : BindableModelSerializer.t) (data : dict)
    (f : BindableModelSerializer.BoundField) : list (string * pyval) :=
  match Notions.keyed_outcome self data f with
  | Some (_, r) =>
      match error_of r with
      | Some e => [(BindableModelSerializer.field_name f, e)]
      | None => []
      end
  | None => []
  end.

Definition value_entry (self : BindableModelSerializer.t) (data : dict)
    (f : BindableModelSerializer.BoundField) : list (string * pyval) :=
  match Notions.keyed_outcome self data f,
        BindableModelSerializer.source_attrs f with
  | Some (_, r), [name] =>
      match value_of r with
      | Some v => [(name, v)]
      | None => []
      end
  | _, _ => []
  end.

(** The value a field was run on, for the trace. *)
Definition attempt (self : BindableModelSerializer.t) (data : dict)
    (f : BindableModelSerializer.BoundField) : list (string * pyval) :=
  match Notions.keyed_outcome self data f with
  | Some (pv, _) => [(BindableModelSerializer.field_name f, pv)]
  | None => []
  end.

Definition is_validation_error (e : exn) : bool :=
  match e with
  | ValidationError _ => true
  | _ => false
  end.

(** The name a field with a single source attribute is stored under. *)
Definition source_name (f : BindableModelSerializer.BoundField) : string :=
  match BindableModelSerializer.source_attrs f with
  | [name] => name
  | _ => ""
  end.

(** What the record import makes of the outcome [r] of its only field,
    whose errors go under [error_name] and whose value goes under
    [value_name]. *)
Definition single_field_result (error_name value_name : string)
    (r : result pyval) : result pyval :=
  match r with
  | Ok x => Ok (PDict [(value_name, x)])
  | Raise (ValidationError d) =>
      Raise (ValidationError (DetailDict [(error_name, detail_val d)]))
  | Raise (DjangoValidationError messages) =>
      Raise (ValidationError
               (DetailDict [(error_name, PList (map PStr messages))]))
  | Raise SkipField => Ok (PDict [])
  | Raise e => Raise e
  end.

(** The same field with no key: it takes the data as the value. *)
Definition without_key (self : Field.t) : Field.t :=
  Field.mkField None (Field.precision self) (Field.export_formatter self)
                (Field.export_override self) (Field.import_methods self)
                (Field.base self).

End MoreNotions.

(* ===================================================================== *)
(** * The model at work *)
(* ===================================================================== *)

Example ndigits_1234 : Dec.ndigits 1234 = 4.
Proof. reflexivity. Qed.

Example of_string_price :
  Dec.of_string "12.34" = Ok (Dec.Finite (mkDec false 1234 (-2))).
Proof. reflexivity. Qed.

Example of_string_special :
  Dec.of_string " -Infinity" = Ok (Dec.Special (Inf true))
  /\ Dec.of_string "sNaN012" = Ok (Dec.Special (Nan false true 12))
  /\ Dec.of_string "nano" = Raise (DecimalException InvalidOperation).
Proof. repeat split. Qed.

(** The double nearest to 0.1 is a little above it. *)
Example of_float_tenth :
  Dec.of_float (SpecFloat.S754_finite false 7205759403792794 (-56))
  = Dec.Finite
      (mkDec false 1000000000000000055511151231257827021181583404541015625
             (-55)).
Proof. vm_compute. reflexivity. Qed.

Example div_third :
  Dec.div Dec.DefaultContext (Dec.of_int 1) (Dec.of_int 3)
  = Ok (mkDec false 3333333333333333333333333333 (-28)).
Proof. vm_compute. reflexivity. Qed.

Example div_exact :
  Dec.div Dec.DefaultContext (Dec.of_int 1234) (Dec.of_int 100)
  = Ok (mkDec false 1234 (-2)).
Proof. vm_compute. reflexivity. Qed.

Example mul_prec2 :
  Dec.mul (Dec.with_prec Dec.DefaultContext (Some 2%positive))
          (Dec.of_int 15) (Dec.of_int 7)
  = Ok (mkDec false 10 1).
Proof. vm_compute. reflexivity. Qed.

Example multiply_price :
  IntegerField.multiply Dec.DefaultContext (PStr "12.34") (PInt 100) false None
  = Ok (PInt 1234).
Proof. vm_compute. reflexivity. Qed.

Example multiply_truncates :
  IntegerField.multiply Dec.DefaultContext (PStr "0.19") (PInt 10) false None
  = Ok (PInt 1).
Proof. vm_compute. reflexivity. Qed.

Example multiply_reverse_fraction :
  IntegerField.multiply Dec.DefaultContext (PInt 5) (PInt 2) true None
  = Ok (PDec (mkDec false 25 (-1))).
Proof. vm_compute. reflexivity. Qed.

(** The float 12.34 is a little below 12.34: scaled by 100 it becomes
    1233. *)
Example multiply_float_price :
  IntegerField.multiply Dec.DefaultContext
    (PFloat (SpecFloat.S754_finite false 6946802425218990 (-49))) (PInt 100)
    false None
  = Ok (PInt 1233).
Proof. vm_compute. reflexivity. Qed.

(** A NaN goes through the division and stops the conversion to an
    integer. *)
Example multiply_nan :
  IntegerField.multiply Dec.DefaultContext (PStr "NaN") (PInt 100) true None
  = Ok (PSpecial (Nan false false 0))
  /\ IntegerField.multiply Dec.DefaultContext (PStr "NaN") (PInt 100) false None
     = Raise ValueError
  /\ IntegerField.multiply Dec.DefaultContext (PStr "Infinity") (PInt 100)
       false None
     = Raise OverflowError.
Proof. repeat split. Qed.

(** 0.1 + 0.2 - 0.2 on floats is not 0.1. *)
Example add_floats :
  (r <- IntegerField.add Dec.DefaultContext
          (PFloat (SpecFloat.S754_finite false 7205759403792794 (-56)))
          (PFloat (SpecFloat.S754_finite false 7205759403792794 (-55))) false ;;
   IntegerField.add Dec.DefaultContext r
     (PFloat (SpecFloat.S754_finite false 7205759403792794 (-55))) true)
  = Ok (PFloat (SpecFloat.S754_finite false 7205759403792796 (-56))).
Proof. vm_compute. reflexivity. Qed.

(* ===================================================================== *)
(** * Properties of the list and record imports *)
(* ===================================================================== *)

Import Notions.

Section ListImport.

Import BindableListSerializer.

Variable self : BindableListSerializer.t.

(** The loop appends, per item and in order, either a success and an
    empty slot or a failure detail. *)
Lemma run_items_settled (items : list pyval) (st : state) :
  forallb (settles self) items = true ->
  run_items self st items
  = Next (mkState (ret st ++ successes self items)
                  (errors st ++ map (slot self) items)
                  (attempted st ++ items)).
Proof.
  revert st.
  induction items as [|item items IH]; intros st Hall; simpl.
  - now rewrite !app_nil_r; destruct st.
  - simpl in Hall. apply andb_prop in Hall as [Hitem Hrest].
    unfold item_step, settles, slot in *.
    destruct (child_run_validation self item) as [validated|e].
    + rewrite IH by assumption. simpl. now rewrite <- !app_assoc.
    + destruct e; try discriminate.
      rewrite IH by assumption. simpl. now rewrite <- !app_assoc.
Qed.



(** An item that raises something other than a validation error stops
    the import with that exception. *)
Lemma run_items_stop (items : list pyval) (st : state) :
  forallb (settles self) items = false ->
  exists e st', run_items self st items = Stop e st'.
Proof.
  revert st.
  induction items as [|item items IH]; intros st Hall; simpl in *;
    [discriminate|].
  unfold item_step, settles in *.
  destruct (child_run_validation self item) as [validated|e]; simpl in Hall.
  - apply IH, Hall.
  - destruct e; simpl in Hall; eauto.
Qed.

End ListImport.

Section RecordImport.

Import BindableModelSerializer.

Variable self : BindableModelSerializer.t.
Variable data : dict.

Lemma run_fields_app (pre post : list BoundField) (st : state) :
  run_fields self data st (pre ++ post)
  = match run_fields self data st pre with
    | Next st' => run_fields self data st' post
    | Stop e st' => Stop e st'
    end.
Proof.
  revert st.
  induction pre as [|field pre IH]; intros st; simpl; [reflexivity|].
  destruct (field_step self data st field); [apply IH | reflexivity].
Qed.

(** Validation leaves [primitive_value] as it is. *)
Lemma validate_primitive (field : BoundField) (pv : pyval) (st st' : state) :
  validate self field pv st = Next st' ->
  primitive_value st' = primitive_value st.
Proof.
  unfold validate. simpl.
  destruct (try_body _ _ _) as [validated|[]]; try discriminate;
    try (intros [= <-]; reflexivity).
  destruct (set_value _ _ _); [|discriminate].
  intros [= <-]. reflexivity.
Qed.

(** A keyed field binds [primitive_value] to what [extract] finds; a
    keyless field leaves it alone. *)
Lemma field_step_primitive (field : BoundField) (st st' : state) :
  field_step self data st field = Next st' ->
  match key field with
  | Some k => exists pv, extract field k data = Ok pv
                         /\ primitive_value st' = Some pv
  | None => primitive_value st' = primitive_value st
  end.
Proof.
  unfold field_step.
  destruct (key field) as [k|].
  - destruct (extract field k data) as [pv|e]; simpl; [|discriminate].
    intros H. apply validate_primitive in H. simpl in H. eauto.
  - destruct (primitive_value st) as [pv|] eqn:Hpv; [|discriminate].
    intros H. apply validate_primitive in H. congruence.
Qed.

(** After a run over [pre], [primitive_value] is what was extracted for
    the most recent keyed field of [pre]. *)
Lemma run_fields_primitive (pre : list BoundField) (st0 st : state) :
  run_fields self data st0 pre = Next st ->
  match most_recent_keyed pre with
  | Some (field, k) => exists pv, extract field k data = Ok pv
                                  /\ primitive_value st = Some pv
  | None => primitive_value st = primitive_value st0
  end.
Proof.
  revert st0.
  induction pre as [|field pre IH]; intros st0; simpl.
  - now intros [= <-].
  - destruct (field_step self data st0 field) as [st1|] eqn:Hstep; [|discriminate].
    intros Hrun. specialize (IH _ Hrun).
    destruct (most_recent_keyed pre) as [[g k]|]; [exact IH|].
    apply field_step_primitive in Hstep.
    destruct (key field) as [k|].
    + destruct Hstep as (pv & Hex & Hpv). exists pv. split; congruence.
    + congruence.
Qed.

(** While no field has a key, [primitive_value] stays unbound and the
    first field stops the import. *)
Lemma first_keyless_stops (field : BoundField) (rest : list BoundField) :
  key field = None ->
  run_fields self data initial (field :: rest) = Stop UnboundLocalError initial.
Proof.
  intros Hkey. simpl. unfold field_step. now rewrite Hkey.
Qed.

End RecordImport.



(** C9.  Shape errors are raised at once: a record import of something
    that is no mapping, a list import of something that is no list, and a
    list import of the empty list when [allow_empty] is false each raise
    the non-field error, and no field or item has been attempted. *)
Theorem shape_errors_immediate (r : BindableModelSerializer.t)
    (l : BindableListSerializer.t) (data : pyval) :
  (is_mapping data = false ->
     BindableModelSerializer.to_internal_value_traced r data
     = (Raise (BindableModelSerializer.non_field_error r
                 (BindableModelSerializer.msg_invalid r (type_name data))), []))
  /\ (is_list data = false ->
     BindableListSerializer.to_internal_value_traced l data
     = (Raise (BindableListSerializer.non_field_error l
                 (BindableListSerializer.msg_not_a_list l (type_name data))), []))
  /\ (data = PList [] -> BindableListSerializer.allow_empty l = false ->
     BindableListSerializer.to_internal_value_traced l data
     = (Raise (BindableListSerializer.non_field_error l
                 (BindableListSerializer.msg_empty l)), [])).
Proof.
  repeat split.
  - destruct data; simpl; try reflexivity; discriminate.
  - destruct data; simpl; try reflexivity; discriminate.
  - intros -> Hempty. unfold BindableListSerializer.to_internal_value_traced.
    now rewrite Hempty.
Qed.

Lemma shape_errors_immediate_witness :
  BindableModelSerializer.to_internal_value_traced
    (record_of [int_field "age" (Some "age")]) (PList [])
  = (Raise (ValidationError (DetailDict
       [("non_field_errors",
         PList [PStr "Invalid data. Expected a dictionary, but got list"])])), [])
  /\ BindableListSerializer.to_internal_value_traced
       (list_of age_child false) (PInt 3)
     = (Raise (ValidationError (DetailDict
          [("non_field_errors",
            PList [PStr "Expected a list of items but got type int"])])), [])
  /\ BindableListSerializer.to_internal_value_traced
       (list_of age_child false) (PList [])
     = (Raise (ValidationError (DetailDict
          [("non_field_errors", PList [PStr "This list may not be empty."])])), []).
Proof.
  split; [|split].
  - apply (shape_errors_immediate (record_of [int_field "age" (Some "age")])
             (list_of age_child false) (PList [])). reflexivity.
  - apply (shape_errors_immediate (record_of [int_field "age" (Some "age")])
             (list_of age_child false) (PInt 3)). reflexivity.
  - apply (shape_errors_immediate (record_of [int_field "age" (Some "age")])
             (list_of age_child false) (PList [])); reflexivity.
Defined.

Lemma dict_set_keys (k : string) (v : pyval) (d : dict) (name : string) :
  In name (map fst (dict_set k v d)) <-> name = k \/ In name (map fst d).
Proof.
  induction d as [|[k' v'] d IH]; simpl.
  - intuition.
  - destruct (String.eqb k k') eqn:Hk; simpl.
    + apply String.eqb_eq in Hk. subst k'. intuition.
    + rewrite IH. intuition.
Qed.

(** Away from keyless fields the record import does collect: when every
    writable field is well behaved, every field is attempted in
    declaration order, the call fails with an error map that has exactly
    the names of the failed fields if some field failed, and returns a
    mapping otherwise. *)
Lemma run_fields_well_behaved (self : BindableModelSerializer.t) (data : dict)
    (fields : list BindableModelSerializer.BoundField)
    (st : BindableModelSerializer.state) :
  forallb (well_behaved self data) fields = true ->
  exists st',
    BindableModelSerializer.run_fields self data st fields
    = BindableModelSerializer.Next st'
    /\ map fst (BindableModelSerializer.attempted st')
       = map fst (BindableModelSerializer.attempted st)
         ++ map BindableModelSerializer.field_name fields
    /\ (forall name,
          In name (map fst (BindableModelSerializer.errors st'))
          <-> In name (map fst (BindableModelSerializer.errors st))
              \/ exists f, In f fields /\ failed self data f = true
                           /\ BindableModelSerializer.field_name f = name).
Proof.
  revert st.
  induction fields as [|field fields IH]; intros st Hall.
  - exists st. simpl. rewrite app_nil_r. repeat split; try tauto.
    intros [H | (f & [] & _)]. exact H.
  - simpl in Hall. apply andb_prop in Hall as [Hfield Hrest].
    unfold well_behaved, failed, keyed_outcome in *.
    simpl. unfold BindableModelSerializer.field_step.
    destruct (BindableModelSerializer.key field) as [k|] eqn:Hkey; [|discriminate].
    destruct (BindableModelSerializer.extract field k data) as [pv|] eqn:Hex;
      [|discriminate]. simpl.
    destruct (BindableModelSerializer.source_attrs field) as [|a [|]] eqn:Hsrc;
      try discriminate.
    unfold BindableModelSerializer.validate. simpl. rewrite Hsrc.
    destruct (BindableModelSerializer.try_body self field pv) as [v|[]] eqn:Htry;
      try discriminate; simpl;
      (edestruct IH as (st' & Hrun & Hatt & Herr); [exact Hrest|]);
      exists st'; (split; [exact Hrun|]); simpl in Hatt, Herr;
      (split; [rewrite Hatt, map_app, <- app_assoc; reflexivity|]);
      intros name; rewrite Herr, ?dict_set_keys; split.
    (* the field validated: it adds no error *)
    + intros [H | (f & Hin & Hf & Hname)]; [now left|]. right. exists f. auto.
    + intros [H | (f & [<- | Hin] & Hf & Hname)]; [now left | |].
      * rewrite Hkey, Hex, Htry in Hf. discriminate.
      * right. exists f. auto.
    (* it raised a validation error: its name enters the error map *)
    + intros [[-> | H] | (f & Hin & Hf & Hname)]; [ | now left | ].
      * right. exists field. rewrite Hkey, Hex, Htry. auto.
      * right. exists f. auto.
    + intros [H | (f & [<- | Hin] & Hf & Hname)]; [tauto | |].
      * left. left. now symmetry.
      * right. exists f. auto.
    (* the same for a validation error of Django *)
    + intros [[-> | H] | (f & Hin & Hf & Hname)]; [ | now left | ].
      * right. exists field. rewrite Hkey, Hex, Htry. auto.
      * right. exists f. auto.
    + intros [H | (f & [<- | Hin] & Hf & Hname)]; [tauto | |].
      * left. left. now symmetry.
      * right. exists f. auto.
    (* it was skipped: no error *)
    + intros [H | (f & Hin & Hf & Hname)]; [now left|]. right. exists f. auto.
    + intros [H | (f & [<- | Hin] & Hf & Hname)]; [now left | |].
      * rewrite Hkey, Hex, Htry in Hf. discriminate.
      * right. exists f. auto.
Qed.

Lemma record_import_well_behaved (self : BindableModelSerializer.t)
    (data : dict) :
  let fields := BindableModelSerializer.writable_fields self in
  let r := BindableModelSerializer.to_internal_value_traced self (PDict data) in
  forallb (well_behaved self data) fields = true ->
  map fst (snd r) = map BindableModelSerializer.field_name fields
  /\ (existsb (failed self data) fields = true ->
      exists errs,
        fst r = Raise (ValidationError (DetailDict errs))
        /\ forall name,
             In name (map fst errs)
             <-> exists f, In f fields /\ failed self data f = true
                           /\ BindableModelSerializer.field_name f = name)
  /\ (existsb (failed self data) fields = false ->
      exists ret, fst r = Ok (PDict ret)).
Proof.
  intros fields r Hall. subst r.
  unfold BindableModelSerializer.to_internal_value_traced. fold fields.
  destruct (run_fields_well_behaved self data fields
              BindableModelSerializer.initial Hall)
    as (st & -> & Hatt & Herr).
  simpl in Hatt, Herr.
  assert (Hnames : forall name,
             In name (map fst (BindableModelSerializer.errors st))
             <-> exists f, In f fields /\ failed self data f = true
                           /\ BindableModelSerializer.field_name f = name).
  { intros name. rewrite Herr. tauto. }
  destruct (BindableModelSerializer.errors st) as [|[k v] errs] eqn:Herrs;
    simpl; (split; [exact Hatt|]); split.
  - intros Hsome. apply existsb_exists in Hsome as (f & Hin & Hf).
    exfalso. apply (proj2 (Hnames (BindableModelSerializer.field_name f))).
    exists f. auto.
  - eauto.
  - intros _. eexists. split; [reflexivity | exact Hnames].
  - intros Hnone. exfalso.
    destruct (proj1 (Hnames k) (or_introl eq_refl)) as (f & Hin & Hf & _).
    assert (existsb (failed self data) fields = true)
      by (apply existsb_exists; eauto).
    congruence.
Qed.

(** C2, at a record whose only field has no key: the import of the
    mapping [{"age": 1}] neither returns a mapping nor fails with an
    error map; it raises [UnboundLocalError] before the field is
    attempted. *)
Theorem record_import_keyless_field_crashes :
  BindableModelSerializer.to_internal_value_traced
    (record_of [int_field "age" None]) (PDict [("age", PInt 1)])
  = (Raise UnboundLocalError, []).
Proof. reflexivity. Qed.

(** C10.  In a record import of a mapping, [primitive_value] is bound
    only by fields that have a key.  When the first writable field has
    none, the import raises [UnboundLocalError], no field attempted.  A
    later keyless field, reached after the fields [pre], has its
    [run_validation] called on the value [pv] extracted for the most
    recent keyed field of [pre], whatever the mapping holds under its
    own name: the import goes on with what the clauses of the loop body
    make of the outcome of [run_validation field pv], passed through the
    record's hook. *)
Theorem keyless_fields_reuse_primitive (self : BindableModelSerializer.t)
    (data : dict) :
  (forall field rest,
      BindableModelSerializer.writable_fields self = field :: rest ->
      BindableModelSerializer.key field = None ->
      BindableModelSerializer.to_internal_value_traced self (PDict data)
      = (Raise UnboundLocalError, []))
  /\ (forall pre field post st,
      BindableModelSerializer.writable_fields self = pre ++ field :: post ->
      pre <> [] ->
      BindableModelSerializer.key field = None ->
      BindableModelSerializer.run_fields self data
        BindableModelSerializer.initial pre = BindableModelSerializer.Next st ->
      exists pv,
        carried_value data pre = Some pv
        /\ BindableModelSerializer.run_fields self data
             BindableModelSerializer.initial
             (BindableModelSerializer.writable_fields self)
           = match settle field pv st
                     (hooked self field
                        (BindableModelSerializer.run_validation field pv)) with
             | BindableModelSerializer.Next st' =>
                 BindableModelSerializer.run_fields self data st' post
             | BindableModelSerializer.Stop e st' =>
                 BindableModelSerializer.Stop e st'
             end).
Proof.
  split.
  - intros field rest Hfields Hkey.
    unfold BindableModelSerializer.to_internal_value_traced.
    now rewrite Hfields, first_keyless_stops.
  - intros pre field post st Hfields Hpre Hkey Hrun.
    pose proof (run_fields_primitive self data pre _ _ Hrun) as Hprim.
    assert (Hsome : exists pv, carried_value data pre = Some pv
                               /\ BindableModelSerializer.primitive_value st = Some pv).
    { unfold carried_value.
      destruct (most_recent_keyed pre) as [[g k]|] eqn:Hrecent.
      - destruct Hprim as (pv & Hex & Hpv). exists pv. now rewrite Hex.
      - (* no keyed field among [pre]: the run cannot have got through *)
        exfalso. destruct pre as [|f pre']; [congruence|].
        assert (Hf : BindableModelSerializer.key f = None).
        { simpl in Hrecent.
          destruct (most_recent_keyed pre'); [discriminate|].
          now destruct (BindableModelSerializer.key f). }
        now rewrite first_keyless_stops in Hrun. }
    destruct Hsome as (pv & Hcarried & Hpv).
    exists pv. split; [assumption|].
    rewrite Hfields, run_fields_app, Hrun. simpl.
    unfold BindableModelSerializer.field_step. rewrite Hkey, Hpv.
    replace (BindableModelSerializer.validate self field pv st)
      with (settle field pv st
              (hooked self field
                 (BindableModelSerializer.run_validation field pv)));
      [reflexivity|].
    unfold settle, hooked, BindableModelSerializer.validate,
      BindableModelSerializer.try_body.
    simpl.
    destruct (BindableModelSerializer.run_validation field pv) as [v|[]];
      reflexivity.
Qed.

(** With fields [age] (keyed) and [size] (keyless), the import of
    [{"age": 1, "size": "big"}] validates the age a second time, as the
    size, and stores it: ["big"], which the field would refuse, is never
    looked at. *)
Lemma keyless_fields_reuse_primitive_witness :
  BindableModelSerializer.to_internal_value_traced
    (record_of [int_field "size" None]) (PDict [("size", PInt 7)])
  = (Raise UnboundLocalError, [])
  /\ BindableModelSerializer.run_fields
       (record_of [int_field "age" (Some "age"); int_field "size" None])
       [("age", PInt 1); ("size", PStr "big")]
       BindableModelSerializer.initial
       [int_field "age" (Some "age"); int_field "size" None]
     = BindableModelSerializer.Next
         (BindableModelSerializer.mkState
            [("age", PInt 1); ("size", PInt 1)] [] (Some (PInt 1))
            [("age", PInt 1); ("size", PInt 1)]).
Proof.
  split.
  - apply (keyless_fields_reuse_primitive
             (record_of [int_field "size" None]) [("size", PInt 7)])
      with (field := int_field "size" None) (rest := []); reflexivity.
  - destruct (keyless_fields_reuse_primitive
                (record_of [int_field "age" (Some "age"); int_field "size" None])
                [("age", PInt 1); ("size", PStr "big")]) as [_ H].
    destruct (H [int_field "age" (Some "age")] (int_field "size" None) []
                (BindableModelSerializer.mkState [("age", PInt 1)] []
                   (Some (PInt 1)) [("age", PInt 1)]))
      as (pv & Hcarried & Hrun);
      [reflexivity | discriminate | reflexivity | reflexivity |].
    injection Hcarried as <-. exact Hrun.
Defined.

(* ===================================================================== *)
(** * Properties of a field *)
(* ===================================================================== *)

Section FieldProperties.

Import Dec PyOps Field.

Variable ctx : Context.

(** The walk of a field along ["a.b.c"] finds the value at the path. *)
Lemma walk_finds_value :
  Field.to_internal_value ctx (field_with (Some "a.b.c") []) nested
  = Ok (PInt 5).
Proof. reflexivity. Qed.

(** In a record import the same paths are walked with [{}] as default:
    a missing segment yields the [empty] sentinel. *)
Lemma extract_missing_segment :
  BindableModelSerializer.extract (int_field "c" (Some "a.x.c")) "a.x.c"
    [("a", PDict [("b", PDict [("c", PInt 5)])])]
  = Ok PEmpty.
Proof. reflexivity. Qed.

Lemma extract_finds_value :
  BindableModelSerializer.extract (int_field "c" (Some "a.b.c")) "a.b.c"
    [("a", PDict [("b", PDict [("c", PInt 5)])])]
  = Ok (PInt 5).
Proof. reflexivity. Qed.

(** Once a step has raised, the steps after it are not run. *)
Lemma fold_bind_raise {S} (f : S -> pyval -> result pyval) (e : exn)
    (l : list S) :
  fold_right (fun step acc => y <- acc ;; f step y) (Raise e) l = Raise e.
Proof.
  induction l as [|s l IH]; simpl; [reflexivity|]. now rewrite IH.
Qed.

Lemma fold_bind_last {S} (f : S -> pyval -> result pyval) (s : S)
    (l : list S) (x : pyval) :
  fold_right (fun step acc => y <- acc ;; f step y) (Ok x) (l ++ [s])
  = (y <- f s x ;; fold_right (fun step acc => y <- acc ;; f step y) (Ok y) l).
Proof.
  rewrite fold_right_app. simpl.
  destruct (f s x) as [y|e]; simpl; [reflexivity|]. apply fold_bind_raise.
Qed.

(** [run_methods] with [reverse=True] undoes the steps in the order of
    the list. *)
Lemma run_methods_reverse (methods : list (transform * pyval)) (x : pyval) :
  run_methods ctx (mkKw (Some true) None) methods x
  = compose_inverted ctx (rev methods) x.
Proof.
  revert x.
  induction methods as [|[t param] methods IH]; intros x; simpl; [reflexivity|].
  unfold compose_inverted.
  rewrite (fold_bind_last (inv ctx)). unfold inv at 1. simpl.
  destruct (call_method ctx t x param _) as [y|e]; simpl; [apply IH | reflexivity].
Qed.

Lemma run_override_declared (l : list (callable * pyval)) (x : pyval) :
  run_override ctx l x = compose_override ctx l x.
Proof.
  revert x.
  induction l as [|[c param] l IH]; intros x; simpl; [reflexivity|].
  unfold compose_override. simpl.
  rewrite (fold_bind_last (fun step y => call ctx (fst step) y (snd step))).
  simpl.
  destruct (call ctx c x param) as [y|e]; simpl; [apply IH | reflexivity].
Qed.

(** Were an override sequence in place, export would apply it in
    declared order and format last. *)
Lemma export_with_override (self : Field.t) (c : callable) (param : pyval)
    (l : list (callable * pyval)) (obj : pyval) :
  export_override self = Some (Pairs ((c, param) :: l)) ->
  Field.to_representation ctx self obj
  = (r0 <- fw_to_representation (base self) obj ;;
     r1 <- compose_override ctx ((c, param) :: l) r0 ;;
     Notions.format self r1).
Proof.
  intros Hov. unfold Field.to_representation. rewrite Hov. simpl export_truthy.
  cbv iota. destruct (fw_to_representation (base self) obj); simpl; [|reflexivity].
  now rewrite <- run_override_declared.
Qed.

End FieldProperties.

(** C1 as stated fails: with the pipeline [add 5, multiply 100] the
    export of 1000 undoes [add] first, giving 9.95, where undoing in
    reverse declared order would give 5. *)
Lemma export_reverse_order_counterexample :
  ~ (forall (ctx : Dec.Context) (self : Field.t) (obj : pyval),
        Field.import_methods self <> [] ->
        Field.export_override self = None ->
        Field.to_representation ctx self obj
        = export_reverse_order ctx self obj).
Proof.
  intros H.
  specialize (H Dec.DefaultContext
                (field_with None [(Field.Add, PInt 5); (Field.Multiply, PInt 100)])
                (PInt 1000)).
  vm_compute in H.
  assert (Heq : @Ok pyval (PDec (mkDec false 995 (-2)))
                = Ok (PDec (mkDec false 5 0)))
    by (apply H; [discriminate | reflexivity]).
  discriminate Heq.
Qed.

(** C1, amended.  For a field with a non-empty pipeline and no export
    override, export applies the steps in declared order, each inverted,
    to the base-serialized value, and the formatter last: for the
    pipeline [s1; ...; sn] the result is
    [inv sn (... (inv s1 (base v)))]. *)
Theorem export_declared_order_inverts (ctx : Dec.Context) (self : Field.t)
    (obj : pyval) :
  Field.import_methods self <> [] ->
  Field.export_override self = None ->
  Field.to_representation ctx self obj = export_declared_order ctx self obj.
Proof.
  intros _ Hov. unfold Field.to_representation, export_declared_order.
  rewrite Hov.
  destruct (Field.fw_to_representation (Field.base self) obj) as [r0|e];
    simpl; [|reflexivity].
  now rewrite run_methods_reverse.
Qed.

Lemma export_declared_order_inverts_witness :
  Field.to_representation Dec.DefaultContext
    (field_with None [(Field.Add, PInt 5); (Field.Multiply, PInt 100)])
    (PInt 1000)
  = Ok (PDec (mkDec false 995 (-2))).
Proof.
  rewrite (export_declared_order_inverts Dec.DefaultContext
             (field_with None [(Field.Add, PInt 5); (Field.Multiply, PInt 100)])
             (PInt 1000)); [reflexivity | discriminate | reflexivity].
Defined.

(** C4, at the key ["a.x.c"] over [{"a": {"b": {"c": 5}}}]: the walk of
    the field reaches [None] at the missing segment ["x"] and raises
    [AttributeError] at the next one. *)
Theorem walk_missing_segment_raises (ctx : Dec.Context)
    (methods : list (Field.transform * pyval)) :
  Field.to_internal_value ctx (field_with (Some "a.x.c") methods) nested
  = Raise AttributeError.
Proof. reflexivity. Qed.

(** C8, at a field constructed with a sequence of (transform, operand)
    pairs as [export]: the constructor raises [TypeError], whatever the
    other arguments are. *)
Theorem export_sequence_rejected (set_iter : list string -> list string)
    (cls : Field.class_attrs)
    (fw : Field.Framework) (key : option string)
    (transformations : option (list string)) (precision : option positive)
    (formatter : option (pyval -> result pyval))
    (l : list (Field.callable * pyval)) (other : list (string * pyval)) :
  Field.init set_iter cls fw key transformations
    (Field.mkKwargs precision formatter (Some (Field.Pairs l)) other)
  = Raise (TypeError "export must be a callable").
Proof.
  unfold Field.init. simpl.
  destruct transformations as [names|]; simpl.
  - now destruct (Field.listen_for_transformations set_iter cls names other).
  - reflexivity.
Qed.

(** C7 as stated fails on the decimals that the offsets are given on
    export after a [multiply] step.  Under the default context of 28
    digits, 9999999999999999999999999999 + 2 is rounded to
    1.000000000000000000000000000E+28, and taking the 2 away again gives
    9999999999999999999999999998. *)
Lemma offsets_invert_counterexample :
  ~ (forall (ctx : Dec.Context) (v k r : pyval),
        IntegerField.add ctx v k false = Ok r ->
        IntegerField.add ctx r k true = Ok v).
Proof.
  intros H.
  specialize (H Dec.DefaultContext
                (PDec (mkDec false 9999999999999999999999999999 0)) (PInt 2)
                (PDec (mkDec false 1000000000000000000000000000 1))).
  assert (Heq : IntegerField.add Dec.DefaultContext
                  (PDec (mkDec false 1000000000000000000000000000 1))
                  (PInt 2) true
                = Ok (PDec (mkDec false 9999999999999999999999999998 0)))
    by (vm_compute; reflexivity).
  rewrite Heq in H.
  assert (Hbad : @Ok pyval (PDec (mkDec false 9999999999999999999999999998 0))
                 = Ok (PDec (mkDec false 9999999999999999999999999999 0)))
    by (apply H; vm_compute; reflexivity).
  discriminate Hbad.
Qed.

(** C7, amended.  On integers the offsets undo each other exactly: [add]
    then its reverse, [subtract] then its reverse, [add] after
    [subtract] and [subtract] after [add] all give back [v]. *)
Theorem offsets_invert (ctx : Dec.Context) (v k : Z) :
  (r <- IntegerField.add ctx (PInt v) (PInt k) false ;;
   IntegerField.add ctx r (PInt k) true) = Ok (PInt v)
  /\ (r <- IntegerField.subtract ctx (PInt v) (PInt k) false ;;
      IntegerField.subtract ctx r (PInt k) true) = Ok (PInt v)
  /\ (r <- IntegerField.subtract ctx (PInt v) (PInt k) false ;;
      IntegerField.add ctx r (PInt k) false) = Ok (PInt v)
  /\ (r <- IntegerField.add ctx (PInt v) (PInt k) false ;;
      IntegerField.subtract ctx r (PInt k) false) = Ok (PInt v).
Proof.
  unfold IntegerField.add, IntegerField.subtract, PyOps.py_add, PyOps.py_sub.
  simpl. repeat split; do 2 f_equal; lia.
Qed.

(* ===================================================================== *)
(** * Facts about decimal arithmetic *)
(* ===================================================================== *)

Section DecimalFacts.

Import Dec.

Lemma pow10_pos (n : Z) : 0 <= n -> 0 < 10 ^ n.
Proof. intros. now apply Z.pow_pos_nonneg. Qed.

Lemma pow10_succ (n : Z) : 0 <= n -> 10 ^ (n + 1) = 10 * 10 ^ n.
Proof. intros. rewrite Z.pow_add_r by lia. lia. Qed.

Lemma ndigits_aux_spec (fuel : nat) (c : Z) :
  0 < c < 2 ^ Z.of_nat fuel ->
  1 <= ndigits_aux fuel c
  /\ 10 ^ (ndigits_aux fuel c - 1) <= c < 10 ^ ndigits_aux fuel c.
Proof.
  revert c.
  induction fuel as [|fuel IH]; intros c Hc.
  - simpl in Hc. lia.
  - cbn [ndigits_aux].
    destruct (c <? 10) eqn:Hlt.
    + apply Z.ltb_lt in Hlt. simpl. lia.
    + apply Z.ltb_ge in Hlt.
      assert (Hq : 0 < c / 10 < 2 ^ Z.of_nat fuel).
      { split.
        - apply Z.div_str_pos. lia.
        - apply Z.div_lt_upper_bound; [lia|].
          rewrite Nat2Z.inj_succ, Z.pow_succ_r in Hc by lia. lia. }
      destruct (IH _ Hq) as (H1 & Hlo & Hhi).
      replace (1 + ndigits_aux fuel (c / 10) - 1)
        with (ndigits_aux fuel (c / 10) - 1 + 1) by lia.
      rewrite Z.add_comm, !pow10_succ by lia.
      pose proof (Z.div_mod c 10 ltac:(lia)) as Hdm.
      pose proof (Z.mod_pos_bound c 10 ltac:(lia)) as Hm.
      lia.
Qed.

Lemma ndigitsZ_spec (c : Z) :
  0 < c ->
  1 <= ndigitsZ c /\ 10 ^ (ndigitsZ c - 1) <= c < 10 ^ ndigitsZ c.
Proof.
  intros Hc. unfold ndigitsZ. apply ndigits_aux_spec.
  split; [assumption|].
  rewrite Nat2Z.inj_succ, Z2Nat.id by apply Z.log2_nonneg.
  now apply Z.log2_spec.
Qed.

Lemma ndigitsZ_nonpos (c : Z) : c <= 0 -> ndigitsZ c = 1.
Proof.
  intros Hc. unfold ndigitsZ. cbn [ndigits_aux].
  destruct (c <? 10) eqn:Hlt; [reflexivity|]. apply Z.ltb_ge in Hlt. lia.
Qed.

Lemma ndigitsZ_ge1 (c : Z) : 1 <= ndigitsZ c.
Proof.
  destruct (Z_lt_le_dec 0 c) as [Hc|Hc].
  - now apply ndigitsZ_spec.
  - rewrite ndigitsZ_nonpos; lia.
Qed.

(** A number below [10^k] has at most [k] digits. *)
Lemma ndigitsZ_le (c k : Z) : 1 <= k -> c < 10 ^ k -> ndigitsZ c <= k.
Proof.
  intros Hk Hc.
  destruct (Z_lt_le_dec 0 c) as [Hpos|Hneg].
  - destruct (ndigitsZ_spec c Hpos) as (H1 & Hlo & _).
    destruct (Z_le_gt_dec (ndigitsZ c) k) as [|Hgt]; [assumption|].
    assert (10 ^ k <= 10 ^ (ndigitsZ c - 1)) by (apply Z.pow_le_mono_r; lia).
    lia.
  - rewrite ndigitsZ_nonpos; lia.
Qed.

(** A number from [10^k] on has more than [k] digits. *)
Lemma ndigitsZ_gt (c k : Z) : 0 <= k -> 10 ^ k <= c -> k < ndigitsZ c.
Proof.
  intros Hk Hc.
  assert (Hpos : 0 < c) by (pose proof (pow10_pos k Hk); lia).
  destruct (ndigitsZ_spec c Hpos) as (H1 & _ & Hhi).
  destruct (Z_lt_le_dec k (ndigitsZ c)) as [|Hle]; [assumption|].
  assert (10 ^ ndigitsZ c <= 10 ^ k) by (apply Z.pow_le_mono_r; lia).
  lia.
Qed.

Lemma round_half_even_bounds (c n : Z) :
  0 <= c -> 0 <= n ->
  c / 10 ^ n <= round_half_even c n <= c / 10 ^ n + 1.
Proof.
  intros Hc Hn. unfold round_half_even.
  destruct (_ || _); lia.
Qed.

(** Dropping digits that are all zero is exact. *)
Lemma round_half_even_exact (u n : Z) :
  0 <= n -> round_half_even (u * 10 ^ n) n = u.
Proof.
  intros Hn. unfold round_half_even.
  pose proof (pow10_pos n Hn) as Hp.
  rewrite Z.div_mul, Z.mod_mul by lia.
  replace (2 * 0 >? 10 ^ n) with false
    by (symmetry; rewrite Z.gtb_ltb; apply Z.ltb_ge; lia).
  replace (2 * 0 =? 10 ^ n) with false by (symmetry; apply Z.eqb_neq; lia).
  reflexivity.
Qed.

Lemma ndigits_to_N (c : Z) : 0 <= c -> ndigits (Z.to_N c) = ndigitsZ c.
Proof. intros. unfold ndigits. now rewrite Z2N.id. Qed.

(** The three outcomes of [fix_]: a zero with its exponent clamped, the
    number itself, or the number rounded at [exp_min]. *)
Lemma fix_cases (ctx : Context) (x y : Decimal) :
  fix_ ctx x = Ok y ->
  let P := Zpos (prec ctx) in
  let exp_min := Z.max (ndigits (dcoeff x) + dexp x - P) (Etiny ctx) in
  (dcoeff x = 0%N
   /\ y = mkDec (dsign x) 0 (Z.min (Z.max (dexp x) (Etiny ctx)) (Emax ctx)))
  \/ (dcoeff x <> 0%N /\ ndigits (dcoeff x) + dexp x - P <= Etop ctx
      /\ exp_min <= dexp x /\ y = x)
  \/ (dcoeff x <> 0%N /\ ndigits (dcoeff x) + dexp x - P <= Etop ctx
      /\ dexp x < exp_min
      /\ let r := round_half_even (cz x) (exp_min - dexp x) in
         (P < ndigitsZ r /\ exp_min + 1 <= Etop ctx
          /\ y = mkDec (dsign x) (Z.to_N (r / 10)) (exp_min + 1))
         \/ (ndigitsZ r <= P /\ exp_min <= Etop ctx
             /\ y = mkDec (dsign x) (Z.to_N r) exp_min)).
Proof.
  intros H P exp_min. unfold fix_ in H.
  destruct (dcoeff x =? 0)%N eqn:Hz.
  - left. apply N.eqb_eq in Hz. split; [assumption|]. now injection H as <-.
  - apply N.eqb_neq in Hz. right.
    fold P in H.
    destruct (ndigits (dcoeff x) + dexp x - P >? Etop ctx) eqn:Hov; [discriminate|].
    rewrite Z.gtb_ltb in Hov. apply Z.ltb_ge in Hov.
    fold exp_min in H.
    destruct (dexp x <? exp_min) eqn:Hlt.
    + right. apply Z.ltb_lt in Hlt. repeat (split; [assumption|]).
      cbv zeta.
      destruct (ndigitsZ (round_half_even (cz x) (exp_min - dexp x)) >? P) eqn:Hnd.
      * left. rewrite Z.gtb_ltb in Hnd. apply Z.ltb_lt in Hnd.
        destruct (exp_min + 1 >? Etop ctx) eqn:Hov2; [discriminate|].
        rewrite Z.gtb_ltb in Hov2. apply Z.ltb_ge in Hov2. injection H as <-. auto.
      * right. rewrite Z.gtb_ltb in Hnd. apply Z.ltb_ge in Hnd.
        destruct (exp_min >? Etop ctx) eqn:Hov2; [discriminate|].
        rewrite Z.gtb_ltb in Hov2. apply Z.ltb_ge in Hov2. injection H as <-. auto.
    + left. apply Z.ltb_ge in Hlt. injection H as <-. auto.
Qed.

(** What [fix_] returns has at most [prec] digits, keeps the sign, and
    lies within [Emax]. *)
Lemma fix_digits (ctx : Context) (x y : Decimal) :
  fix_ ctx x = Ok y -> ndigits (dcoeff y) <= Zpos (prec ctx).
Proof.
  intros H. apply fix_cases in H. cbv zeta in H.
  set (P := Zpos (prec ctx)) in *.
  set (exp_min := Z.max (ndigits (dcoeff x) + dexp x - P) (Etiny ctx)) in *.
  destruct H as [(_ & ->) | [(Hnz & Hov & Hge & ->) | (Hnz & Hov & Hlt & H)]].
  - simpl. unfold ndigits. simpl. rewrite ndigitsZ_nonpos; lia.
  - lia.
  - set (n := exp_min - dexp x) in *.
    assert (Hn : 0 < n) by (unfold n; lia).
    assert (Hc : 0 < cz x) by (unfold cz; lia).
    pose proof (round_half_even_bounds (cz x) n ltac:(lia) ltac:(lia)) as Hr.
    set (r := round_half_even (cz x) n) in *.
    assert (Hq : 0 <= cz x / 10 ^ n)
      by (apply Z.div_pos; [lia | apply pow10_pos; lia]).
    assert (Hhi : cz x / 10 ^ n < 10 ^ P).
    { apply Z.div_lt_upper_bound; [apply pow10_pos; lia|].
      destruct (ndigitsZ_spec (cz x) Hc) as (_ & _ & Hup).
      change (ndigitsZ (cz x)) with (ndigits (dcoeff x)) in Hup.
      assert (Hem : ndigits (dcoeff x) + dexp x - P <= exp_min)
        by (unfold exp_min; lia).
      rewrite <- Z.pow_add_r by lia.
      apply Z.lt_le_trans with (1 := Hup).
      apply Z.pow_le_mono_r; lia. }
    destruct H as [(Hnd & _ & ->) | (Hnd & _ & ->)]; simpl.
    + rewrite ndigits_to_N by (apply Z.div_pos; lia).
      apply ndigitsZ_le; [lia|].
      apply Z.div_lt_upper_bound; [lia|].
      pose proof (pow10_pos P ltac:(lia)). lia.
    + rewrite ndigits_to_N by lia. exact Hnd.
Qed.

Lemma fix_sign (ctx : Context) (x y : Decimal) :
  fix_ ctx x = Ok y -> dsign y = dsign x.
Proof.
  intros H. apply fix_cases in H. cbv zeta in H.
  destruct H as [(_ & ->) | [(_ & _ & _ & ->) | (_ & _ & _ & [(_ & _ & ->) | (_ & _ & ->)])]];
    reflexivity.
Qed.

Lemma fix_adjusted (ctx : Context) (x y : Decimal) :
  fix_ ctx x = Ok y -> dcoeff y <> 0%N -> adjusted y <= Emax ctx.
Proof.
  intros H Hy. pose proof (fix_digits _ _ _ H) as Hd.
  apply fix_cases in H. cbv zeta in H. unfold adjusted, Etop in *.
  destruct H as [(_ & ->) | [(_ & Hov & _ & ->) | (_ & _ & _ & [(_ & Hov & ->) | (_ & Hov & ->)])]];
    simpl in *; lia.
Qed.

Lemma to_int_abs (m : Decimal) :
  Z.abs (to_int m)
  = if 0 <=? dexp m then cz m * 10 ^ dexp m else cz m / 10 ^ (- dexp m).
Proof.
  unfold to_int.
  assert (Hc : 0 <= cz m) by (unfold cz; lia).
  assert (0 <= (if 0 <=? dexp m then cz m * 10 ^ dexp m
                else cz m / 10 ^ (- dexp m))).
  { destruct (0 <=? dexp m) eqn:He.
    - apply Z.leb_le in He. pose proof (pow10_pos _ He). nia.
    - apply Z.leb_gt in He. apply Z.div_pos; [lia | apply pow10_pos; lia]. }
  destruct (dsign m); lia.
Qed.

Lemma cz_mkDec (s : bool) (c : N) (e : Z) : cz (mkDec s c e) = Z.of_N c.
Proof. reflexivity. Qed.

Lemma round_half_even_error (c n : Z) :
  0 <= c -> 0 <= n ->
  2 * Z.abs (round_half_even c n * 10 ^ n - c) <= 10 ^ n.
Proof.
  intros Hc Hn. unfold round_half_even.
  pose proof (pow10_pos n Hn) as Hp.
  pose proof (Z.div_mod c (10 ^ n) ltac:(lia)) as Hdm.
  pose proof (Z.mod_pos_bound c (10 ^ n) Hp) as Hm.
  set (hi := c / 10 ^ n) in *. set (lo := c mod 10 ^ n) in *.
  set (p := 10 ^ n) in *. clearbody hi lo p. subst c.
  destruct (2 * lo >? p) eqn:Hgt; cbn [orb andb].
  - rewrite Z.gtb_ltb in Hgt. apply Z.ltb_lt in Hgt.
    replace ((hi + 1) * p - (p * hi + lo)) with (p - lo) by ring. lia.
  - rewrite Z.gtb_ltb in Hgt. apply Z.ltb_ge in Hgt.
    destruct (2 * lo =? p) eqn:Heq; cbn [orb andb].
    + apply Z.eqb_eq in Heq. destruct (Z.odd hi).
      * replace ((hi + 1) * p - (p * hi + lo)) with (p - lo) by ring. lia.
      * replace (hi * p - (p * hi + lo)) with (- lo) by ring. lia.
    + replace (hi * p - (p * hi + lo)) with (- lo) by ring. lia.
Qed.

(** What [fix_] returns for a non-zero number is that number rounded to
    nearest. *)
Lemma fix_nearest (ctx : Context) (x y : Decimal) :
  fix_ ctx x = Ok y -> dcoeff x <> 0%N -> nearest x y.
Proof.
  intros H Hnz. apply fix_cases in H. cbv zeta in H. unfold nearest.
  set (P := Zpos (prec ctx)) in *.
  set (exp_min := Z.max (ndigits (dcoeff x) + dexp x - P) (Etiny ctx)) in *.
  assert (Hc : 0 < cz x) by (unfold cz; lia).
  destruct H as [(Hz & _) | [(_ & _ & _ & ->) | (_ & _ & Hlt & H)]].
  - contradiction.
  - rewrite Z.sub_diag, Z.pow_0_r. lia.
  - set (n := exp_min - dexp x) in *.
    assert (Hn : 0 < n) by (unfold n; lia).
    pose proof (pow10_pos n ltac:(lia)) as Hpn.
    pose proof (round_half_even_error (cz x) n ltac:(lia) ltac:(lia)) as Herr.
    pose proof (round_half_even_bounds (cz x) n ltac:(lia) ltac:(lia)) as Hb.
    assert (Hq : 0 <= cz x / 10 ^ n) by (apply Z.div_pos; lia).
    set (r := round_half_even (cz x) n) in *.
    destruct H as [(Hnd & _ & ->) | (_ & _ & ->)];
      rewrite cz_mkDec; cbn [dexp].
    + (* a carry into a new digit: [r] is [10^P] *)
      assert (HrP : r = 10 ^ P).
      { assert (Hhi : cz x / 10 ^ n < 10 ^ P).
        { apply Z.div_lt_upper_bound; [lia|].
          destruct (ndigitsZ_spec _ Hc) as (_ & _ & Hup).
          change (ndigitsZ (cz x)) with (ndigits (dcoeff x)) in Hup.
          assert (Hem : ndigits (dcoeff x) + dexp x - P <= exp_min)
            by (unfold exp_min; lia).
          rewrite <- Z.pow_add_r by lia.
          apply Z.lt_le_trans with (1 := Hup).
          apply Z.pow_le_mono_r; lia. }
        assert (10 ^ P <= r); [|lia].
        destruct (Z_le_gt_dec (10 ^ P) r) as [|Hgt]; [assumption|].
        assert (ndigitsZ r <= P) by (apply ndigitsZ_le; lia). lia. }
      assert (HP1 : 10 ^ P = 10 ^ (P - 1) * 10).
      { replace P with (P - 1 + 1) at 1 by lia. rewrite pow10_succ; lia. }
      assert (Hr10 : r / 10 * 10 = r).
      { rewrite HrP, HP1, Z.div_mul; lia. }
      rewrite Z2N.id by (apply Z.div_pos; lia).
      split; [lia|].
      replace (exp_min + 1 - dexp x) with (n + 1) by (unfold n; lia).
      rewrite pow10_succ by lia.
      replace (r / 10 * (10 * 10 ^ n)) with (r / 10 * 10 * 10 ^ n) by ring.
      rewrite Hr10. lia.
    + rewrite Z2N.id by lia. split; [lia|]. exact Herr.
Qed.

(** [int(m)] cuts [m] off at the decimal point. *)
Lemma to_int_truncates (m : Decimal) : truncates m (to_int m).
Proof.
  unfold truncates. rewrite to_int_abs.
  assert (Hc : 0 <= cz m) by (unfold cz; lia).
  split.
  - unfold to_int.
    assert (0 <= (if 0 <=? dexp m then cz m * 10 ^ dexp m
                  else cz m / 10 ^ (- dexp m))).
    { destruct (0 <=? dexp m) eqn:He.
      - apply Z.leb_le in He. pose proof (pow10_pos _ He). nia.
      - apply Z.leb_gt in He. apply Z.div_pos; [lia | apply pow10_pos; lia]. }
    destruct (dsign m); lia.
  - destruct (0 <=? dexp m) eqn:He.
    + apply Z.leb_le in He. pose proof (pow10_pos _ He).
      rewrite (Z.max_r (- dexp m) 0), (Z.max_l (dexp m) 0) by lia.
      rewrite Z.pow_0_r. lia.
    + apply Z.leb_gt in He.
      pose proof (pow10_pos (- dexp m) ltac:(lia)) as Hp.
      rewrite (Z.max_l (- dexp m) 0), (Z.max_r (dexp m) 0) by lia.
      rewrite Z.pow_0_r, Z.mul_1_r.
      pose proof (Z.div_mod (cz m) (10 ^ (- dexp m)) ltac:(lia)) as Hdm.
      pose proof (Z.mod_pos_bound (cz m) (10 ^ (- dexp m)) Hp) as Hm.
      lia.
Qed.

(** ** Division *)

Lemma strip_zeros_spec (fuel : nat) (c e : Z) :
  0 < c ->
  let '(c', e') := strip_zeros fuel c e in
  0 < c' /\ e <= e' /\ c = c' * 10 ^ (e' - e).
Proof.
  revert c e.
  induction fuel as [|fuel IH]; intros c e Hc; cbn [strip_zeros].
  - rewrite Z.sub_diag, Z.pow_0_r. lia.
  - destruct (c mod 10 =? 0) eqn:Hmod.
    + apply Z.eqb_eq in Hmod.
      pose proof (Z.div_mod c 10 ltac:(lia)) as Hdm.
      assert (Hq : 0 < c / 10) by lia.
      specialize (IH (c / 10) (e + 1) Hq).
      destruct (strip_zeros fuel (c / 10) (e + 1)) as [c' e'].
      destruct IH as (Hc' & He & Heq).
      split; [assumption|]. split; [lia|].
      replace (e' - e) with (e' - (e + 1) + 1) by lia.
      rewrite pow10_succ by lia. lia.
    + rewrite Z.sub_diag, Z.pow_0_r. lia.
Qed.

(** A coefficient of more than [prec] digits is rounded: the exponent
    rises. *)
Lemma fix_raises_exponent (ctx : Context) (x y : Decimal) :
  fix_ ctx x = Ok y ->
  10 ^ Zpos (prec ctx) <= cz x ->
  dexp x + 1 <= dexp y.
Proof.
  intros H Hbig.
  assert (HP : 0 <= Zpos (prec ctx)) by lia.
  pose proof (pow10_pos _ HP) as Hp.
  pose proof (ndigitsZ_gt (cz x) _ HP Hbig) as Hnd.
  change (ndigitsZ (cz x)) with (ndigits (dcoeff x)) in Hnd.
  apply fix_cases in H. cbv zeta in H.
  destruct H as [(Hz & _) | [(_ & _ & Hge & _) | (_ & _ & _ & [(_ & _ & ->) | (_ & _ & ->)])]];
    simpl; try lia.
  unfold cz in *. rewrite Hz in Hbig. simpl in Hbig. lia.
Qed.

(** The division came out even: [x] is the quotient [Q], its trailing
    zeros stripped. *)
Lemma quotient_even (ctx : Context) (x q : Decimal) (D Q e : Z) :
  fix_ ctx x = Ok q ->
  0 < D -> 0 < cz x -> e <= dexp x -> Q = cz x * 10 ^ (dexp x - e) ->
  e <= dexp q
  /\ Z.abs (cz q * 10 ^ (dexp q - e) * D - D * Q) <= D * 10 ^ (dexp q - e).
Proof.
  intros Hfix HD Hx He ->.
  assert (Hnz : dcoeff x <> 0%N) by (unfold cz in Hx; lia).
  destruct (fix_nearest _ _ _ Hfix Hnz) as [Hle Hnear].
  split; [lia|].
  replace (dexp q - e) with (dexp q - dexp x + (dexp x - e)) by lia.
  rewrite Z.pow_add_r by lia.
  pose proof (pow10_pos (dexp q - dexp x) ltac:(lia)) as Hp1.
  pose proof (pow10_pos (dexp x - e) ltac:(lia)) as Hp0.
  set (p1 := 10 ^ (dexp q - dexp x)) in *.
  set (p0 := 10 ^ (dexp x - e)) in *.
  replace (cz q * (p1 * p0) * D - D * (cz x * p0))
    with (D * p0 * (cz q * p1 - cz x)) by ring.
  rewrite Z.abs_mul, (Z.abs_eq (D * p0)) by nia.
  assert (0 < D * p0) by nia.
  nia.
Qed.

(** The division left a remainder [R]: [x] is [Q] or [Q + 1], with more
    digits than the precision. *)
Lemma quotient_sticky (ctx : Context) (x q : Decimal) (D Q R : Z) :
  fix_ ctx x = Ok q ->
  0 < R < D -> cz x = Q \/ cz x = Q + 1 -> 10 ^ Zpos (prec ctx) <= Q ->
  dexp x <= dexp q
  /\ Z.abs (cz q * 10 ^ (dexp q - dexp x) * D - (D * Q + R))
     <= D * 10 ^ (dexp q - dexp x).
Proof.
  intros Hfix HR Hx Hbig.
  pose proof (pow10_pos (Zpos (prec ctx)) ltac:(lia)) as HpP.
  assert (Hnz : dcoeff x <> 0%N) by (unfold cz in Hx; lia).
  destruct (fix_nearest _ _ _ Hfix Hnz) as [Hle Hnear].
  pose proof (fix_raises_exponent _ _ _ Hfix ltac:(lia)) as Hup.
  split; [lia|].
  assert (Hp : 10 <= 10 ^ (dexp q - dexp x)).
  { replace (dexp q - dexp x) with (dexp q - dexp x - 1 + 1) by lia.
    rewrite pow10_succ by lia.
    pose proof (pow10_pos (dexp q - dexp x - 1) ltac:(lia)). lia. }
  set (p := 10 ^ (dexp q - dexp x)) in *.
  set (t := cz q * p - cz x) in *.
  assert (Ht : - (D * p) <= 2 * (D * t) <= D * p) by nia.
  assert (HDp : 10 * D <= D * p) by nia.
  destruct Hx as [Hx | Hx].
  - replace (cz q * p * D - (D * Q + R)) with (D * t - R)
      by (unfold t; rewrite Hx; ring).
    lia.
  - replace (cz q * p * D - (D * Q + R)) with (D * t + D - R)
      by (unfold t; rewrite Hx; ring).
    lia.
Qed.

Lemma abs_scale (k X Y : Z) : 0 < k -> Z.abs (k * X) <= k * Y -> Z.abs X <= Y.
Proof.
  intros Hk H. rewrite Z.abs_mul, (Z.abs_eq k) in H by lia. nia.
Qed.

(** The long division of [div] on the scaled coefficients [N] and [D]:
    the result is within one unit of its last place of [N / D] at the
    exponent [e]. *)
Lemma div_core (ctx : Context) (sign : bool) (N D e : Z) (fuel : nat)
    (q : Decimal) :
  0 < D -> D * 10 ^ Zpos (prec ctx) <= N ->
  (let '(Q, R) := Z.div_eucl N D in
   if R =? 0 then
     let '(q', e') := strip_zeros fuel Q e in
     fix_ ctx (mkDec sign (Z.to_N q') e')
   else
     fix_ ctx (mkDec sign (Z.to_N (if Q mod 5 =? 0 then Q + 1 else Q)) e))
  = Ok q ->
  e <= dexp q
  /\ Z.abs (cz q * 10 ^ (dexp q - e) * D - N) <= D * 10 ^ (dexp q - e).
Proof.
  intros HD Hbig H.
  pose proof (pow10_pos (Zpos (prec ctx)) ltac:(lia)) as HpP.
  pose proof (Z_div_mod N D ltac:(lia)) as Hdm.
  destruct (Z.div_eucl N D) as [Q R]. destruct Hdm as [HN HR].
  assert (HQ : 10 ^ Zpos (prec ctx) <= Q) by nia.
  destruct (R =? 0) eqn:HR0.
  - apply Z.eqb_eq in HR0. subst R. rewrite Z.add_0_r in HN. subst N.
    pose proof (strip_zeros_spec fuel Q e ltac:(lia)) as Hstrip.
    destruct (strip_zeros fuel Q e) as [Q' e'].
    destruct Hstrip as (HQ' & He & HQeq).
    apply (quotient_even ctx _ q D Q e H); rewrite ?cz_mkDec; simpl;
      rewrite ?Z2N.id by lia; lia.
  - apply Z.eqb_neq in HR0. subst N.
    apply (quotient_sticky ctx _ q D Q R) in H; simpl in H;
      rewrite ?cz_mkDec, ?Z2N.id by (destruct (Q mod 5 =? 0); lia);
      try lia.
    destruct (Q mod 5 =? 0); [right | left]; reflexivity.
Qed.

(** C6's "divides": the quotient returned by [div] is within one unit of
    its last place of the exact quotient. *)
Lemma div_within_ulp (ctx : Context) (a b q : Decimal) :
  div ctx a b = Ok q -> within_ulp a b q.
Proof.
  unfold div, within_ulp. intros H.
  destruct (dcoeff b =? 0)%N eqn:Hb.
  { destruct (dcoeff a =? 0)%N; discriminate. }
  apply N.eqb_neq in Hb.
  assert (Hcb : 0 < cz b) by (unfold cz; lia).
  destruct (dcoeff a =? 0)%N eqn:Ha.
  - (* a zero divided by something is a zero *)
    apply N.eqb_eq in Ha. unfold fix_ in H. simpl in H.
    injection H as <-. unfold cz at 1 3. rewrite Ha. simpl.
    apply Z.mul_nonneg_nonneg; [lia|].
    apply Z.lt_le_incl, pow10_pos. lia.
  - apply N.eqb_neq in Ha.
    assert (Hca : 0 < cz a) by (unfold cz; lia).
    destruct (ndigitsZ_spec _ Hca) as (HLa & Hloa & Hupa).
    destruct (ndigitsZ_spec _ Hcb) as (HLb & Hlob & Hupb).
    change (ndigits (dcoeff a)) with (ndigitsZ (cz a)) in H.
    change (ndigits (dcoeff b)) with (ndigitsZ (cz b)) in H.
    set (La := ndigitsZ (cz a)) in *. set (Lb := ndigitsZ (cz b)) in *.
    set (P := Zpos (prec ctx)) in *.
    set (S := Lb - La + P + 1) in *.
    set (e := dexp a - dexp b - S) in *.
    assert (HP : 0 < P) by (unfold P; lia).
    pose proof (pow10_pos P ltac:(lia)) as HpP.
    destruct (0 <=? S) eqn:HS.
    + apply Z.leb_le in HS.
      pose proof (pow10_pos S HS) as HpS.
      apply div_core in H; [|assumption|].
      * destruct H as [Hle Hstar].
        set (g := dexp q + dexp b - dexp a).
        assert (Hd : dexp q - e = g + S) by (unfold g, e; lia).
        rewrite Hd in Hstar.
        destruct (Z_le_gt_dec 0 g) as [Hg|Hg].
        -- rewrite (Z.max_l g 0), (Z.max_r (- g) 0), Z.pow_0_r, Z.mul_1_r by lia.
           rewrite Z.pow_add_r in Hstar by lia.
           apply abs_scale with (k := 10 ^ S); [assumption|].
           replace (10 ^ S * (cz q * cz b * 10 ^ g - cz a))
             with (cz q * (10 ^ g * 10 ^ S) * cz b - cz a * 10 ^ S) by ring.
           replace (10 ^ S * (cz b * 10 ^ g))
             with (cz b * (10 ^ g * 10 ^ S)) by ring.
           exact Hstar.
        -- rewrite (Z.max_r g 0), (Z.max_l (- g) 0), Z.pow_0_r, !Z.mul_1_r by lia.
           pose proof (pow10_pos (g + S) ltac:(lia)) as Hpd.
           apply abs_scale with (k := 10 ^ (g + S)); [assumption|].
           replace (10 ^ (g + S) * (cz q * cz b - cz a * 10 ^ (- g)))
             with (cz q * 10 ^ (g + S) * cz b - cz a * (10 ^ (g + S) * 10 ^ (- g)))
             by ring.
           rewrite <- Z.pow_add_r by lia.
           replace (g + S + - g) with S by lia.
           rewrite (Z.mul_comm (10 ^ (g + S)) (cz b)). exact Hstar.
      * (* the quotient has more than [P] digits *)
        apply Z.le_trans with (10 ^ Lb * 10 ^ P);
          [apply Z.mul_le_mono_nonneg_r; lia|].
        rewrite <- Z.pow_add_r by lia.
        apply Z.le_trans with (10 ^ (La - 1) * 10 ^ S);
          [|apply Z.mul_le_mono_nonneg_r; lia].
        rewrite <- Z.pow_add_r by lia.
        apply Z.pow_le_mono_r; unfold S; lia.
    + apply Z.leb_gt in HS.
      pose proof (pow10_pos (- S) ltac:(lia)) as HpS.
      apply div_core in H; [|nia|].
      * destruct H as [Hle Hstar].
        set (g := dexp q + dexp b - dexp a).
        assert (Hd : dexp q - e = g + S) by (unfold g, e; lia).
        rewrite Hd in Hstar.
        rewrite (Z.max_l g 0), (Z.max_r (- g) 0), Z.pow_0_r, Z.mul_1_r by lia.
        replace g with (g + S + - S) at 1 2 by lia.
        rewrite Z.pow_add_r by lia.
        replace (cz q * cz b * (10 ^ (g + S) * 10 ^ (- S)) - cz a)
          with (cz q * 10 ^ (g + S) * (cz b * 10 ^ (- S)) - cz a) by ring.
        replace (cz b * (10 ^ (g + S) * 10 ^ (- S)))
          with (cz b * 10 ^ (- S) * 10 ^ (g + S)) by ring.
        exact Hstar.
      * apply Z.le_trans with (10 ^ (La - 1)); [|lia].
        apply Z.le_trans with (10 ^ Lb * 10 ^ (- S) * 10 ^ P);
          [apply Z.mul_le_mono_nonneg_r; [lia|];
           apply Z.mul_le_mono_nonneg_r; lia|].
        rewrite <- !Z.pow_add_r by lia.
        apply Z.pow_le_mono_r; unfold S; lia.
Qed.

(** ** Decimals that are integers *)

Lemma represents_shift (u n e a : Z) :
  0 <= n -> represents (u * 10 ^ n) e a -> represents u (e + n) a.
Proof.
  unfold represents. intros Hn H.
  pose proof (pow10_pos n Hn) as Hpn.
  destruct (Z_le_gt_dec 0 e) as [He|He].
  - rewrite (Z.max_l e 0), (Z.max_r (- e) 0) in H by lia.
    rewrite (Z.max_l (e + n) 0), (Z.max_r (- (e + n)) 0) by lia.
    rewrite Z.pow_add_r by lia. rewrite <- H. ring.
  - rewrite (Z.max_r e 0), (Z.max_l (- e) 0) in H by lia.
    rewrite Z.pow_0_r, Z.mul_1_r in H.
    pose proof (pow10_pos (- e) ltac:(lia)) as Hpe.
    destruct (Z_le_gt_dec 0 (e + n)) as [Hen|Hen].
    + rewrite (Z.max_l (e + n) 0), (Z.max_r (- (e + n)) 0) by lia.
      rewrite Z.pow_0_r, Z.mul_1_r.
      apply Z.mul_reg_r with (p := 10 ^ (- e)); [lia|].
      rewrite <- Z.mul_assoc, <- Z.pow_add_r by lia.
      replace (e + n + - e) with n by lia.
      exact H.
    + rewrite (Z.max_r (e + n) 0), (Z.max_l (- (e + n)) 0) by lia.
      rewrite Z.pow_0_r, Z.mul_1_r.
      apply Z.mul_reg_r with (p := 10 ^ n); [lia|].
      rewrite <- (Z.mul_assoc a), <- Z.pow_add_r by lia.
      replace (- (e + n) + n) with (- e) by lia.
      exact H.
Qed.

Lemma to_int_represents (c e a : Z) :
  represents c e a ->
  (if 0 <=? e then c * 10 ^ e else c / 10 ^ (- e)) = a.
Proof.
  unfold represents. intros H.
  destruct (0 <=? e) eqn:He.
  - apply Z.leb_le in He.
    rewrite (Z.max_l e 0), (Z.max_r (- e) 0) in H by lia.
    rewrite Z.pow_0_r, Z.mul_1_r in H. exact H.
  - apply Z.leb_gt in He.
    rewrite (Z.max_r e 0), (Z.max_l (- e) 0) in H by lia.
    pose proof (pow10_pos (- e) ltac:(lia)).
    rewrite Z.pow_0_r, Z.mul_1_r in H. subst c. apply Z.div_mul. lia.
Qed.

(** The integer [a] is at least the leading power of its coefficient. *)
Lemma represents_lower (c e a : Z) :
  0 < c -> represents c e a -> 0 <= ndigitsZ c - 1 + e ->
  10 ^ (ndigitsZ c - 1 + e) <= a.
Proof.
  unfold represents. intros Hc H Hnd.
  destruct (ndigitsZ_spec c Hc) as (H1 & Hlo & _).
  destruct (Z_le_gt_dec 0 e) as [He|He].
  - rewrite (Z.max_l e 0), (Z.max_r (- e) 0) in H by lia.
    rewrite Z.pow_0_r, Z.mul_1_r in H. subst a.
    rewrite Z.pow_add_r by lia.
    apply Z.mul_le_mono_nonneg_r; [apply Z.lt_le_incl, pow10_pos; lia | assumption].
  - rewrite (Z.max_r e 0), (Z.max_l (- e) 0) in H by lia.
    rewrite Z.pow_0_r, Z.mul_1_r in H.
    pose proof (pow10_pos (- e) ltac:(lia)) as Hpe.
    apply Z.mul_le_mono_pos_r with (p := 10 ^ (- e)); [assumption|].
    rewrite <- Z.pow_add_r by lia.
    replace (ndigitsZ c - 1 + e + - e) with (ndigitsZ c - 1) by lia.
    lia.
Qed.

(** A coefficient that is a multiple of [10^n] when its integer fits the
    precision and the exponent has to rise by [n]. *)
Lemma coefficient_divisible (ctx : Context) (c e a : Z) :
  integer_range ctx ->
  0 < c -> represents c e a -> fits ctx a ->
  let exp_min := Z.max (ndigitsZ c + e - Zpos (prec ctx)) (Etiny ctx) in
  e < exp_min ->
  exists u, c = u * 10 ^ (exp_min - e).
Proof.
  intros [Hmin Hmax] Hc Hrep [(w & t & Ht & Hw & Ha) Hbound] exp_min Hlt.
  set (P := Zpos (prec ctx)) in *.
  assert (HP : 0 < P) by (unfold P; lia).
  assert (Htiny : Etiny ctx <= 0) by (unfold Etiny; lia).
  destruct (Z_le_gt_dec exp_min 0) as [Hem|Hem].
  - (* the exponent stays negative: [c] is [a] with zeros appended *)
    exists (a * 10 ^ (- exp_min)).
    unfold represents in Hrep.
    rewrite (Z.max_r e 0), (Z.max_l (- e) 0) in Hrep by lia.
    rewrite Z.pow_0_r, Z.mul_1_r in Hrep.
    rewrite <- Z.mul_assoc, <- Z.pow_add_r by lia.
    now replace (- exp_min + (exp_min - e)) with (- e) by lia.
  - (* the precision forces the rise: [a] ends in that many zeros *)
    assert (Hem' : exp_min = ndigitsZ c + e - P) by (unfold exp_min in *; lia).
    pose proof (represents_lower c e a Hc Hrep ltac:(lia)) as Hlow.
    assert (Hup : a < 10 ^ (P + t)).
    { rewrite Z.pow_add_r, Ha by lia.
      apply Z.mul_lt_mono_pos_r; [apply pow10_pos; lia | lia]. }
    assert (Hexp : ndigitsZ c - 1 + e < P + t).
    { apply (Z.pow_lt_mono_r_iff 10); lia. }
    exists (w * 10 ^ (t - exp_min)).
    assert (Ha' : a = w * 10 ^ (t - exp_min) * 10 ^ exp_min).
    { rewrite <- Z.mul_assoc, <- Z.pow_add_r by lia.
      now replace (t - exp_min + exp_min) with t by lia. }
    unfold represents in Hrep.
    destruct (Z_le_gt_dec 0 e) as [He|He].
    + rewrite (Z.max_l e 0), (Z.max_r (- e) 0) in Hrep by lia.
      rewrite Z.pow_0_r, Z.mul_1_r in Hrep.
      apply Z.mul_reg_r with (p := 10 ^ e);
        [pose proof (pow10_pos e He); lia|].
      rewrite Hrep, <- Z.mul_assoc, <- Z.pow_add_r by lia.
      now replace (exp_min - e + e) with exp_min by lia.
    + rewrite (Z.max_r e 0), (Z.max_l (- e) 0) in Hrep by lia.
      rewrite Z.pow_0_r, Z.mul_1_r in Hrep.
      rewrite Hrep, Ha', <- Z.mul_assoc, <- Z.pow_add_r by lia.
      now replace (exp_min + - e) with (exp_min - e) by lia.
Qed.

(** [fix_] returns an integer that fits the context unharmed. *)
Lemma fix_integer (ctx : Context) (x : Decimal) (a : Z) :
  integer_range ctx ->
  dcoeff x <> 0%N ->
  represents (cz x) (dexp x) a ->
  fits ctx a ->
  exists m, fix_ ctx x = Ok m /\ dsign m = dsign x
            /\ represents (cz m) (dexp m) a.
Proof.
  intros Hadm Hnz Hrep Hfits.
  assert (Hc : 0 < cz x) by (unfold cz; lia).
  pose proof (coefficient_divisible ctx _ _ _ Hadm Hc Hrep Hfits) as Hdiv.
  cbv zeta in Hdiv.
  destruct Hadm as [Hmin Hmax]. destruct Hfits as [_ Hbound].
  unfold fix_.
  apply N.eqb_neq in Hnz. rewrite Hnz.
  change (ndigits (dcoeff x)) with (ndigitsZ (cz x)).
  set (P := Zpos (prec ctx)) in *.
  set (L := ndigitsZ (cz x)) in *.
  assert (HP : 0 < P) by (unfold P; lia).
  assert (Hov : L + dexp x - P <= Etop ctx).
  { unfold Etop. fold P.
    destruct (Z_le_gt_dec (L + dexp x - 1) (Emax ctx)) as [|Hgt]; [lia|].
    pose proof (represents_lower _ _ _ Hc Hrep ltac:(fold L; lia)) as Hlow.
    fold L in Hlow.
    assert (10 ^ (Emax ctx + 1) <= 10 ^ (L - 1 + dexp x))
      by (apply Z.pow_le_mono_r; lia).
    lia. }
  replace (L + dexp x - P >? Etop ctx) with false
    by (symmetry; rewrite Z.gtb_ltb; apply Z.ltb_ge; lia).
  set (exp_min := Z.max (L + dexp x - P) (Etiny ctx)) in *.
  destruct (dexp x <? exp_min) eqn:Hlt.
  - apply Z.ltb_lt in Hlt.
    destruct (Hdiv Hlt) as [u Hu].
    set (n := exp_min - dexp x) in *.
    assert (Hn : 0 < n) by (unfold n; lia).
    pose proof (pow10_pos n ltac:(lia)) as Hpn.
    assert (Hu0 : 0 < u) by nia.
    rewrite Hu, round_half_even_exact by lia.
    assert (HuP : u < 10 ^ P).
    { destruct (ndigitsZ_spec _ Hc) as (_ & _ & Hup). fold L in Hup.
      assert (HLn : L <= P + n) by (unfold n, exp_min; lia).
      assert (10 ^ L <= 10 ^ (P + n)) by (apply Z.pow_le_mono_r; lia).
      rewrite Z.pow_add_r in * by lia.
      apply Z.mul_lt_mono_pos_r with (p := 10 ^ n); lia. }
    replace (ndigitsZ u >? P) with false
      by (symmetry; rewrite Z.gtb_ltb; apply Z.ltb_ge, ndigitsZ_le; lia).
    replace (exp_min >? Etop ctx) with false
      by (symmetry; rewrite Z.gtb_ltb; apply Z.ltb_ge;
          unfold exp_min, Etop, Etiny in *; lia).
    eexists. split; [reflexivity|]. split; [reflexivity|].
    unfold cz. simpl. rewrite Z2N.id by lia.
    replace exp_min with (dexp x + n) by (unfold n; lia).
    apply represents_shift; [lia|]. now rewrite <- Hu.
  - eexists. split; [reflexivity|]. split; [reflexivity | assumption].
Qed.

(** The integer part of what [fix_] returns fits the context. *)
Lemma to_int_fits (ctx : Context) (x m : Decimal) :
  fix_ ctx x = Ok m -> 0 < Z.abs (to_int m) -> fits ctx (Z.abs (to_int m)).
Proof.
  intros Hfix Hpos.
  pose proof (fix_digits _ _ _ Hfix) as Hdig.
  rewrite to_int_abs in *.
  set (P := Zpos (prec ctx)) in *.
  assert (HP : 0 < P) by (unfold P; lia).
  assert (Hc0 : 0 <= cz m) by (unfold cz; lia).
  assert (Hc : 0 < cz m).
  { destruct (Z.eq_dec (cz m) 0) as [Hz|]; [|lia].
    rewrite Hz in Hpos. rewrite Z.mul_0_l, Z.div_0_l in Hpos.
    - now destruct (0 <=? dexp m).
    - destruct (0 <=? dexp m) eqn:He; [discriminate|].
      apply Z.leb_gt in He. pose proof (pow10_pos (- dexp m) ltac:(lia)). lia. }
  assert (Hnz : dcoeff m <> 0%N) by (unfold cz in Hc; lia).
  pose proof (fix_adjusted _ _ _ Hfix Hnz) as Hadj. unfold adjusted in Hadj.
  change (ndigits (dcoeff m)) with (ndigitsZ (cz m)) in *.
  destruct (ndigitsZ_spec _ Hc) as (Hn1 & Hlo & Hup).
  set (L := ndigitsZ (cz m)) in *.
  assert (HcP : cz m < 10 ^ P).
  { apply Z.lt_le_trans with (1 := Hup). apply Z.pow_le_mono_r; lia. }
  destruct (0 <=? dexp m) eqn:He.
  - apply Z.leb_le in He. pose proof (pow10_pos _ He) as Hpe. split.
    + exists (cz m), (dexp m). auto.
    + apply Z.lt_le_trans with (10 ^ (L + dexp m)).
      * rewrite Z.pow_add_r by lia. apply Z.mul_lt_mono_pos_r; lia.
      * apply Z.pow_le_mono_r; lia.
  - apply Z.leb_gt in He.
    pose proof (pow10_pos (- dexp m) ltac:(lia)) as Hpe.
    set (a := cz m / 10 ^ (- dexp m)) in *.
    assert (Hmul : a * 10 ^ (- dexp m) <= cz m)
      by (unfold a; rewrite Z.mul_comm; apply Z.mul_div_le; lia).
    assert (Hle : a <= cz m) by nia.
    assert (HLe : 0 <= L + dexp m).
    { destruct (Z_le_gt_dec 0 (L + dexp m)) as [|Hgt]; [assumption|].
      assert (10 ^ L <= 10 ^ (- dexp m)) by (apply Z.pow_le_mono_r; lia).
      nia. }
    split.
    + exists a, 0. rewrite Z.pow_0_r, Z.mul_1_r. fold P. repeat split; lia.
    + apply Z.lt_le_trans with (10 ^ (L + dexp m)).
      * apply Z.mul_lt_mono_pos_r with (p := 10 ^ (- dexp m)); [lia|].
        rewrite <- Z.pow_add_r by lia.
        replace (L + dexp m + - dexp m) with L by lia. lia.
      * apply Z.pow_le_mono_r; lia.
Qed.

Lemma signed_mul (q k : Decimal) :
  signed q * signed k
  = if xorb (dsign q) (dsign k) then - (cz q * cz k) else cz q * cz k.
Proof. unfold signed. destruct (dsign q), (dsign k); simpl; ring. Qed.

(** A product whose exact value is an integer that fits the context is
    that integer. *)
Lemma mul_integer (ctx : Context) (q k : Decimal) (v : Z) :
  integer_range ctx ->
  product_is q k v ->
  (v <> 0 -> fits ctx (Z.abs v)) ->
  exists m, mul ctx q k = Ok m /\ to_int m = v.
Proof.
  intros Hadm Hprod Hfits. unfold mul, product_is in *.
  rewrite signed_mul in Hprod.
  set (e := dexp q + dexp k) in *.
  set (s := xorb (dsign q) (dsign k)) in *.
  assert (Hp1 : 0 < 10 ^ Z.max e 0) by (apply pow10_pos; lia).
  assert (Hp2 : 0 < 10 ^ Z.max (- e) 0) by (apply pow10_pos; lia).
  assert (Hcq : 0 <= cz q) by (unfold cz; lia).
  assert (Hck : 0 <= cz k) by (unfold cz; lia).
  assert (Hcz : Z.of_N (dcoeff q * dcoeff k) = cz q * cz k)
    by (unfold cz; lia).
  unfold represents in Hprod.
  destruct (Z.eq_dec v 0) as [->|Hv].
  - (* the product is a zero *)
    assert (Hzero : (dcoeff q * dcoeff k)%N = 0%N) by (destruct s; nia).
    unfold fix_. simpl. rewrite Hzero. simpl.
    eexists. split; [reflexivity|].
    unfold to_int, cz. simpl. rewrite Zdiv_0_l.
    now destruct (0 <=? _), s.
  - specialize (Hfits Hv).
    assert (Hnz : (dcoeff q * dcoeff k)%N <> 0%N) by (destruct s; nia).
    assert (Hrep : represents (cz q * cz k) e (Z.abs v)).
    { unfold represents. destruct s; nia. }
    destruct (fix_integer ctx (mkDec s (dcoeff q * dcoeff k) e) (Z.abs v))
      as (m & Hfix & Hsign & Hm); simpl; auto.
    { unfold cz. simpl. now rewrite Hcz. }
    exists m. split; [assumption|].
    unfold to_int. rewrite (to_int_represents _ _ _ Hm), Hsign. simpl.
    destruct s; nia.
Qed.

End DecimalFacts.

(* ===================================================================== *)
(** * Properties of the scale transform *)
(* ===================================================================== *)

Lemma integer_range_with_prec (ctx : Dec.Context) (p : option positive) :
  integer_range ctx -> integer_range (Dec.with_prec ctx p).
Proof. now destruct p. Qed.

(** A product that converts to an integer is a product of finite
    numbers: a NaN and an infinity do not convert. *)
Lemma product_to_int_finite (ctx : Dec.Context) (a b : Dec.number) (v : Z) :
  (m <- Dec.number_mul ctx a b ;; n <- Dec.number_to_int m ;; Ok (PInt n))
  = Ok (PInt v) ->
  exists x y m,
    a = Dec.Finite x /\ b = Dec.Finite y
    /\ Dec.mul ctx x y = Ok m /\ Dec.to_int m = v.
Proof.
  destruct a as [x|[sa|sa [|] pa]], b as [y|[sb|sb [|] pb]]; simpl;
    try discriminate;
    try (destruct (dcoeff _ =? 0)%N; simpl; discriminate).
  destruct (Dec.mul ctx x y) as [m|] eqn:Hm; simpl; [|discriminate].
  intros [= <-]. eauto 10.
Qed.

(** C5 as stated fails: under a precision of 2 digits, 100 is what
    [multiply] makes of 15 with the factor 7, yet dividing 100 by 7 gives
    14 and multiplying 14 by 7 gives 98. *)
Lemma scale_round_trip_counterexample :
  ~ (forall (ctx : Dec.Context) (precision : option positive)
            (x k : pyval) (v : Z),
        IntegerField.multiply ctx x k false precision = Ok (PInt v) ->
        (q <- IntegerField.multiply ctx (PInt v) k true precision ;;
         IntegerField.multiply ctx q k false precision) = Ok (PInt v)).
Proof.
  intros H.
  specialize (H Dec.DefaultContext (Some 2%positive) (PInt 15) (PInt 7) 100).
  vm_compute in H.
  assert (Heq : @Ok pyval (PInt 98) = Ok (PInt 100)) by (apply H; reflexivity).
  discriminate Heq.
Qed.

(** With the default precision of 28 digits the same happens for the
    factor 3: 1, made from 0.5, comes back as 0. *)
Example scale_round_trip_third :
  IntegerField.multiply Dec.DefaultContext (PStr "0.5") (PInt 3) false None
  = Ok (PInt 1)
  /\ (q <- IntegerField.multiply Dec.DefaultContext (PInt 1) (PInt 3) true None ;;
      IntegerField.multiply Dec.DefaultContext q (PInt 3) false None)
     = Ok (PInt 0).
Proof. split; vm_compute; reflexivity. Qed.

(** C5, amended.  Let [v] be an integer produced by a forward
    [multiply] with the factor [k] under the precision [p].  If the
    quotient [q] that the reverse direction computes from [v] is exact,
    [q * k = v], then dividing and multiplying again gives back [v]. *)
Theorem scale_round_trip (ctx : Dec.Context) (precision : option positive)
    (x k : pyval) (v : Z) (q : Decimal) :
  integer_range ctx ->
  IntegerField.multiply ctx x k false precision = Ok (PInt v) ->
  IntegerField.multiply ctx (PInt v) k true precision = Ok (PDec q) ->
  quotient_exact q k v ->
  (r <- IntegerField.multiply ctx (PInt v) k true precision ;;
   IntegerField.multiply ctx r k false precision) = Ok (PInt v).
Proof.
  intros Hadm Hfwd Hrev Hexact. rewrite Hrev. simpl.
  apply (integer_range_with_prec _ precision) in Hadm.
  unfold IntegerField.multiply, PyOps.dec_times, quotient_exact in *.
  set (ctx' := Dec.with_prec ctx precision) in *.
  destruct (PyOps.Decimal_of x) as [a|]; [|discriminate]. simpl in Hfwd |- *.
  destruct (PyOps.convert_other k) as [b|]; [|contradiction].
  apply product_to_int_finite in Hfwd as (d & kd & m & -> & -> & Hm & Hv).
  destruct (mul_integer ctx' q kd v Hadm Hexact) as (m' & Hm' & Hint).
  - intros Hnz. subst v. apply (to_int_fits ctx' _ m Hm). lia.
  - simpl. rewrite Hm'. simpl. now rewrite Hint.
Qed.

(** The price 12.34 scaled by 100 is 1234; 1234 / 100 is exactly 12.34,
    and scaling again gives 1234. *)
Lemma scale_round_trip_witness :
  (r <- IntegerField.multiply Dec.DefaultContext (PInt 1234) (PInt 100) true None ;;
   IntegerField.multiply Dec.DefaultContext r (PInt 100) false None)
  = Ok (PInt 1234).
Proof.
  apply (scale_round_trip Dec.DefaultContext None (PStr "12.34") (PInt 100)
           1234 (mkDec false 1234 (-2))).
  - unfold integer_range. simpl. lia.
  - vm_compute. reflexivity.
  - vm_compute. reflexivity.
  - vm_compute. reflexivity.
Defined.

Lemma div_digits (ctx : Dec.Context) (a b q : Decimal) :
  Dec.div ctx a b = Ok q -> Dec.ndigits (dcoeff q) <= Zpos (Dec.prec ctx).
Proof.
  unfold Dec.div.
  destruct (dcoeff b =? 0)%N.
  - destruct (dcoeff a =? 0)%N; discriminate.
  - destruct (dcoeff a =? 0)%N; [apply fix_digits|].
    destruct (if 0 <=? _ then _ else _) as [quo r].
    destruct (r =? 0).
    + destruct (Dec.strip_zeros _ _ _) as [q' e']. apply fix_digits.
    + apply fix_digits.
Qed.

(** C6.  With the operand converted to the finite decimal [d] and the
    factor to the finite decimal [k], and with [precision], when given, as the precision of the
    context: the forward direction returns the integer obtained by
    cutting off, not rounding, the product of [d] and [k], which is the
    exact product rounded to at most [precision] significant digits; the
    reverse direction returns the quotient of [d] by [k] as the division
    leaves it: a decimal of at most [precision] significant digits,
    within one unit of its last place of the exact quotient, and not cut
    off. *)
Theorem scale_directions (ctx : Dec.Context) (operand value : pyval)
    (precision : option positive) (d k : Decimal) :
  PyOps.Decimal_of operand = Ok (Dec.Finite d) ->
  PyOps.convert_other value = Some (Dec.Finite k) ->
  let ctx' := Dec.with_prec ctx precision in
  Dec.prec ctx' = match precision with Some p => p | None => Dec.prec ctx end
  /\ match Dec.mul ctx' d k with
     | Ok m =>
         IntegerField.multiply ctx operand value false precision
         = Ok (PInt (Dec.to_int m))
         /\ Dec.ndigits (dcoeff m) <= Zpos (Dec.prec ctx')
         /\ (dcoeff (exact_product d k) <> 0%N -> nearest (exact_product d k) m)
         /\ truncates m (Dec.to_int m)
     | Raise e =>
         IntegerField.multiply ctx operand value false precision = Raise e
     end
  /\ match Dec.div ctx' d k with
     | Ok q =>
         IntegerField.multiply ctx operand value true precision = Ok (PDec q)
         /\ Dec.ndigits (dcoeff q) <= Zpos (Dec.prec ctx')
         /\ within_ulp d k q
     | Raise e =>
         IntegerField.multiply ctx operand value true precision = Raise e
     end.
Proof.
  intros Hd Hk ctx'. split; [now destruct precision|].
  unfold IntegerField.multiply, PyOps.dec_times, PyOps.dec_over.
  rewrite Hd, Hk. fold ctx'. simpl. split.
  - destruct (Dec.mul ctx' d k) as [m|e] eqn:Hm; [|reflexivity].
    split; [reflexivity|]. split; [|split].
    + apply (fix_digits _ _ _ Hm).
    + intros Hnz. apply (fix_nearest _ _ _ Hm Hnz).
    + apply to_int_truncates.
  - destruct (Dec.div ctx' d k) as [q|e] eqn:Hq; [|reflexivity].
    split; [reflexivity|]. split.
    + apply (div_digits _ _ _ _ Hq).
    + apply (div_within_ulp _ _ _ _ Hq).
Qed.

(** 0.19 times 10 is 1.9 and becomes 1, not 2; 5 divided by 2 stays
    2.5. *)
Lemma scale_directions_witness :
  IntegerField.multiply Dec.DefaultContext (PStr "0.19") (PInt 10) false None
  = Ok (PInt 1)
  /\ IntegerField.multiply Dec.DefaultContext (PInt 5) (PInt 2) true None
     = Ok (PDec (mkDec false 25 (-1))).
Proof.
  split.
  - assert (Hd : PyOps.Decimal_of (PStr "0.19")
                 = Ok (Dec.Finite (mkDec false 19 (-2))))
      by (vm_compute; reflexivity).
    destruct (scale_directions Dec.DefaultContext (PStr "0.19") (PInt 10) None
                (mkDec false 19 (-2)) (Dec.of_int 10) Hd eq_refl)
      as (_ & H & _).
    assert (Hm : Dec.mul (Dec.with_prec Dec.DefaultContext None)
                   (mkDec false 19 (-2)) (Dec.of_int 10)
                 = Ok (mkDec false 190 (-2))) by (vm_compute; reflexivity).
    rewrite Hm in H. destruct H as [H _].
    rewrite H. vm_compute. reflexivity.
  - destruct (scale_directions Dec.DefaultContext (PInt 5) (PInt 2) None
                (Dec.of_int 5) (Dec.of_int 2) eq_refl eq_refl)
      as (_ & _ & H).
    assert (Hq : Dec.div (Dec.with_prec Dec.DefaultContext None)
                   (Dec.of_int 5) (Dec.of_int 2)
                 = Ok (mkDec false 25 (-1))) by (vm_compute; reflexivity).
    rewrite Hq in H. destruct H as [H _]. exact H.
Defined.

(* ===================================================================== *)
(** * Further properties: key paths and the import of a field *)
(* ===================================================================== *)

Import Paths MoreNotions.

Section KeyPaths.

Variable ctx : Dec.Context.

(** Both walks follow a path whose segments are all present. *)
Lemma field_walk_at_path (steps rest : list string) (data v : pyval) :
  at_path steps data v ->
  Field.walk (steps ++ rest) data = Field.walk rest v.
Proof.
  induction 1 as [v|step steps d x v Hstep _ IH]; simpl; [reflexivity|].
  unfold dict_get. now rewrite Hstep.
Qed.

Lemma record_walk_at_path (steps rest : list string) (data v : pyval) :
  at_path steps data v ->
  BindableModelSerializer.walk (steps ++ rest) data
  = BindableModelSerializer.walk rest v.
Proof.
  induction 1 as [v|step steps d x v Hstep _ IH]; simpl; [reflexivity|].
  unfold dict_get. now rewrite Hstep.
Qed.

(** After a missing segment the walk of the record goes on through
    empty mappings. *)
Lemma record_walk_empty (steps : list string) :
  BindableModelSerializer.walk steps (PDict []) = Ok (PDict []).
Proof. induction steps as [|step steps IH]; simpl; [reflexivity | exact IH]. Qed.

(** What the field does once its key is resolved to [v]. *)
Lemma import_after_walk (self : Field.t) (k : string) (d : dict)
    (r : result pyval) :
  Field.key self = Some k ->
  Field.walk (split "." k) (PDict d) = r ->
  Field.to_internal_value ctx self (PDict d)
  = (v <- r ;; Field.to_internal_value ctx (without_key self) v).
Proof.
  intros Hkey <-. unfold Field.to_internal_value. rewrite Hkey. simpl.
  now destruct (Field.walk (split "." k) (PDict d)).
Qed.

(** An offset step called with the [precision] keyword raises, so a
    pipeline that holds one never runs to its end. *)
Lemma run_methods_offset (p : option positive)
    (methods : list (Field.transform * pyval)) (x : pyval) :
  existsb is_offset (map fst methods) = true ->
  forall v, Field.run_methods ctx (Field.mkKw None (Some p)) methods x <> Ok v.
Proof.
  revert x.
  induction methods as [|[t param] methods IH]; intros x Hoff v; simpl in *;
    [discriminate|].
  destruct t; simpl in *; try discriminate.
  - destruct (IntegerField.multiply ctx x param false p) as [y|e]; simpl;
      [now apply IH | discriminate].
  - destruct (f x param _) as [y|e]; simpl; [now apply IH | discriminate].
Qed.

End KeyPaths.

(** X1.  A field whose pipeline holds an [add] or a [subtract] step
    never imports a value: [to_internal_value] passes [precision=] to
    every transform, which these two do not accept. *)
Theorem import_with_offset_never_succeeds (ctx : Dec.Context) (self : Field.t)
    (data v : pyval) :
  existsb is_offset (map fst (Field.import_methods self)) = true ->
  Field.to_internal_value ctx self data <> Ok v.
Proof.
  intros Hoff. unfold Field.to_internal_value.
  destruct (match Field.key self with
            | Some k => _
            | None => _
            end) as [r1|e]; simpl; [|discriminate].
  destruct (Field.run_methods ctx _ (Field.import_methods self) r1) as [r2|e]
    eqn:Hrun; simpl; [|discriminate].
  now apply run_methods_offset in Hrun.
Qed.

Lemma import_with_offset_never_succeeds_witness :
  Field.to_internal_value Dec.DefaultContext
    (field_with None [(Field.Multiply, PInt 100); (Field.Add, PInt 5)])
    (PInt 7)
  <> Ok (PInt 705).
Proof.
  apply import_with_offset_never_succeeds. reflexivity.
Defined.

(** X2.  A field with a key, given a mapping in which every segment of
    the key is present, imports the value found at the path as a field
    without key imports that value. *)
Theorem import_resolves_key_path (ctx : Dec.Context) (self : Field.t)
    (k : string) (d : dict) (v : pyval) :
  Field.key self = Some k ->
  at_path (split "." k) (PDict d) v ->
  Field.to_internal_value ctx self (PDict d)
  = Field.to_internal_value ctx (without_key self) v.
Proof.
  intros Hkey Hpath.
  rewrite (import_after_walk ctx self k d (Ok v) Hkey); [reflexivity|].
  rewrite <- (app_nil_r (split "." k)).
  now rewrite (field_walk_at_path _ _ _ _ Hpath).
Qed.

Lemma import_resolves_key_path_witness :
  Field.to_internal_value Dec.DefaultContext
    (field_with (Some "a.b.c") [(Field.Multiply, PInt 100)]) nested
  = Field.to_internal_value Dec.DefaultContext
      (without_key (field_with (Some "a.b.c") [(Field.Multiply, PInt 100)]))
      (PInt 5).
Proof.
  apply (import_resolves_key_path Dec.DefaultContext _ "a.b.c"); [reflexivity|].
  repeat (eapply at_step; [reflexivity|]). apply at_here.
Defined.

(** X3.  When the mapping reached along the key lacks the next segment:
    if that segment is the last one, the field imports [None]; if
    segments follow, the import raises [AttributeError]. *)
Theorem import_missing_segment (ctx : Dec.Context) (self : Field.t)
    (k : string) (d m : dict) (pre : list string) (s : string) :
  Field.key self = Some k ->
  at_path pre (PDict d) (PDict m) ->
  dict_lookup s m = None ->
  (split "." k = pre ++ [s] ->
   Field.to_internal_value ctx self (PDict d)
   = Field.to_internal_value ctx (without_key self) PNone)
  /\ (forall t post, split "." k = pre ++ s :: t :: post ->
      Field.to_internal_value ctx self (PDict d) = Raise AttributeError).
Proof.
  intros Hkey Hpath Hmiss. split.
  - intros Hsplit.
    rewrite (import_after_walk ctx self k d (Ok PNone) Hkey); [reflexivity|].
    rewrite Hsplit, (field_walk_at_path _ _ _ _ Hpath). simpl.
    unfold dict_get. now rewrite Hmiss.
  - intros t post Hsplit.
    rewrite (import_after_walk ctx self k d (Raise AttributeError) Hkey);
      [reflexivity|].
    rewrite Hsplit, (field_walk_at_path _ _ _ _ Hpath). simpl.
    unfold dict_get. now rewrite Hmiss.
Qed.

Lemma import_missing_segment_witness :
  Field.to_internal_value Dec.DefaultContext
    (field_with (Some "a.b.x") []) nested = Ok PNone
  /\ Field.to_internal_value Dec.DefaultContext
       (field_with (Some "a.x.c.d") []) nested = Raise AttributeError.
Proof.
  split.
  - destruct (import_missing_segment Dec.DefaultContext
                (field_with (Some "a.b.x") []) "a.b.x"
                [("a", PDict [("b", PDict [("c", PInt 5)])])]
                [("c", PInt 5)] ["a"; "b"] "x") as [H _];
      [reflexivity | | reflexivity |].
    + repeat (eapply at_step; [reflexivity|]). apply at_here.
    + exact (H eq_refl).
  - destruct (import_missing_segment Dec.DefaultContext
                (field_with (Some "a.x.c.d") []) "a.x.c.d"
                [("a", PDict [("b", PDict [("c", PInt 5)])])]
                [("b", PDict [("c", PInt 5)])] ["a"] "x") as [_ H];
      [reflexivity | | reflexivity |].
    + repeat (eapply at_step; [reflexivity|]). apply at_here.
    + apply (H "c" ["d"]). reflexivity.
Defined.

(** X4.  When the walk along the key meets a value that is no mapping
    before the last segment, the import raises [AttributeError]. *)
Theorem import_scalar_on_path_raises (ctx : Dec.Context) (self : Field.t)
    (k : string) (d : dict) (pre : list string) (x : pyval) (t : string)
    (post : list string) :
  Field.key self = Some k ->
  at_path pre (PDict d) x ->
  is_dict x = false ->
  split "." k = pre ++ t :: post ->
  Field.to_internal_value ctx self (PDict d) = Raise AttributeError.
Proof.
  intros Hkey Hpath Hx Hsplit.
  rewrite (import_after_walk ctx self k d (Raise AttributeError) Hkey);
    [reflexivity|].
  rewrite Hsplit, (field_walk_at_path _ _ _ _ Hpath).
  destruct x; simpl; try reflexivity. discriminate.
Qed.

Lemma import_scalar_on_path_raises_witness :
  Field.to_internal_value Dec.DefaultContext
    (field_with (Some "a.b.c.d") []) nested = Raise AttributeError.
Proof.
  apply (import_scalar_on_path_raises Dec.DefaultContext _ "a.b.c.d"
           [("a", PDict [("b", PDict [("c", PInt 5)])])]
           ["a"; "b"; "c"] (PInt 5) "d" []); try reflexivity.
  repeat (eapply at_step; [reflexivity|]). apply at_here.
Defined.

(** X5.  When the last segment of the key is missing and the pipeline
    starts with [multiply], the import raises [TypeError]: the absent
    value, [None], goes into [Decimal(...)], and the coercion of the
    framework class is not reached. *)
Theorem absent_value_breaks_scale (ctx : Dec.Context) (self : Field.t)
    (k : string) (d m : dict) (pre : list string) (s : string)
    (factor : pyval) (rest : list (Field.transform * pyval)) :
  Field.key self = Some k ->
  split "." k = pre ++ [s] ->
  at_path pre (PDict d) (PDict m) ->
  dict_lookup s m = None ->
  Field.import_methods self = (Field.Multiply, factor) :: rest ->
  Field.to_internal_value ctx self (PDict d)
  = Raise (TypeError "conversion to Decimal is not supported").
Proof.
  intros Hkey Hsplit Hpath Hmiss Hmethods.
  rewrite (import_after_walk ctx self k d (Ok PNone) Hkey).
  - simpl. unfold Field.to_internal_value. simpl. now rewrite Hmethods.
  - rewrite Hsplit, (field_walk_at_path _ _ _ _ Hpath). simpl.
    unfold dict_get. now rewrite Hmiss.
Qed.

Lemma absent_value_breaks_scale_witness :
  Field.to_internal_value Dec.DefaultContext
    (field_with (Some "price") [(Field.Multiply, PInt 100)])
    (PDict [("name", PStr "ok")])
  = Raise (TypeError "conversion to Decimal is not supported").
Proof.
  apply (absent_value_breaks_scale Dec.DefaultContext _ "price"
           [("name", PStr "ok")] [("name", PStr "ok")] [] "price"
           (PInt 100) []); try reflexivity.
  apply at_here.
Defined.

(* ===================================================================== *)
(** * Further properties: the transforms *)
(* ===================================================================== *)

Section Transforms.

Import Dec PyOps.

Variable ctx : Context.

Lemma cz_of_int (z : Z) : cz (of_int z) = Z.abs z.
Proof. unfold cz, of_int. simpl. lia. Qed.

Lemma signed_of_int (z : Z) : signed (of_int z) = z.
Proof.
  unfold signed. rewrite cz_of_int. unfold of_int. simpl.
  destruct (z <? 0) eqn:Hz; [apply Z.ltb_lt in Hz | apply Z.ltb_ge in Hz]; lia.
Qed.

Lemma to_int_zero (s : bool) (e : Z) : to_int (mkDec s 0 e) = 0.
Proof.
  unfold to_int, cz. simpl. rewrite Zdiv_0_l. now destruct (0 <=? e), s.
Qed.

(** Rounding does not look at the sign. *)
Lemma fix_neg (x : Decimal) :
  fix_ ctx (neg x)
  = match fix_ ctx x with
    | Ok y => Ok (neg y)
    | Raise e => Raise e
    end.
Proof.
  unfold fix_, neg, cz. simpl.
  destruct (dcoeff x =? 0)%N; [reflexivity|].
  destruct (_ >? Etop ctx); [reflexivity|].
  destruct (dexp x <? _); [|reflexivity].
  destruct (ndigitsZ _ >? _); destruct (_ >? Etop ctx); reflexivity.
Qed.

Lemma to_int_neg (y : Decimal) : to_int (neg y) = - to_int y.
Proof. unfold to_int, neg, cz. simpl. destruct (dsign y); simpl; lia. Qed.

Lemma mul_neg (a b : Decimal) :
  mul ctx (neg a) b
  = match mul ctx a b with
    | Ok y => Ok (neg y)
    | Raise e => Raise e
    end.
Proof.
  unfold mul. rewrite <- fix_neg. unfold neg. simpl.
  now destruct (dsign a), (dsign b).
Qed.

(** Stripping as many zeros as were appended gives back the number. *)
Lemma strip_zeros_pow (n : nat) (c e : Z) :
  strip_zeros n (c * 10 ^ Z.of_nat n) e = (c, e + Z.of_nat n).
Proof.
  revert e.
  induction n as [|n IH]; intros e.
  - simpl. f_equal; lia.
  - cbn [strip_zeros].
    rewrite Nat2Z.inj_succ, Z.pow_succ_r by lia.
    replace (c * (10 * 10 ^ Z.of_nat n)) with (c * 10 ^ Z.of_nat n * 10) by ring.
    rewrite Z.mod_mul, Z.div_mul by lia. simpl.
    rewrite IH. f_equal. lia.
Qed.

Lemma div_eucl_exact (c k : Z) : 0 < k -> Z.div_eucl (c * k) k = (c, 0).
Proof.
  intros Hk.
  assert (H : Z.div_eucl (c * k) k = ((c * k) / k, (c * k) mod k))
    by (unfold Z.div, Z.modulo; now destruct (Z.div_eucl (c * k) k)).
  rewrite H, Z.div_mul, Z.mod_mul by lia. reflexivity.
Qed.

(** A number of at most [prec] digits at the exponent 0 is left alone. *)
Lemma fix_small_integer (s : bool) (c : Z) :
  integer_range ctx ->
  0 < c < 10 ^ Zpos (prec ctx) ->
  Zpos (prec ctx) <= Emax ctx + 1 ->
  fix_ ctx (mkDec s (Z.to_N c) 0) = Ok (mkDec s (Z.to_N c) 0).
Proof.
  intros [Hmin Hmax] Hc HP. unfold fix_. simpl.
  replace (Z.to_N c =? 0)%N with false by (symmetry; apply N.eqb_neq; lia).
  rewrite ndigits_to_N by lia.
  pose proof (ndigitsZ_le c (Zpos (prec ctx)) ltac:(lia) ltac:(lia)) as Hnd.
  pose proof (ndigitsZ_ge1 c) as Hnd1.
  unfold Etop, Etiny.
  replace (ndigitsZ c + 0 - Zpos (prec ctx) >? Emax ctx - Zpos (prec ctx) + 1)
    with false by (symmetry; rewrite Z.gtb_ltb; apply Z.ltb_ge; lia).
  replace (0 <? Z.max (ndigitsZ c + 0 - Zpos (prec ctx))
                      (Emin ctx - Zpos (prec ctx) + 1))
    with false by (symmetry; apply Z.ltb_ge; lia).
  reflexivity.
Qed.

(** Offsets undone one after the other, in any order, take the net
    offset away. *)
Lemma compose_inverted_offsets (steps : list (Field.transform * pyval))
    (n x : Z) :
  net_offset steps = Some n ->
  compose_inverted ctx steps (PInt x) = Ok (PInt (x - n)).
Proof.
  revert n.
  induction steps as [|[t param] steps IH]; intros n Hnet; simpl in *.
  - injection Hnet as <-. unfold compose_inverted. simpl. do 2 f_equal. lia.
  - unfold compose_inverted in *. simpl.
    destruct t; try discriminate; destruct param; try discriminate;
      destruct (net_offset steps) as [n'|]; try discriminate;
      injection Hnet as <-; rewrite (IH n' eq_refl); simpl;
      unfold inv, Field.call_method; simpl;
      unfold IntegerField.add, IntegerField.subtract, py_add, py_sub; simpl;
      do 2 f_equal; lia.
Qed.

Lemma net_offset_app (a b : list (Field.transform * pyval)) :
  net_offset (a ++ b)
  = match net_offset a, net_offset b with
    | Some n, Some m => Some (n + m)
    | _, _ => None
    end.
Proof.
  induction a as [|[t param] a IH]; simpl.
  - now destruct (net_offset b).
  - destruct t; try reflexivity; destruct param; try reflexivity;
      rewrite IH; destruct (net_offset a), (net_offset b); simpl;
      try reflexivity; f_equal; lia.
Qed.

Lemma net_offset_rev (steps : list (Field.transform * pyval)) :
  net_offset (rev steps) = net_offset steps.
Proof.
  induction steps as [|[t param] steps IH]; simpl; [reflexivity|].
  rewrite net_offset_app, IH. simpl.
  destruct t; simpl; try (now destruct (net_offset steps));
    destruct param; simpl; try (now destruct (net_offset steps));
    destruct (net_offset steps); simpl; try reflexivity; f_equal; lia.
Qed.

End Transforms.

(** X6.  With the factor 0 the forward direction gives 0 for every
    operand that converts to a finite decimal, and the reverse direction
    raises: [DivisionByZero], or [InvalidOperation] when the operand is
    a zero itself.  (An operand that converts to a NaN or an infinity
    behaves otherwise.) *)
Theorem multiply_zero_factor (ctx : Dec.Context) (operand : pyval)
    (precision : option positive) (d : Decimal) :
  PyOps.Decimal_of operand = Ok (Dec.Finite d) ->
  IntegerField.multiply ctx operand (PInt 0) false precision = Ok (PInt 0)
  /\ IntegerField.multiply ctx operand (PInt 0) true precision
     = Raise (DecimalException
                (if (dcoeff d =? 0)%N then InvalidOperation else DivisionByZero)).
Proof.
  intros Hd. unfold IntegerField.multiply. rewrite Hd. simpl. split.
  - unfold PyOps.dec_times. simpl. unfold Dec.mul, Dec.fix_. simpl.
    rewrite N.mul_0_r. simpl. now rewrite to_int_zero.
  - unfold PyOps.dec_over. simpl. unfold Dec.div. simpl.
    now destruct (dcoeff d =? 0)%N.
Qed.

Lemma multiply_zero_factor_witness :
  IntegerField.multiply Dec.DefaultContext (PStr "12.34") (PInt 0) false None
  = Ok (PInt 0)
  /\ IntegerField.multiply Dec.DefaultContext (PStr "12.34") (PInt 0) true None
     = Raise (DecimalException DivisionByZero).
Proof.
  assert (Hd : PyOps.Decimal_of (PStr "12.34")
               = Ok (Dec.Finite (mkDec false 1234 (-2))))
    by (vm_compute; reflexivity).
  exact (multiply_zero_factor Dec.DefaultContext (PStr "12.34") None _ Hd).
Defined.

(** X7.  On integers the forward direction is exact while the product
    has no more digits than the precision: it returns [x * k]. *)
Theorem multiply_exact_on_integers (ctx : Dec.Context)
    (precision : option positive) (x k : Z) :
  let ctx' := Dec.with_prec ctx precision in
  integer_range ctx ->
  Z.abs (x * k) < 10 ^ Zpos (Dec.prec ctx') ->
  Zpos (Dec.prec ctx') <= Dec.Emax ctx' + 1 ->
  IntegerField.multiply ctx (PInt x) (PInt k) false precision
  = Ok (PInt (x * k)).
Proof.
  intros ctx' Hrange Hfit HP.
  apply (integer_range_with_prec _ precision) in Hrange. fold ctx' in Hrange.
  unfold IntegerField.multiply, PyOps.dec_times. simpl. fold ctx'.
  destruct (mul_integer ctx' (Dec.of_int x) (Dec.of_int k) (x * k) Hrange)
    as (m & Hm & Hint).
  - unfold product_is, represents. rewrite !signed_of_int. simpl. lia.
  - intros Hnz. split.
    + exists (Z.abs (x * k)), 0. rewrite Z.pow_0_r. lia.
    + apply Z.lt_le_trans with (1 := Hfit). apply Z.pow_le_mono_r; lia.
  - rewrite Hm. simpl. now rewrite Hint.
Qed.

Lemma multiply_exact_on_integers_witness :
  IntegerField.multiply Dec.DefaultContext (PInt (-1234)) (PInt 100) false
    (Some 6%positive)
  = Ok (PInt (-123400)).
Proof.
  apply (multiply_exact_on_integers Dec.DefaultContext (Some 6%positive)
           (-1234) 100).
  - unfold integer_range. simpl. lia.
  - simpl. lia.
  - simpl. lia.
Defined.

(** X8.  Dividing a multiple [x * k] of a positive integer factor [k]
    gives back [x] exactly, as the decimal [Decimal(x)], while [x * k]
    has no more digits than the precision: what the forward direction
    made of an integer, the reverse direction undoes. *)
Theorem multiply_reverse_recovers_integer (ctx : Dec.Context)
    (precision : option positive) (x k : Z) :
  let ctx' := Dec.with_prec ctx precision in
  integer_range ctx ->
  0 < k ->
  Z.abs (x * k) < 10 ^ Zpos (Dec.prec ctx') ->
  Zpos (Dec.prec ctx') <= Dec.Emax ctx' + 1 ->
  IntegerField.multiply ctx (PInt (x * k)) (PInt k) true precision
  = Ok (PDec (Dec.of_int x)).
Proof.
  intros ctx' Hrange Hk Hfit HP.
  apply (integer_range_with_prec _ precision) in Hrange. fold ctx' in Hrange.
  unfold IntegerField.multiply, PyOps.dec_over. simpl. fold ctx'.
  set (P := Zpos (Dec.prec ctx')) in *.
  assert (HpP : 0 < 10 ^ P) by (apply pow10_pos; unfold P; lia).
  unfold Dec.div.
  change (Dec.ndigits (dcoeff (Dec.of_int k)))
    with (Dec.ndigitsZ (Dec.cz (Dec.of_int k))).
  change (Dec.ndigits (dcoeff (Dec.of_int (x * k))))
    with (Dec.ndigitsZ (Dec.cz (Dec.of_int (x * k)))).
  rewrite !cz_of_int.
  replace (dcoeff (Dec.of_int k) =? 0)%N with false
    by (symmetry; apply N.eqb_neq; unfold Dec.of_int; simpl; lia).
  destruct (Z.eq_dec x 0) as [->|Hx].
  - (* zero *)
    simpl. unfold Dec.fix_. simpl.
    replace (k <? 0) with false by (symmetry; apply Z.ltb_ge; lia).
    destruct Hrange as [Hmin Hmax]. unfold Dec.Etiny, Dec.of_int. simpl.
    do 3 f_equal. lia.
  - replace (dcoeff (Dec.of_int (x * k)) =? 0)%N with false
      by (symmetry; apply N.eqb_neq; unfold Dec.of_int; simpl; nia).
    cbn [dexp Dec.of_int dsign]. fold P.
    assert (Habs : Z.abs (x * k) = Z.abs x * k) by nia.
    assert (Hax : 0 < Z.abs x) by lia.
    set (La := Dec.ndigitsZ (Z.abs (x * k))).
    set (Lb := Dec.ndigitsZ (Z.abs k)).
    assert (HLa : La <= P) by (apply ndigitsZ_le; [unfold P; lia | exact Hfit]).
    assert (HLb : 1 <= Lb) by apply ndigitsZ_ge1.
    set (S := Lb - La + P + 1).
    assert (HS : 0 <= S) by (unfold S; lia).
    replace (0 <=? S) with true by (symmetry; apply Z.leb_le; lia).
    rewrite (Z.abs_eq k) by lia.
    replace (Z.abs (x * k) * 10 ^ S) with (Z.abs x * 10 ^ S * k) by nia.
    rewrite div_eucl_exact by lia. simpl (0 =? 0).
    cbv iota.
    replace (0 - 0 - (0 - 0 - S)) with S by lia.
    replace (0 - 0 - S) with (- S) by lia.
    rewrite <- (Z2Nat.id S) at 2 by lia.
    rewrite strip_zeros_pow, Z2Nat.id by lia.
    replace (- S + S) with 0 by lia.
    assert (Hsign : xorb (x * k <? 0) (k <? 0) = (x <? 0)).
    { replace (k <? 0) with false by (symmetry; apply Z.ltb_ge; lia).
      rewrite xorb_false_r.
      destruct (x <? 0) eqn:Hx0;
        [apply Z.ltb_lt in Hx0; apply Z.ltb_lt; nia
        | apply Z.ltb_ge in Hx0; apply Z.ltb_ge; nia]. }
    rewrite Hsign, fix_small_integer; try assumption.
    + simpl. unfold Dec.of_int.
      now rewrite <- N2Z.inj_abs_N, N2Z.id.
    + fold P. nia.
Qed.

Lemma multiply_reverse_recovers_integer_witness :
  IntegerField.multiply Dec.DefaultContext (PInt (-37 * 100)) (PInt 100) true
    (Some 6%positive)
  = Ok (PDec (Dec.of_int (-37))).
Proof.
  apply (multiply_reverse_recovers_integer Dec.DefaultContext
           (Some 6%positive) (-37) 100).
  - unfold integer_range. simpl. lia.
  - lia.
  - simpl. lia.
  - simpl. lia.
Defined.

(** X9.  The forward direction cuts off towards zero, not downwards:
    negating the operand negates the result. *)
Theorem multiply_negated_operand (ctx : Dec.Context)
    (precision : option positive) (factor : pyval) (d : Decimal) (x v : Z) :
  (IntegerField.multiply ctx (PDec d) factor false precision = Ok (PInt v) ->
   IntegerField.multiply ctx (PDec (Dec.neg d)) factor false precision
   = Ok (PInt (- v)))
  /\ (IntegerField.multiply ctx (PInt x) factor false precision = Ok (PInt v) ->
      IntegerField.multiply ctx (PInt (- x)) factor false precision
      = Ok (PInt (- v))).
Proof.
  assert (Hdec : forall d v,
             IntegerField.multiply ctx (PDec d) factor false precision
             = Ok (PInt v) ->
             IntegerField.multiply ctx (PDec (Dec.neg d)) factor false precision
             = Ok (PInt (- v))).
  { clear. intros d v. unfold IntegerField.multiply, PyOps.dec_times.
    cbn [PyOps.Decimal_of bind].
    destruct (PyOps.convert_other factor) as [k|]; [|discriminate].
    intros H.
    apply product_to_int_finite in H as (a & b & m & [= <-] & -> & Hm & <-).
    simpl. rewrite mul_neg, Hm. simpl. now rewrite to_int_neg. }
  split; [apply Hdec|].
  intros H. destruct (Z.eq_dec x 0) as [->|Hx].
  - (* the product of a zero is 0 *)
    simpl. rewrite H. do 2 f_equal.
    revert H. unfold IntegerField.multiply, PyOps.dec_times.
    cbn [PyOps.Decimal_of bind].
    destruct (PyOps.convert_other factor) as [k|]; [|discriminate].
    intros H.
    apply product_to_int_finite in H as (a & b & m & [= <-] & -> & Hm & <-).
    revert Hm. unfold Dec.mul, Dec.fix_. simpl.
    intros [= <-]. now rewrite to_int_zero.
  - assert (Hneg : Dec.of_int (- x) = Dec.neg (Dec.of_int x)).
    { unfold Dec.of_int, Dec.neg. simpl. f_equal.
      - destruct (x <? 0) eqn:H1, (- x <? 0) eqn:H2; try reflexivity;
          rewrite ?Z.ltb_lt, ?Z.ltb_ge in *; lia.
      - lia. }
    specialize (Hdec (Dec.of_int x) v).
    unfold IntegerField.multiply in *. simpl in *. rewrite Hneg.
    apply Hdec, H.
Qed.

Lemma multiply_negated_operand_witness :
  IntegerField.multiply Dec.DefaultContext
    (PDec (Dec.neg (mkDec false 19 (-2)))) (PInt 10) false None
  = Ok (PInt (- 1)).
Proof.
  apply (multiply_negated_operand Dec.DefaultContext None (PInt 10)
           (mkDec false 19 (-2)) 0 1).
  vm_compute. reflexivity.
Defined.

(** X10.  For a pipeline made of [add] and [subtract] steps with
    integer operands, on an integer, export takes the net offset of the
    pipeline away, whatever the order of the steps: here undoing in
    declared order and undoing in reverse declared order agree. *)
Theorem export_offsets_any_order (ctx : Dec.Context) (self : Field.t)
    (obj : pyval) (x n : Z) :
  net_offset (Field.import_methods self) = Some n ->
  Field.export_override self = None ->
  Field.fw_to_representation (Field.base self) obj = Ok (PInt x) ->
  Field.to_representation ctx self obj = Notions.format self (PInt (x - n))
  /\ Field.to_representation ctx self obj = export_reverse_order ctx self obj.
Proof.
  intros Hnet Hov Hbase.
  assert (Hrep : Field.to_representation ctx self obj
                 = Notions.format self (PInt (x - n))).
  { unfold Field.to_representation. rewrite Hov, Hbase. simpl.
    rewrite run_methods_reverse, (compose_inverted_offsets ctx _ n);
      [reflexivity|].
    now rewrite net_offset_rev. }
  split; [exact Hrep|].
  rewrite Hrep. unfold export_reverse_order. rewrite Hbase. simpl.
  now rewrite (compose_inverted_offsets ctx _ n).
Qed.

Lemma export_offsets_any_order_witness :
  Field.to_representation Dec.DefaultContext
    (field_with None [(Field.Add, PInt 5); (Field.Subtract, PInt 2)]) (PInt 10)
  = Ok (PInt 7).
Proof.
  destruct (export_offsets_any_order Dec.DefaultContext
              (field_with None [(Field.Add, PInt 5); (Field.Subtract, PInt 2)])
              (PInt 10) 10 3) as [H _];
    [reflexivity | reflexivity | reflexivity | exact H].
Defined.

(* ===================================================================== *)
(** * Facts about dictionaries *)
(* ===================================================================== *)

Section Dictionaries.

Import Field.

Lemma dict_pop_keeps (name n : string) (kw : list (string * pyval)) :
  name <> n -> In name (map fst kw) -> In name (map fst (dict_pop n kw)).
Proof.
  intros Hne. induction kw as [|[k v] kw IH]; simpl; [tauto|].
  destruct (String.eqb n k) eqn:Hk; simpl.
  - apply String.eqb_eq in Hk. subst k. intros [H|H]; [congruence | exact H].
  - intros [H|H]; [now left | right; auto].
Qed.

Lemma dict_lookup_pop (name n : string) (kw : list (string * pyval)) :
  name <> n -> dict_lookup name (dict_pop n kw) = dict_lookup name kw.
Proof.
  intros Hne. induction kw as [|[k v] kw IH]; simpl; [reflexivity|].
  destruct (String.eqb n k) eqn:Hk; simpl.
  - apply String.eqb_eq in Hk. subst k.
    now replace (String.eqb name n) with false
      by (symmetry; apply String.eqb_neq; exact Hne).
  - now rewrite IH.
Qed.

Lemma dict_lookup_none (name : string) (d : dict) :
  dict_lookup name d = None <-> ~ In name (map fst d).
Proof.
  induction d as [|[k v] d IH]; simpl; [tauto|].
  destruct (String.eqb name k) eqn:Hk.
  - apply String.eqb_eq in Hk. subst k. split; [discriminate | tauto].
  - apply String.eqb_neq in Hk. rewrite IH. intuition congruence.
Qed.

Lemma dict_lookup_set (name k : string) (v : pyval) (d : dict) :
  dict_lookup name (dict_set k v d)
  = if String.eqb name k then Some v else dict_lookup name d.
Proof.
  induction d as [|[k' v'] d IH]; simpl; [reflexivity|].
  destruct (String.eqb k k') eqn:Hk; simpl.
  - apply String.eqb_eq in Hk. subst k'. now destruct (String.eqb name k).
  - rewrite IH. destruct (String.eqb name k') eqn:Hn; [|reflexivity].
    apply String.eqb_eq in Hn. subst k'.
    now replace (String.eqb name k) with false
      by (symmetry; rewrite String.eqb_sym; exact Hk).
Qed.

(** After an update the entries of [other] come first in a lookup. *)
Lemma dict_lookup_update (name : string) (d other : dict) :
  NoDup (map fst other) ->
  dict_lookup name (dict_update d other)
  = match dict_lookup name other with
    | Some v => Some v
    | None => dict_lookup name d
    end.
Proof.
  unfold dict_update. revert d.
  induction other as [|[k v] other IH]; intros d Hnd; simpl; [reflexivity|].
  inversion Hnd as [|? ? Hnotin Hnd']; subst.
  rewrite (IH _ Hnd'), dict_lookup_set.
  destruct (String.eqb name k) eqn:Hk; [|reflexivity].
  apply String.eqb_eq in Hk. subst k.
  apply dict_lookup_none in Hnotin. now rewrite Hnotin.
Qed.

Lemma dict_pop_keys (name n : string) (kw : dict) :
  In name (map fst (dict_pop n kw)) -> In name (map fst kw).
Proof.
  induction kw as [|[k v] kw IH]; simpl; [tauto|].
  destruct (String.eqb n k); simpl; intuition.
Qed.

Lemma dict_pop_nodup (n : string) (kw : dict) :
  NoDup (map fst kw) -> NoDup (map fst (dict_pop n kw)).
Proof.
  induction kw as [|[k v] kw IH]; simpl; intros Hnd; [constructor|].
  inversion Hnd as [|? ? Hnotin Hnd']; subst.
  destruct (String.eqb n k); simpl; [exact Hnd'|].
  constructor; [|now apply IH].
  intros Hin. apply Hnotin. now apply dict_pop_keys in Hin.
Qed.

(** Among distinct keys, the popped one is gone. *)
Lemma dict_pop_gone (n : string) (kw : dict) :
  NoDup (map fst kw) -> dict_lookup n (dict_pop n kw) = None.
Proof.
  induction kw as [|[k v] kw IH]; simpl; intros Hnd; [reflexivity|].
  inversion Hnd as [|? ? Hnotin Hnd']; subst.
  destruct (String.eqb n k) eqn:Hk; simpl.
  - apply String.eqb_eq in Hk. subst k. now apply dict_lookup_none.
  - rewrite Hk. now apply IH.
Qed.

Lemma filter_keys_nodup (P : string * pyval -> bool) (kw : dict) :
  NoDup (map fst kw) -> NoDup (map fst (filter P kw)).
Proof.
  induction kw as [|[k v] kw IH]; simpl; intros Hnd; [constructor|].
  inversion Hnd as [|? ? Hnotin Hnd']; subst.
  destruct (P (k, v)); simpl; [|now apply IH].
  constructor; [|now apply IH].
  intros Hin. apply Hnotin.
  apply in_map_iff in Hin as (kv & Hfst & Hin).
  apply filter_In in Hin as [Hin _].
  apply in_map_iff. eauto.
Qed.

(** A lookup among the keywords selected by name. *)
Lemma dict_lookup_filter (name : string) (names : list string) (kw : dict) :
  dict_lookup name
    (filter (fun kv => existsb (String.eqb (fst kv)) names) kw)
  = if existsb (String.eqb name) names then dict_lookup name kw else None.
Proof.
  induction kw as [|[k v] kw IH]; simpl.
  - now destruct (existsb _ names).
  - destruct (String.eqb name k) eqn:Hk.
    + apply String.eqb_eq in Hk. subst k.
      destruct (existsb (String.eqb name) names) eqn:Hin; simpl.
      * now rewrite String.eqb_refl.
      * rewrite IH. reflexivity.
    + destruct (existsb (String.eqb k) names); simpl; [rewrite Hk|]; exact IH.
Qed.

Lemma existsb_eqb_in (name : string) (names : list string) :
  existsb (String.eqb name) names = true <-> In name names.
Proof.
  rewrite existsb_exists. split.
  - intros (x & Hin & Heq). apply String.eqb_eq in Heq. now subst.
  - intros Hin. exists name. split; [exact Hin | apply String.eqb_refl].
Qed.

Lemma dict_pop_absent (n : string) (kw : dict) :
  dict_lookup n kw = None -> dict_pop n kw = kw.
Proof.
  induction kw as [|[k v] kw IH]; simpl; [reflexivity|].
  destruct (String.eqb n k); [discriminate|].
  intros H. now rewrite IH.
Qed.

End Dictionaries.

(* ===================================================================== *)
(** * Further properties: construction *)
(* ===================================================================== *)

Section Construction.

Import Field.

Lemma strict_rejects (allowed : list string) (name : string) :
  existsb (String.eqb name) allowed = false -> rejects (strict allowed) name.
Proof.
  intros Hnot names Hin. unfold strict. simpl.
  replace (forallb _ names) with false; [eauto|].
  symmetry. apply not_true_is_false. intros Hall.
  rewrite forallb_forall in Hall. specialize (Hall _ Hin). congruence.
Qed.

Variable cls : class_attrs.

(** A keyword that names no callable attribute of the class stays among
    the keywords. *)
Lemma listen_keeps (name : string) (names : list string)
    (methods : list (transform * pyval)) (kw : list (string * pyval)) :
  cls name = None ->
  In name (map fst kw) ->
  In name (map fst (snd (listen cls names methods kw))).
Proof.
  intros Hclass. revert methods kw.
  induction names as [|n names IH]; intros methods kw Hin; simpl; [exact Hin|].
  destruct (cls n) as [m|] eqn:Hn; [|now apply IH].
  destruct (dict_lookup n kw); [|now apply IH].
  apply IH, dict_pop_keeps; [congruence | exact Hin].
Qed.

Lemma flat_map_agree {A B} (f g : A -> list B) (l : list A) :
  (forall a, In a l -> f a = g a) -> flat_map f l = flat_map g l.
Proof.
  induction l as [|a l IH]; intros H; simpl; [reflexivity|].
  rewrite (H a) by now left. f_equal. apply IH. intros b Hb. apply H. now right.
Qed.

(** The steps registered are those of the names, in their order. *)
Lemma listen_steps (names : list string) (methods : list (transform * pyval))
    (kw : list (string * pyval)) :
  NoDup names ->
  fst (listen cls names methods kw)
  = methods ++ flat_map (fun n => step_of cls n kw) names.
Proof.
  revert methods kw.
  induction names as [|n names IH]; intros methods kw Hnd; simpl.
  - now rewrite app_nil_r.
  - inversion Hnd as [|? ? Hnotin Hnd']; subst.
    unfold step_of at 1.
    destruct (cls n) as [m|] eqn:Hn;
      [destruct (dict_lookup n kw) as [v|] eqn:Hv|]; simpl;
      rewrite IH by assumption; try reflexivity.
    rewrite <- app_assoc. simpl. do 2 f_equal.
    apply flat_map_agree. intros n' Hin. unfold step_of.
    rewrite dict_lookup_pop; [reflexivity|]. congruence.
Qed.

End Construction.

(** X12.  The [export] argument is read but left among the keyword
    arguments, so it reaches the constructor of the framework class: with
    a framework class that refuses the keyword [export], no field can be
    constructed with an [export] argument at all. *)
Theorem export_keyword_reaches_framework
    (set_iter : list string -> list string) (cls : Field.class_attrs)
    (fw : Field.Framework)
    (key : option string) (transformations : option (list string))
    (kwargs : Field.Kwargs) (o : Field.export_obj) :
  rejects fw "export" ->
  Field.kwargs_export kwargs = Some o ->
  exists e, Field.init set_iter cls fw key transformations kwargs = Raise e.
Proof.
  intros Hrej Hexp. unfold Field.init. rewrite Hexp.
  destruct (match transformations with Some _ => _ | None => _ end)
    as [methods other].
  destruct (Field.is_callable o); simpl; [|eauto].
  destruct (Hrej (map fst other ++ ["export"])) as [e He].
  - apply in_or_app. right. now left.
  - rewrite He. simpl. eauto.
Qed.

Lemma export_keyword_reaches_framework_witness :
  exists e,
    Field.init (fun l => l) IntegerFieldInit.class_method
      (strict ["required"; "max_value"]) None None
      (Field.mkKwargs None None (Some (Field.Callable (fun v => Ok v))) [])
    = Raise e.
Proof.
  apply (export_keyword_reaches_framework (fun l => l)
           IntegerFieldInit.class_method
           (strict ["required"; "max_value"]) None None _
           (Field.Callable (fun v => Ok v))).
  - apply strict_rejects. reflexivity.
  - reflexivity.
Defined.

(** X13.  A keyword that names no callable attribute of the class of
    the field (for [IntegerField], [divide] is one) is not taken off the
    keyword arguments, whatever transformations are listened for: it
    reaches the constructor of the framework class, and with a framework
    class that refuses it the construction fails. *)
Theorem unknown_keyword_reaches_framework
    (set_iter : list string -> list string) (cls : Field.class_attrs)
    (fw : Field.Framework)
    (key : option string) (transformations : option (list string))
    (kwargs : Field.Kwargs) (name : string) :
  cls name = None ->
  In name (map fst (Field.kwargs_other kwargs)) ->
  rejects fw name ->
  exists e, Field.init set_iter cls fw key transformations kwargs = Raise e.
Proof.
  intros Hclass Hin Hrej. unfold Field.init.
  destruct (match transformations with Some _ => _ | None => _ end)
    as [methods other] eqn:Hlisten.
  assert (Hother : In name (map fst other)).
  { destruct transformations as [l|].
    - unfold Field.listen_for_transformations in Hlisten.
      pose proof (listen_keeps cls name
                    (set_iter (filter (fun n => Field.has_key n (Field.kwargs_other kwargs))
                                      (nodup string_dec l)))
                    [] _ Hclass Hin) as H.
      now rewrite Hlisten in H.
    - now injection Hlisten as _ <-. }
  destruct (match Field.kwargs_export kwargs with Some _ => _ | None => _ end)
    as [[]|e]; simpl; [|eauto].
  destruct (Hrej (map fst other
                  ++ match Field.kwargs_export kwargs with
                     | Some _ => ["export"]
                     | None => []
                     end)) as [e He].
  - apply in_or_app. now left.
  - rewrite He. simpl. eauto.
Qed.

Lemma unknown_keyword_reaches_framework_witness :
  exists e,
    IntegerFieldInit.init (fun l => l) (strict ["required"; "max_value"]) None
      (Field.mkKwargs None None None [("divide", PInt 100)])
    = Raise e.
Proof.
  apply (unknown_keyword_reaches_framework (fun l => l)
           IntegerFieldInit.class_method
           (strict ["required"; "max_value"]) None
           (Some IntegerFieldInit.transformations) _ "divide").
  - reflexivity.
  - simpl. now left.
  - apply strict_rejects. reflexivity.
Defined.

Lemma class_method_name (name : string) (t : Field.transform) :
  IntegerFieldInit.class_method name = Some t ->
  match t with
  | Field.Multiply => name = "multiply"
  | Field.Add => name = "add"
  | Field.Subtract => name = "subtract"
  | Field.Attribute _ => False
  end.
Proof.
  unfold IntegerFieldInit.class_method.
  destruct (String.eqb name "multiply") eqn:H1;
    [apply String.eqb_eq in H1; now intros [= <-]|].
  destruct (String.eqb name "add") eqn:H2;
    [apply String.eqb_eq in H2; now intros [= <-]|].
  destruct (String.eqb name "subtract") eqn:H3;
    [apply String.eqb_eq in H3; now intros [= <-] | discriminate].
Qed.

Lemma in_step_of (cls : Field.class_attrs) (names : list string)
    (kw : list (string * pyval)) (t : Field.transform) (v : pyval) :
  In (t, v) (flat_map (fun n => step_of cls n kw) names)
  <-> exists name, In name names /\ cls name = Some t
                   /\ dict_lookup name kw = Some v.
Proof.
  rewrite in_flat_map. split; intros (name & Hin & H); exists name;
    (split; [assumption|]); unfold step_of in *.
  - destruct (cls name); [|contradiction].
    destruct (dict_lookup name kw); [|contradiction].
    destruct H as [[= -> ->]|[]]. auto.
  - destruct H as [-> ->]. now left.
Qed.

Lemma step_kinds_nodup (names : list string) (kw : list (string * pyval)) :
  NoDup names ->
  NoDup (map fst (flat_map (fun n => step_of IntegerFieldInit.class_method n kw)
                           names)).
Proof.
  induction 1 as [|n names Hnotin Hnd IH]; simpl; [constructor|].
  rewrite map_app. unfold step_of at 1.
  destruct (IntegerFieldInit.class_method n) as [t|] eqn:Ht; [|exact IH].
  destruct (dict_lookup n kw) as [v|]; [|exact IH].
  simpl. constructor; [|exact IH].
  rewrite in_map_iff. intros ([t' v'] & Heq & Hin). simpl in Heq. subst t'.
  apply in_step_of in Hin as (n' & Hin' & Ht' & _).
  apply class_method_name in Ht, Ht'. destruct t; try contradiction; congruence.
Qed.

(** X14.  The pipeline of a constructed [IntegerField] holds one step
    for each of the keywords [multiply], [add] and [subtract] that was
    given, with the value of the keyword as operand, and no other step;
    no kind of step occurs twice. *)
Theorem registered_transforms (set_iter : list string -> list string)
    (fw : Field.Framework) (key : option string) (kwargs : Field.Kwargs)
    (self : Field.t) :
  (forall l, Permutation (set_iter l) l) ->
  IntegerFieldInit.init set_iter fw key kwargs = Ok self ->
  (forall t v,
      In (t, v) (Field.import_methods self)
      <-> exists name, IntegerFieldInit.class_method name = Some t
                       /\ dict_lookup name (Field.kwargs_other kwargs) = Some v)
  /\ NoDup (map fst (Field.import_methods self)).
Proof.
  intros Hperm Hinit.
  unfold IntegerFieldInit.init in Hinit.
  destruct (Field.has_key "transformations" (Field.kwargs_other kwargs));
    [discriminate|].
  unfold Field.init, Field.listen_for_transformations in Hinit.
  set (kw := Field.kwargs_other kwargs) in *.
  set (names := set_iter (filter (fun n => Field.has_key n kw)
                                 (nodup string_dec IntegerFieldInit.transformations)))
    in *.
  assert (Hnd : NoDup names).
  { apply (Permutation_NoDup (Permutation_sym (Hperm _))).
    apply NoDup_filter, NoDup_nodup. }
  pose proof (listen_steps IntegerFieldInit.class_method names [] kw Hnd)
    as Hsteps.
  simpl in Hsteps.
  destruct (Field.listen IntegerFieldInit.class_method names [] kw)
    as [methods other].
  simpl in Hsteps.
  subst methods.
  destruct (match Field.kwargs_export kwargs with Some _ => _ | None => _ end)
    as [[]|]; simpl in Hinit; [|discriminate].
  destruct (Field.fw_init fw _); simpl in Hinit; [|discriminate].
  injection Hinit as <-. simpl. split; [|now apply step_kinds_nodup].
  intros t v. rewrite in_step_of. split.
  - intros (name & _ & H). eauto.
  - intros (name & Ht & Hv). exists name. split; [|auto].
    apply (Permutation_in _ (Permutation_sym (Hperm _))).
    apply filter_In. split.
    + apply nodup_In. apply class_method_name in Ht.
      destruct t; try contradiction; subst name; simpl; auto.
    + unfold Field.has_key. now rewrite Hv.
Qed.

Lemma registered_transforms_witness :
  exists self,
    IntegerFieldInit.init (fun l => l) plain (Some "rate")
      (Field.mkKwargs None None None
         [("multiply", PInt 100); ("required", PBool false); ("add", PInt 5)])
    = Ok self
    /\ In (Field.Add, PInt 5) (Field.import_methods self).
Proof.
  eexists. split; [reflexivity|].
  eapply (registered_transforms (fun l => l) plain (Some "rate")
            (Field.mkKwargs None None None
               [("multiply", PInt 100); ("required", PBool false);
                ("add", PInt 5)])).
  - intros l. apply Permutation_refl.
  - reflexivity.
  - exists "add". split; reflexivity.
Defined.

(** X15.  A [CharField] constructed without a [transformations]
    keyword listens for no transformation: its pipeline is empty, so
    its export is the base serialization followed by the formatter, and
    every keyword given, [multiply] for one, is passed on to the
    framework class. *)
Theorem char_field_has_no_pipeline (set_iter : list string -> list string)
    (cls : Field.class_attrs)
    (fw : Field.Framework) (key : option string) (kwargs : Field.Kwargs)
    (self : Field.t) :
  Field.kwargs_export kwargs = None ->
  dict_lookup "transformations" (Field.kwargs_other kwargs) = None ->
  CharFieldInit.init set_iter cls fw key kwargs = Ok self ->
  Field.import_methods self = []
  /\ (forall ctx obj,
         Field.to_representation ctx self obj
         = (r <- Field.fw_to_representation fw obj ;; Notions.format self r))
  /\ (forall name,
         In name (map fst (Field.kwargs_other kwargs)) ->
         rejects fw name -> False).
Proof.
  intros Hexp Hnone Hinit. unfold CharFieldInit.init in Hinit.
  assert (Hlookup : dict_lookup "transformations"
                      (dict_set "trim_whitespace" (PBool false)
                                (Field.kwargs_other kwargs)) = None).
  { apply dict_lookup_none. rewrite dict_set_keys.
    apply dict_lookup_none in Hnone. intros [H|H]; [discriminate | tauto]. }
  unfold dict_get in Hinit. rewrite Hlookup in Hinit. simpl in Hinit.
  rewrite dict_pop_absent in Hinit by exact Hlookup.
  unfold Field.init in Hinit. simpl in Hinit. rewrite Hexp in Hinit.
  simpl in Hinit.
  destruct (Field.fw_init fw _) as [[]|] eqn:Hfw; simpl in Hinit; [|discriminate].
  injection Hinit as <-. simpl. split; [reflexivity|]. split.
  - intros ctx obj. unfold Field.to_representation. simpl.
    now destruct (Field.fw_to_representation fw obj).
  - intros name Hin Hrej.
    destruct (Hrej (map fst (dict_set "trim_whitespace" (PBool false)
                                      (Field.kwargs_other kwargs)) ++ []))
      as [e He]; [|congruence].
    apply in_or_app. left. apply dict_set_keys. now right.
Qed.

Lemma char_field_has_no_pipeline_witness :
  exists self,
    CharFieldInit.init (fun l => l) (fun _ => None) plain (Some "title")
      (Field.mkKwargs None None None [("multiply", PInt 100)])
    = Ok self
    /\ Field.import_methods self = [].
Proof.
  eexists. split; [reflexivity|].
  eapply (char_field_has_no_pipeline (fun l => l) (fun _ => None) plain
            (Some "title")
            (Field.mkKwargs None None None [("multiply", PInt 100)]));
    reflexivity.
Defined.

(* ===================================================================== *)
(** * Further properties: the list import *)
(* ===================================================================== *)

(** X16.  When the child validates every item of a list that passes the
    list-level checks, the import returns the list of what the child
    returns for each item, in order: importing many is importing each. *)
Theorem list_import_all_valid (self : BindableListSerializer.t)
    (items : list pyval) (g : pyval -> pyval) :
  BindableListSerializer.allow_empty self = true \/ items <> [] ->
  (forall item, In item items ->
                BindableListSerializer.child_run_validation self item
                = Ok (g item)) ->
  BindableListSerializer.to_internal_value_traced self (PList items)
  = (Ok (PList (map g items)), items).
Proof.
  intros Hshape Hvalid.
  unfold BindableListSerializer.to_internal_value_traced.
  replace (negb (BindableListSerializer.allow_empty self)
           && (List.length items =? 0)%nat) with false.
  2:{ destruct Hshape as [-> | Hne]; [reflexivity|].
      destruct items; [congruence|]. simpl. now rewrite andb_false_r. }
  rewrite run_items_settled.
  2:{ apply forallb_forall. intros item Hin. unfold settles.
      now rewrite (Hvalid item Hin). }
  simpl.
  assert (Hslots : existsb truthy (map (slot self) items) = false).
  { clear Hshape. induction items as [|item items IH]; simpl; [reflexivity|].
    unfold slot at 1. rewrite (Hvalid item) by now left. simpl.
    apply IH. intros i Hi. apply Hvalid. now right. }
  rewrite Hslots. do 3 f_equal.
  clear Hshape Hslots. induction items as [|item items IH]; simpl; [reflexivity|].
  rewrite (Hvalid item) by now left. simpl. f_equal.
  apply IH. intros i Hi. apply Hvalid. now right.
Qed.

Lemma list_import_all_valid_witness :
  BindableListSerializer.to_internal_value_traced (list_of (fun v => Ok v) false)
    (PList [PInt 1; PInt 2])
  = (Ok (PList [PInt 1; PInt 2]), [PInt 1; PInt 2]).
Proof.
  apply (list_import_all_valid (list_of (fun v => Ok v) false)
           [PInt 1; PInt 2] (fun v => v)).
  - right. discriminate.
  - reflexivity.
Defined.

(** X17.  An exception of the child that is no [ValidationError] is not
    collected: the import raises it at the first item that causes it,
    the errors collected before are lost, and the items after it are
    not attempted. *)
Theorem list_import_stops_at_stray_exception (self : BindableListSerializer.t)
    (pre post : list pyval) (item : pyval) (e : exn) :
  forallb (settles self) pre = true ->
  BindableListSerializer.child_run_validation self item = Raise e ->
  is_validation_error e = false ->
  BindableListSerializer.to_internal_value_traced self
    (PList (pre ++ item :: post))
  = (Raise e, pre ++ [item]).
Proof.
  intros Hpre Hitem He.
  unfold BindableListSerializer.to_internal_value_traced.
  replace (List.length (pre ++ item :: post) =? 0)%nat with false
    by (rewrite length_app; simpl; symmetry; apply Nat.eqb_neq; lia).
  rewrite andb_false_r.
  assert (Hrun : forall st,
             BindableListSerializer.run_items self st (pre ++ item :: post)
             = BindableListSerializer.Stop e
                 (BindableListSerializer.mkState
                    (BindableListSerializer.ret st ++ successes self pre)
                    (BindableListSerializer.errors st ++ map (slot self) pre)
                    (BindableListSerializer.attempted st ++ pre ++ [item]))).
  { clear -Hpre Hitem He.
    induction pre as [|p pre IH]; intros st; simpl.
    - unfold BindableListSerializer.item_step. rewrite Hitem.
      destruct e; try discriminate; now rewrite !app_nil_r.
    - simpl in Hpre. apply andb_prop in Hpre as [Hp Hpre].
      unfold BindableListSerializer.item_step at 1.
      unfold settles, slot in *.
      destruct (BindableListSerializer.child_run_validation self p) as [v|[]];
        try discriminate; rewrite (IH Hpre); simpl;
        now rewrite <- !app_assoc. }
  now rewrite Hrun.
Qed.

Lemma list_import_stops_at_stray_exception_witness :
  BindableListSerializer.to_internal_value_traced
    (list_of (fun v => match v with
                       | PInt _ => Ok v
                       | PStr _ => Raise (ValidationError (DetailList [PStr "bad"]))
                       | _ => Raise AttributeError
                       end) true)
    (PList ([PStr "x"; PInt 1] ++ PNone :: [PInt 2]))
  = (Raise AttributeError, [PStr "x"; PInt 1] ++ [PNone]).
Proof.
  apply list_import_stops_at_stray_exception; reflexivity.
Defined.

(* ===================================================================== *)
(** * Further properties: the record import *)
(* ===================================================================== *)

Section RecordAssembly.

Import BindableModelSerializer.

(** A new key goes last. *)
Lemma dict_set_fresh (k : string) (v : pyval) (d : dict) :
  ~ In k (map fst d) -> dict_set k v d = d ++ [(k, v)].
Proof.
  induction d as [|[k' v'] d IH]; simpl; intros Hfresh; [reflexivity|].
  destruct (String.eqb k k') eqn:Hk.
  - apply String.eqb_eq in Hk. subst k'. tauto.
  - f_equal. apply IH. tauto.
Qed.

(** Updating with entries whose keys are new and distinct appends them. *)
Lemma dict_update_fresh (d l : dict) :
  NoDup (map fst (d ++ l)) -> dict_update d l = d ++ l.
Proof.
  unfold dict_update. revert d.
  induction l as [|[k v] l IH]; intros d Hnd; simpl.
  - now rewrite app_nil_r.
  - rewrite dict_set_fresh.
    + rewrite IH; rewrite <- app_assoc; [reflexivity | exact Hnd].
    + rewrite map_app in Hnd. simpl in Hnd.
      apply NoDup_remove_2 in Hnd. intros Hin. apply Hnd.
      apply in_or_app. now left.
Qed.

(** Entries taken from distinctly named fields have distinct keys. *)
Lemma entries_nodup {A : Type} (name : A -> string)
    (entry : A -> list (string * pyval)) (l : list A) :
  (forall a, entry a = [] \/ exists v, entry a = [(name a, v)]) ->
  NoDup (map name l) ->
  NoDup (map fst (flat_map entry l)).
Proof.
  intros Hentry.
  assert (Hsub : forall l n, In n (map fst (flat_map entry l)) ->
                             In n (map name l)).
  { clear l. induction l as [|a l IH]; simpl; [tauto|].
    intros n. rewrite map_app, in_app_iff.
    destruct (Hentry a) as [-> | [v ->]]; simpl; intuition. }
  induction l as [|a l IH]; simpl; intros Hnd; [constructor|].
  inversion Hnd as [|? ? Hnotin Hnd']; subst.
  destruct (Hentry a) as [-> | [v ->]]; simpl; [now apply IH|].
  constructor; [|now apply IH].
  intros Hin. apply Hnotin, Hsub, Hin.
Qed.

Variable self : BindableModelSerializer.t.
Variable data : dict.

Lemma error_entry_shape (f : BoundField) :
  error_entry self data f = []
  \/ exists v, error_entry self data f = [(field_name f, v)].
Proof.
  unfold error_entry.
  destruct (keyed_outcome self data f) as [[pv r]|]; [|now left].
  destruct (error_of r); [right; eauto | now left].
Qed.

Lemma value_entry_shape (f : BoundField) :
  value_entry self data f = []
  \/ exists v, value_entry self data f = [(source_name f, v)].
Proof.
  unfold value_entry, source_name.
  destruct (keyed_outcome self data f) as [[pv r]|]; [|now left].
  destruct (source_attrs f) as [|a [|]]; try now left.
  destruct (value_of r); [right; eauto | now left].
Qed.

(** The loop over well-behaved fields is an update of the two mappings
    with the entries of the fields, one after the other. *)
Lemma run_fields_assemble (fields : list BoundField) (st : state) :
  forallb (well_behaved self data) fields = true ->
  exists pv,
    run_fields self data st fields
    = Next (mkState (dict_update (ret st) (flat_map (value_entry self data) fields))
                    (dict_update (errors st) (flat_map (error_entry self data) fields))
                    pv
                    (attempted st ++ flat_map (attempt self data) fields)).
Proof.
  revert st.
  induction fields as [|field fields IH]; intros st Hall.
  - exists (primitive_value st). simpl. rewrite app_nil_r. now destruct st.
  - simpl in Hall. apply andb_prop in Hall as [Hfield Hrest].
    unfold well_behaved in Hfield.
    simpl. unfold field_step.
    unfold error_entry at 1, value_entry at 1, attempt at 1.
    unfold keyed_outcome in *.
    destruct (key field) as [k|]; [|discriminate].
    destruct (extract field k data) as [pv|]; [|discriminate]. simpl.
    destruct (source_attrs field) as [|a [|]] eqn:Hsrc; try discriminate.
    unfold validate. simpl. rewrite Hsrc.
    destruct (try_body self field pv) as [v|[]]; try discriminate; simpl;
      match goal with
      | |- context [run_fields self data ?s fields] =>
          destruct (IH s Hrest) as [pv' Hrun]
      end;
      exists pv'; rewrite Hrun; simpl; now rewrite <- app_assoc.
Qed.

(** X18.  When every writable field is well behaved (keyed, walkable,
    stored under one name, validating or failing by a validation error
    or skipped), the field names are distinct and some field fails, the
    record import raises a validation error whose mapping holds the
    errors of the failing fields in declaration order, after running
    every field. *)
Theorem record_errors_in_declaration_order :
  forallb (well_behaved self data) (writable_fields self) = true ->
  NoDup (map field_name (writable_fields self)) ->
  flat_map (error_entry self data) (writable_fields self) <> [] ->
  to_internal_value_traced self (PDict data)
  = (Raise (ValidationError
              (DetailDict (flat_map (error_entry self data) (writable_fields self)))),
     flat_map (attempt self data) (writable_fields self)).
Proof.
  intros Hall Hnd Hsome.
  unfold to_internal_value_traced.
  destruct (run_fields_assemble (writable_fields self) initial Hall) as [pv ->].
  simpl.
  rewrite (dict_update_fresh [])
    by (simpl; apply (entries_nodup field_name);
        [apply error_entry_shape | exact Hnd]).
  simpl.
  destruct (flat_map (error_entry self data) (writable_fields self));
    [congruence | reflexivity].
Qed.

(** X19.  When every writable field is well behaved, the names they are
    stored under are distinct and no field fails, the record import
    returns the mapping of the validated values in declaration order,
    the skipped fields left out. *)
Theorem record_import_assembles :
  forallb (well_behaved self data) (writable_fields self) = true ->
  NoDup (map source_name (writable_fields self)) ->
  flat_map (error_entry self data) (writable_fields self) = [] ->
  to_internal_value_traced self (PDict data)
  = (Ok (PDict (flat_map (value_entry self data) (writable_fields self))),
     flat_map (attempt self data) (writable_fields self)).
Proof.
  intros Hall Hnd Hnone.
  unfold to_internal_value_traced.
  destruct (run_fields_assemble (writable_fields self) initial Hall) as [pv ->].
  simpl. rewrite Hnone. simpl.
  rewrite (dict_update_fresh [])
    by (simpl; apply (entries_nodup source_name);
        [apply value_entry_shape | exact Hnd]).
  reflexivity.
Qed.

(** X20.  A keyed field whose path meets a value that is no mapping
    before its end makes the whole import raise [AttributeError]: the
    errors collected from the well-behaved fields before it are lost and
    the fields after it are not run. *)
Theorem record_scalar_on_path_aborts (pre post : list BoundField)
    (f : BoundField) (k s : string) (steps rest : list string) (x : pyval) :
  writable_fields self = pre ++ f :: post ->
  forallb (well_behaved self data) pre = true ->
  key f = Some k ->
  split "." k = steps ++ s :: rest ->
  at_path steps (PDict data) x ->
  is_dict x = false ->
  to_internal_value_traced self (PDict data)
  = (Raise AttributeError, flat_map (attempt self data) pre).
Proof.
  intros Hfields Hpre Hkey Hsplit Hpath Hx.
  unfold to_internal_value_traced.
  rewrite Hfields, run_fields_app.
  destruct (run_fields_assemble pre initial Hpre) as [pv ->].
  simpl. unfold field_step. rewrite Hkey. unfold extract.
  rewrite Hsplit, (record_walk_at_path _ _ _ _ Hpath). simpl.
  destruct x; try discriminate; reflexivity.
Qed.

(** X21.  The value a keyed field is validated on, when every segment
    of its key is present: a value that is no mapping is taken as it
    is; in a mapping the field's name is looked up, and its absence
    gives the framework's [empty]. *)
Theorem record_extract_at_path (f : BoundField) (k : string) (v : pyval) :
  at_path (split "." k) (PDict data) v ->
  extract f k data
  = Ok (match v with
        | PDict m => dict_get (field_name f) PEmpty m
        | _ => v
        end).
Proof.
  intros Hpath. unfold extract.
  rewrite <- (app_nil_r (split "." k)), (record_walk_at_path _ _ _ _ Hpath).
  simpl. unfold get_value, dict_get.
  destruct v; simpl; rewrite ?String.eqb_refl; reflexivity.
Qed.

(** X22.  A segment missing from a mapping on the path of a keyed field
    does not stop the record import, however many segments follow: the
    field is validated on the framework's [empty]. *)
Theorem record_missing_segment_is_empty (f : BoundField) (k s : string)
    (steps rest : list string) (m : dict) :
  split "." k = steps ++ s :: rest ->
  at_path steps (PDict data) (PDict m) ->
  dict_lookup s m = None ->
  extract f k data = Ok PEmpty.
Proof.
  intros Hsplit Hpath Hmissing. unfold extract.
  rewrite Hsplit, (record_walk_at_path _ _ _ _ Hpath). simpl.
  unfold dict_get at 1. rewrite Hmissing, record_walk_empty. reflexivity.
Qed.

End RecordAssembly.

Lemma record_errors_in_declaration_order_witness :
  BindableModelSerializer.to_internal_value_traced
    (record_of [int_field "age" (Some "age"); int_field "size" (Some "dims.size");
                int_field "rank" (Some "rank")])
    (PDict [("rank", PStr "z"); ("age", PStr "x");
            ("dims", PDict [("size", PInt 3)])])
  = (Raise (ValidationError
              (DetailDict
                 [("age", PList [PStr "A valid integer is required."]);
                  ("rank", PList [PStr "A valid integer is required."])])),
     [("age", PStr "x"); ("size", PInt 3); ("rank", PStr "z")]).
Proof.
  apply (record_errors_in_declaration_order
           (record_of [int_field "age" (Some "age");
                       int_field "size" (Some "dims.size");
                       int_field "rank" (Some "rank")])
           [("rank", PStr "z"); ("age", PStr "x");
            ("dims", PDict [("size", PInt 3)])]).
  - reflexivity.
  - simpl. repeat constructor; simpl; intuition discriminate.
  - discriminate.
Defined.

Lemma record_import_assembles_witness :
  BindableModelSerializer.to_internal_value_traced
    (record_of [int_field "age" (Some "age"); int_field "size" (Some "dims.size")])
    (PDict [("dims", PDict [("size", PInt 3)]); ("age", PInt 7)])
  = (Ok (PDict [("age", PInt 7); ("size", PInt 3)]),
     [("age", PInt 7); ("size", PInt 3)]).
Proof.
  apply (record_import_assembles
           (record_of [int_field "age" (Some "age");
                       int_field "size" (Some "dims.size")])
           [("dims", PDict [("size", PInt 3)]); ("age", PInt 7)]).
  - reflexivity.
  - simpl. repeat constructor; simpl; intuition discriminate.
  - reflexivity.
Defined.

Lemma record_scalar_on_path_aborts_witness :
  BindableModelSerializer.to_internal_value_traced
    (record_of [int_field "age" (Some "age"); int_field "size" (Some "dims.size");
                int_field "rank" (Some "rank")])
    (PDict [("age", PStr "x"); ("dims", PInt 3); ("rank", PInt 1)])
  = (Raise AttributeError, [("age", PStr "x")]).
Proof.
  apply (record_scalar_on_path_aborts
           (record_of [int_field "age" (Some "age");
                       int_field "size" (Some "dims.size");
                       int_field "rank" (Some "rank")])
           [("age", PStr "x"); ("dims", PInt 3); ("rank", PInt 1)]
           [int_field "age" (Some "age")] [int_field "rank" (Some "rank")]
           (int_field "size" (Some "dims.size")) "dims.size" "size"
           ["dims"] [] (PInt 3)).
  - reflexivity.
  - reflexivity.
  - reflexivity.
  - reflexivity.
  - apply (at_step "dims" [] _ (PInt 3)); [reflexivity | apply at_here].
  - reflexivity.
Defined.

Lemma record_extract_at_path_witness :
  BindableModelSerializer.extract (int_field "size" (Some "dims.size"))
    "dims.size" [("dims", PDict [("size", PInt 3)])]
  = Ok (PInt 3).
Proof.
  apply (record_extract_at_path [("dims", PDict [("size", PInt 3)])]
           (int_field "size" (Some "dims.size")) "dims.size" (PInt 3)).
  apply (at_step "dims" ["size"] _ (PDict [("size", PInt 3)])); [reflexivity|].
  apply (at_step "size" [] _ (PInt 3)); [reflexivity | apply at_here].
Defined.

Lemma record_missing_segment_is_empty_witness :
  BindableModelSerializer.extract (int_field "c" (Some "a.b.c")) "a.b.c"
    [("a", PDict [("z", PInt 1)])]
  = Ok PEmpty.
Proof.
  apply (record_missing_segment_is_empty [("a", PDict [("z", PInt 1)])]
           (int_field "c" (Some "a.b.c")) "a.b.c" "b" ["a"] ["c"]
           [("z", PInt 1)]).
  - reflexivity.
  - apply (at_step "a" [] _ (PDict [("z", PInt 1)])); [reflexivity | apply at_here].
  - reflexivity.
Defined.

(* ===================================================================== *)
(** * Further properties: binding and the construction of lists *)
(* ===================================================================== *)

(** X23.  A field declared under the name [n] with a key [k] that is
    neither empty nor [n] and leads to a value that is no mapping, as
    the only writable field of a record.  The value found along the key
    is validated and stored under [n].  For the classes that define
    [bind], the errors go under [k] and the record's hook is looked up
    under [k], and [n] is kept as the original name; for the others
    both use [n]. *)
Theorem rebound_field_import (self : BindableModelSerializer.t)
    (c : Binding.field_class) (k n : string) (rv : pyval -> result pyval)
    (data : dict) (v : pyval) :
  BindableModelSerializer.writable_fields self
  = [Binding.field (Binding.bind c (Some k) [n] rv n)] ->
  k <> "" ->
  k <> n ->
  at_path (split "." k) (PDict data) v ->
  is_dict v = false ->
  let name := if Binding.overrides_bind c then k else n in
  BindableModelSerializer.to_internal_value self (PDict data)
  = single_field_result name n
      (x <- rv v ;;
       match BindableModelSerializer.validate_method self name with
       | Some hook => hook x
       | None => Ok x
       end)
  /\ Binding.original_field_name (Binding.bind c (Some k) [n] rv n)
     = if Binding.overrides_bind c then Some n else None.
Proof.
  intros Hfields Hk Hkn Hpath Hv name. subst name.
  unfold BindableModelSerializer.to_internal_value,
    BindableModelSerializer.to_internal_value_traced.
  rewrite Hfields. clear Hfields. unfold Binding.bind.
  apply String.eqb_neq in Hk, Hkn. rewrite Hk, Hkn.
  destruct (Binding.overrides_bind c); simpl; (split; [|reflexivity]);
    unfold BindableModelSerializer.field_step,
      BindableModelSerializer.extract; simpl;
    rewrite <- (app_nil_r (split "." k)), (record_walk_at_path _ _ _ _ Hpath);
    simpl;
    unfold BindableModelSerializer.get_value, dict_get,
      BindableModelSerializer.validate, BindableModelSerializer.try_body;
    simpl;
    destruct v; try discriminate; simpl; rewrite String.eqb_refl; simpl;
    match goal with
    | |- context [rv ?a] => destruct (rv a) as [x|[]]; simpl; try reflexivity
    end;
    match goal with
    | |- context [BindableModelSerializer.validate_method self ?a] =>
        destruct (BindableModelSerializer.validate_method self a) as [hook|];
        simpl; try reflexivity
    end;
    match goal with
    | |- context [match ?h ?a with _ => _ end] =>
        destruct (h a) as [y|[]]; reflexivity
    end.
Qed.

Lemma rebound_field_import_witness :
  BindableModelSerializer.to_internal_value
    (record_of [Binding.field
                  (Binding.bind Binding.IntegerFieldC (Some "dims.size") ["size"]
                     (BindableModelSerializer.run_validation (int_field "size" None))
                     "size")])
    (PDict [("dims", PDict [("size", PStr "wide")])])
  = Raise (ValidationError
             (DetailDict [("dims.size", PList [PStr "A valid integer is required."])])).
Proof.
  refine (proj1 (rebound_field_import
           (record_of [Binding.field
                  (Binding.bind Binding.IntegerFieldC (Some "dims.size") ["size"]
                     (BindableModelSerializer.run_validation (int_field "size" None))
                     "size")])
           Binding.IntegerFieldC "dims.size" "size"
           (BindableModelSerializer.run_validation (int_field "size" None))
           [("dims", PDict [("size", PStr "wide")])] (PStr "wide")
           _ _ _ _ _)).
  - reflexivity.
  - discriminate.
  - discriminate.
  - apply (at_step "dims" ["size"] _ (PDict [("size", PStr "wide")])); [reflexivity|].
    apply (at_step "size" [] _ (PStr "wide")); [reflexivity | apply at_here].
  - reflexivity.
Defined.

Section ManyInitProperties.

Import ManyInit.

Variable LIST_SERIALIZER_KWARGS : list string.
Variable fw_child : dict -> result unit.
Variable fw_list : pyval * dict -> dict -> result unit.
Variable kwargs : dict.
Hypothesis kwargs_distinct : NoDup (map fst kwargs).

(** The keyword arguments of the list serializer before its constructor
    binds [key]. *)
Lemma list_kwargs_lookup (name : string) (entry : dict) :
  dict_lookup name
    (dict_update entry
       (filter (fun kv => existsb (String.eqb (fst kv)) LIST_SERIALIZER_KWARGS)
               (Field.dict_pop "allow_empty" kwargs)))
  = match (if existsb (String.eqb name) LIST_SERIALIZER_KWARGS
           then dict_lookup name (Field.dict_pop "allow_empty" kwargs)
           else None) with
    | Some v => Some v
    | None => dict_lookup name entry
    end.
Proof.
  rewrite dict_lookup_update, dict_lookup_filter; [reflexivity|].
  apply filter_keys_nodup, dict_pop_nodup, kwargs_distinct.
Qed.

(** What a successful [many_init] has built, when [key] is no keyword
    of list serializers. *)
Lemma default_many_init_built (args : list pyval) (b : built) :
  ~ In "key" LIST_SERIALIZER_KWARGS ->
  default_many_init LIST_SERIALIZER_KWARGS fw_child fw_list args kwargs = Ok b ->
  child_key b = dict_get "key" PNone kwargs
  /\ child_kwargs b
     = Field.dict_pop "key" (Field.dict_pop "allow_empty" kwargs)
  /\ list_key b = hd PNone args
  /\ (forall name,
        name <> "key" ->
        dict_lookup name (list_kwargs b)
        = match (if existsb (String.eqb name) LIST_SERIALIZER_KWARGS
                 then dict_lookup name (Field.dict_pop "allow_empty" kwargs)
                 else None) with
          | Some v => Some v
          | None =>
              if String.eqb name "allow_empty"
              then match dict_get "allow_empty" PNone kwargs with
                   | PNone => None
                   | v => Some v
                   end
              else None
          end)
  /\ dict_lookup "key" (list_kwargs b) = None.
Proof.
  intros Hkey.
  unfold default_many_init, many_init, model_serializer, list_serializer,
    bindable_init.
  simpl.
  assert (Hnot : existsb (String.eqb "key") LIST_SERIALIZER_KWARGS = false).
  { apply not_true_is_false. now rewrite existsb_eqb_in. }
  set (entry := match dict_get "allow_empty" PNone kwargs with
                | PNone => []
                | _ => [("allow_empty", dict_get "allow_empty" PNone kwargs)]
                end).
  assert (Hentry : forall name,
             dict_lookup name entry
             = if String.eqb name "allow_empty"
               then match dict_get "allow_empty" PNone kwargs with
                    | PNone => None
                    | v => Some v
                    end
               else None).
  { intros name. unfold entry.
    destruct (dict_get "allow_empty" PNone kwargs); simpl;
      now destruct (String.eqb name "allow_empty"). }
  pose proof (fun name => list_kwargs_lookup name entry) as Hlookup.
  pose proof (Hlookup "key") as Hlist.
  rewrite Hnot, Hentry in Hlist. simpl in Hlist.
  set (lk := dict_update entry _) in *.
  unfold dict_get at 1. rewrite dict_lookup_pop by discriminate.
  fold (dict_get "key" PNone kwargs).
  destruct (fw_child _) as [[]|]; simpl; [|discriminate].
  destruct args as [|k [|]]; simpl; try discriminate.
  - destruct (fw_list _ _) as [[]|]; simpl; [|discriminate].
    intros [= <-]. simpl. repeat split.
    + unfold dict_get. now rewrite Hlist.
    + intros name Hname. rewrite dict_lookup_pop by exact Hname.
      rewrite Hlookup. now rewrite Hentry.
    + apply dict_lookup_none. intros Hin. apply dict_pop_keys in Hin.
      now apply dict_lookup_none in Hlist.
  - unfold Field.has_key. rewrite Hlist. simpl.
    destruct (fw_list _ _) as [[]|]; simpl; [|discriminate].
    intros [= <-]. simpl. repeat split.
    + intros name Hname. rewrite Hlookup. now rewrite Hentry.
    + exact Hlist.
Qed.

(** X24.  When [many_init] succeeds on keyword arguments without a true
    [many], the child's key is the keyword [key] (or [None]), the list
    serializer's key is the positional argument (or [None]), and [key]
    is passed on to the framework by neither. *)
Theorem many_init_routes_key (args : list pyval) (b : built) :
  ~ In "key" LIST_SERIALIZER_KWARGS ->
  truthy (dict_get "many" (PBool false) kwargs) = false ->
  default_many_init LIST_SERIALIZER_KWARGS fw_child fw_list args kwargs = Ok b ->
  child_key b = dict_get "key" PNone kwargs
  /\ list_key b = hd PNone args
  /\ dict_lookup "key" (child_kwargs b) = None
  /\ dict_lookup "key" (list_kwargs b) = None.
Proof.
  intros Hkey _ Hbuilt.
  destruct (default_many_init_built args b Hkey Hbuilt)
    as (Hck & Hckw & Hlk & _ & Hlkw).
  rewrite Hckw. repeat split; try assumption.
  apply dict_pop_gone, dict_pop_nodup, kwargs_distinct.
Qed.

(** X25.  A successful [many_init] has not passed [allow_empty] to the
    child, and has passed it to the list serializer exactly when it was
    given and is not [None]. *)
Theorem many_init_routes_allow_empty (args : list pyval) (b : built) :
  ~ In "key" LIST_SERIALIZER_KWARGS ->
  truthy (dict_get "many" (PBool false) kwargs) = false ->
  default_many_init LIST_SERIALIZER_KWARGS fw_child fw_list args kwargs = Ok b ->
  dict_lookup "allow_empty" (child_kwargs b) = None
  /\ dict_lookup "allow_empty" (list_kwargs b)
     = match dict_get "allow_empty" PNone kwargs with
       | PNone => None
       | v => Some v
       end.
Proof.
  intros Hkey _ Hbuilt.
  destruct (default_many_init_built args b Hkey Hbuilt)
    as (_ & Hckw & _ & Hlookup & _).
  rewrite Hckw, Hlookup by discriminate. split.
  - rewrite dict_lookup_pop by discriminate.
    apply dict_pop_gone, kwargs_distinct.
  - rewrite (dict_pop_gone _ _ kwargs_distinct). simpl.
    now destruct (existsb _ _).
Qed.

(** X26.  In a successful [many_init] every other keyword argument has
    reached the child; it has reached the list serializer exactly when
    the framework lists it among the keywords of list serializers. *)
Theorem many_init_shares_listed_keywords (args : list pyval) (b : built)
    (name : string) :
  ~ In "key" LIST_SERIALIZER_KWARGS ->
  truthy (dict_get "many" (PBool false) kwargs) = false ->
  name <> "key" ->
  name <> "allow_empty" ->
  default_many_init LIST_SERIALIZER_KWARGS fw_child fw_list args kwargs = Ok b ->
  dict_lookup name (child_kwargs b) = dict_lookup name kwargs
  /\ dict_lookup name (list_kwargs b)
     = if existsb (String.eqb name) LIST_SERIALIZER_KWARGS
       then dict_lookup name kwargs
       else None.
Proof.
  intros Hkey _ Hname1 Hname2 Hbuilt.
  destruct (default_many_init_built args b Hkey Hbuilt)
    as (_ & Hckw & _ & Hlookup & _).
  rewrite Hckw, Hlookup by exact Hname1. split.
  - now rewrite !dict_lookup_pop.
  - rewrite dict_lookup_pop by exact Hname2.
    apply String.eqb_neq in Hname2. rewrite Hname2.
    destruct (existsb (String.eqb name) LIST_SERIALIZER_KWARGS); [|reflexivity].
    now destruct (dict_lookup name kwargs).
Qed.

End ManyInitProperties.

(** X27.  [many_init] constructs the child first, from all keyword
    arguments but [allow_empty]: when the framework class of the child
    refuses them, [many_init] raises that exception, whatever the
    positional arguments are and whatever the list serializer would have
    made of its own. *)
Theorem many_init_child_refusal (LIST_SERIALIZER_KWARGS : list string)
    (fw_child : dict -> result unit)
    (fw_list : pyval * dict -> dict -> result unit)
    (args : list pyval) (kwargs : dict) (e : exn) :
  truthy (dict_get "many" (PBool false) kwargs) = false ->
  fw_child (Field.dict_pop "key" (Field.dict_pop "allow_empty" kwargs)) = Raise e ->
  ManyInit.default_many_init LIST_SERIALIZER_KWARGS fw_child fw_list args kwargs
  = Raise e.
Proof.
  intros _ Hchild.
  unfold ManyInit.default_many_init, ManyInit.many_init,
    ManyInit.model_serializer, ManyInit.bindable_init.
  simpl. now rewrite Hchild.
Qed.

Lemma many_init_routes_key_witness :
  ManyInit.child_key
    (ManyInit.mkBuilt (PStr "item") [("required", PBool false)]
       (PStr "items") [("allow_empty", PBool true); ("required", PBool false)])
  = PStr "item"
  /\ ManyInit.list_key
       (ManyInit.mkBuilt (PStr "item") [("required", PBool false)]
          (PStr "items") [("allow_empty", PBool true); ("required", PBool false)])
     = PStr "items"
  /\ dict_lookup "key" [("required", PBool false)] = None
  /\ dict_lookup "key" [("allow_empty", PBool true); ("required", PBool false)]
     = None.
Proof.
  apply (many_init_routes_key ["required"; "allow_empty"; "data"; "context"]
           (fun _ => Ok tt) (fun _ _ => Ok tt)
           [("key", PStr "item"); ("required", PBool false);
            ("allow_empty", PBool true)]
           ltac:(simpl; repeat constructor; simpl; intuition discriminate)
           [PStr "items"]
           (ManyInit.mkBuilt (PStr "item") [("required", PBool false)]
              (PStr "items")
              [("allow_empty", PBool true); ("required", PBool false)])).
  - simpl. intuition discriminate.
  - reflexivity.
  - reflexivity.
Defined.

Lemma many_init_routes_allow_empty_witness :
  dict_lookup "allow_empty" [("required", PBool false)] = None
  /\ dict_lookup "allow_empty"
       [("allow_empty", PBool true); ("required", PBool false)]
     = Some (PBool true).
Proof.
  apply (many_init_routes_allow_empty
           ["required"; "allow_empty"; "data"; "context"]
           (fun _ => Ok tt) (fun _ _ => Ok tt)
           [("key", PStr "item"); ("required", PBool false);
            ("allow_empty", PBool true)]
           ltac:(simpl; repeat constructor; simpl; intuition discriminate)
           []
           (ManyInit.mkBuilt (PStr "item") [("required", PBool false)]
              PNone
              [("allow_empty", PBool true); ("required", PBool false)])).
  - simpl. intuition discriminate.
  - reflexivity.
  - reflexivity.
Defined.

Lemma many_init_shares_listed_keywords_witness :
  dict_lookup "label" [("label", PStr "L"); ("required", PBool false)]
  = Some (PStr "L")
  /\ dict_lookup "label" [("required", PBool false)] = None.
Proof.
  apply (many_init_shares_listed_keywords
           ["required"; "allow_empty"; "data"; "context"]
           (fun _ => Ok tt) (fun _ _ => Ok tt)
           [("key", PStr "item"); ("label", PStr "L"); ("required", PBool false)]
           ltac:(simpl; repeat constructor; simpl; intuition discriminate)
           []
           (ManyInit.mkBuilt (PStr "item")
              [("label", PStr "L"); ("required", PBool false)]
              PNone [("required", PBool false)])
           "label").
  - simpl. intuition discriminate.
  - reflexivity.
  - discriminate.
  - discriminate.
  - reflexivity.
Defined.

Lemma many_init_child_refusal_witness :
  ManyInit.default_many_init ["required"; "allow_empty"; "data"; "context"]
    (fun kw => if Field.has_key "bogus" kw
               then Raise (TypeError "got an unexpected keyword argument")
               else Ok tt)
    (fun _ _ => Ok tt)
    [] [("label", PStr "L"); ("bogus", PInt 1)]
  = Raise (TypeError "got an unexpected keyword argument").
Proof.
  apply many_init_child_refusal; reflexivity.
Defined.
